(** * The document ingestion pipeline of the DSA learning agent

    A shallow embedding of [src/data_processing/pdf_parser.py],
    [src/data_processing/text_splitter.py],
    [src/data_processing/db_populator.py], [src/core/vector_store.py] and
    [src/scripts/populate_db.py], with the part of Python's [str], [int]
    and [re] these files rely on, and the properties of the pipeline proved
    over it. *)

From Stdlib Require Import ZArith NArith List String Ascii Bool Lia Permutation.
From stdpp Require Import base option list gmap strings.

(** ** Exceptions

    A computation that can raise returns [Ok] with its value or [Raise] with
    the message of the exception. *)

Inductive res (A : Type) : Type :=
| Ok (a : A)
| Raise (e : list N).

Arguments Ok {A} a.
Arguments Raise {A} e.

Definition bind {A B : Type} (m : res A) (k : A -> res B) : res B :=
  match m with
  | Ok a => k a
  | Raise e => Raise e
  end.

Notation "x <- m ;; k" := (bind m (fun x => k))
  (at level 100, m at next level, right associativity).

(** A loop that collects one result per element and stops at the first
    element that raises. *)
Fixpoint for_each {A B : Type} (f : A -> res B) (l : list A) : res (list B) :=
  match l with
  | [] => Ok []
  | a :: l' => b <- f a ;; bs <- for_each f l' ;; Ok (b :: bs)
  end.

(** [enumerate(l)] *)
Definition enumerate {A : Type} (l : list A) : list (nat * A) :=
  combine (seq 0 (length l)) l.

(** [range(a, b)] over the integers. *)
Definition range (a b : Z) : list Z :=
  map (fun k => (a + Z.of_nat k)%Z) (seq 0 (Z.to_nat (b - a))).

(** ** Python strings *)

Module Py.

(** A Python [str] is a sequence of Unicode code points. *)
Definition char : Type := N.
Definition str : Type := list char.

Definition ch (a : ascii) : char := N_of_ascii a.

(** String literals of this file are UTF-8 encoded; [utf8] decodes them to
    code points (ill-formed input decodes to an empty tail). *)
Fixpoint utf8 (s : string) : str :=
  match s with
  | EmptyString => []
  | String a r =>
    let b := N_of_ascii a in
    if (b <? 128)%N then b :: utf8 r
    else if (b <? 224)%N then
      match r with
      | String a1 r1 => ((b - 192) * 64 + (N_of_ascii a1 - 128))%N :: utf8 r1
      | EmptyString => []
      end
    else if (b <? 240)%N then
      match r with
      | String a1 (String a2 r2) =>
        ((b - 224) * 4096 + (N_of_ascii a1 - 128) * 64
         + (N_of_ascii a2 - 128))%N :: utf8 r2
      | _ => []
      end
    else
      match r with
      | String a1 (String a2 (String a3 r3)) =>
        ((b - 240) * 262144 + (N_of_ascii a1 - 128) * 4096
         + (N_of_ascii a2 - 128) * 64 + (N_of_ascii a3 - 128))%N :: utf8 r3
      | _ => []
      end
  end.

Definition in_ranges (c : char) (rs : list (N * N)) : bool :=
  existsb (fun r => (fst r <=? c)%N && (c <=? snd r)%N) rs.

(** [str.isspace] on one character, which is also what [\s] matches in a
    [str] pattern (Unicode 14, the whole code space). *)
Definition space_ranges : list (N * N) :=
  [(9, 13); (28, 32); (133, 133); (160, 160); (5760, 5760); (8192, 8202);
   (8232, 8233); (8239, 8239); (8287, 8287); (12288, 12288)]%N.

Definition is_space (c : char) : bool := in_ranges c space_ranges.

(** What [\d] matches in a [str] pattern: the decimal digits of Unicode
    (category Nd, Unicode 14), each block holding the digits 0 to 9 in order
    ([(start, length)]). *)
Definition digit_blocks : list (N * N) :=
  [(48, 10); (1632, 10); (1776, 10); (1984, 10); (2406, 10); (2534, 10);
   (2662, 10); (2790, 10); (2918, 10); (3046, 10); (3174, 10); (3302, 10);
   (3430, 10); (3558, 10); (3664, 10); (3792, 10); (3872, 10); (4160, 10);
   (4240, 10); (6112, 10); (6160, 10); (6470, 10); (6608, 10); (6784, 10);
   (6800, 10); (6992, 10); (7088, 10); (7232, 10); (7248, 10); (42528, 10);
   (43216, 10); (43264, 10); (43472, 10); (43504, 10); (43600, 10);
   (44016, 10); (65296, 10); (66720, 10); (68912, 10); (69734, 10);
   (69872, 10); (69942, 10); (70096, 10); (70384, 10); (70736, 10);
   (70864, 10); (71248, 10); (71360, 10); (71472, 10); (71904, 10);
   (72016, 10); (72784, 10); (73040, 10); (73120, 10); (92768, 10);
   (92864, 10); (93008, 10); (120782, 50); (123200, 10); (123632, 10);
   (125264, 10); (130032, 10)]%N.

Definition digit_value (c : char) : option N :=
  match
    find (fun b => (fst b <=? c)%N && (c <? fst b + snd b)%N) digit_blocks
  with
  | Some b => Some ((c - fst b) mod 10)%N
  | None => None
  end.

Definition is_digit (c : char) : bool :=
  match digit_value c with Some _ => true | None => false end.

(** What [\w] matches in a [str] pattern ([str.isalnum] or an underscore),
    for the code points below U+0530 (Basic Latin to Cyrillic Supplement,
    Unicode 14) and the decimal digits; other scripts are outside the table
    and count as non-word characters here. *)
Definition word_ranges : list (N * N) :=
  [(48, 57); (65, 90); (95, 95); (97, 122); (170, 170); (178, 179);
   (181, 181); (185, 186); (188, 190); (192, 214); (216, 246); (248, 705);
   (710, 721); (736, 740); (748, 748); (750, 750); (880, 884); (886, 887);
   (890, 893); (895, 895); (902, 902); (904, 906); (908, 908); (910, 929);
   (931, 1013); (1015, 1153); (1162, 1327)]%N.

Definition is_word (c : char) : bool := in_ranges c word_ranges || is_digit c.

(** The simple lower-case mapping of [str.lower], for the code points below
    U+0530: [(first, last, stride, image of first)]. Two mappings that are not
    character to character are left out (U+0130, which lower-cases to two
    code points, and the final form of capital sigma); code points outside
    the table are kept as they are. *)
Definition lower_table : list (N * N * N * N) :=
  [(65, 90, 1, 97); (192, 214, 1, 224); (216, 222, 1, 248);
   (256, 302, 2, 257); (306, 310, 2, 307); (313, 327, 2, 314);
   (330, 374, 2, 331); (376, 376, 1, 255); (377, 381, 2, 378);
   (385, 385, 1, 595); (386, 388, 2, 387); (390, 390, 1, 596);
   (391, 391, 1, 392); (393, 394, 1, 598); (395, 395, 1, 396);
   (398, 398, 1, 477); (399, 399, 1, 601); (400, 400, 1, 603);
   (401, 401, 1, 402); (403, 403, 1, 608); (404, 404, 1, 611);
   (406, 406, 1, 617); (407, 407, 1, 616); (408, 408, 1, 409);
   (412, 412, 1, 623); (413, 413, 1, 626); (415, 415, 1, 629);
   (416, 420, 2, 417); (422, 422, 1, 640); (423, 423, 1, 424);
   (425, 425, 1, 643); (428, 428, 1, 429); (430, 430, 1, 648);
   (431, 431, 1, 432); (433, 434, 1, 650); (435, 437, 2, 436);
   (439, 439, 1, 658); (440, 440, 1, 441); (444, 444, 1, 445);
   (452, 452, 1, 454); (453, 453, 1, 454); (455, 455, 1, 457);
   (456, 456, 1, 457); (458, 458, 1, 460); (459, 475, 2, 460);
   (478, 494, 2, 479); (497, 497, 1, 499); (498, 500, 2, 499);
   (502, 502, 1, 405); (503, 503, 1, 447); (504, 542, 2, 505);
   (544, 544, 1, 414); (546, 562, 2, 547); (570, 570, 1, 11365);
   (571, 571, 1, 572); (573, 573, 1, 410); (574, 574, 1, 11366);
   (577, 577, 1, 578); (579, 579, 1, 384); (580, 580, 1, 649);
   (581, 581, 1, 652); (582, 590, 2, 583); (880, 882, 2, 881);
   (886, 886, 1, 887); (895, 895, 1, 1011); (902, 902, 1, 940);
   (904, 906, 1, 941); (908, 908, 1, 972); (910, 911, 1, 973);
   (913, 929, 1, 945); (931, 939, 1, 963); (975, 975, 1, 983);
   (984, 1006, 2, 985); (1012, 1012, 1, 952); (1015, 1015, 1, 1016);
   (1017, 1017, 1, 1010); (1018, 1018, 1, 1019); (1021, 1023, 1, 891);
   (1024, 1039, 1, 1104); (1040, 1071, 1, 1072); (1120, 1152, 2, 1121);
   (1162, 1214, 2, 1163); (1216, 1216, 1, 1231); (1217, 1229, 2, 1218);
   (1232, 1326, 2, 1233)]%N.

Definition lower_char (c : char) : char :=
  match
    find (fun e => match e with
                   | (lo, hi, stride, _) =>
                     (lo <=? c)%N && (c <=? hi)%N
                     && ((c - lo) mod stride =? 0)%N
                   end) lower_table
  with
  | Some (lo, _, _, img) => (img + (c - lo))%N
  | None => c
  end.

(** [s.lower()] *)
Definition lower (s : str) : str := map lower_char s.

(** [s.strip()] *)
Fixpoint lstrip (s : str) : str :=
  match s with
  | c :: s' => if is_space c then lstrip s' else s
  | [] => []
  end.

Definition rstrip (s : str) : str := rev (lstrip (rev s)).

Definition strip (s : str) : str := rstrip (lstrip s).

(** [sep.join(parts)] *)
Fixpoint join (sep : str) (parts : list str) : str :=
  match parts with
  | [] => []
  | [p] => p
  | p :: ps => p ++ sep ++ join sep ps
  end.

(** [s.split(sep)] for a separator of one character. *)
Fixpoint split (sep : char) (s : str) : list str :=
  match s with
  | [] => [[]]
  | c :: s' =>
    if (c =? sep)%N then [] :: split sep s'
    else
      match split sep s' with
      | l :: ls => (c :: l) :: ls
      | [] => [[c]]
      end
  end.

Fixpoint starts_with (p s : str) : bool :=
  match p, s with
  | [], _ => true
  | a :: p', b :: s' => (a =? b)%N && starts_with p' s'
  | _ :: _, [] => false
  end.

(** [sub in s] *)
Fixpoint contains (sub s : str) : bool :=
  starts_with sub s
  || match s with
     | [] => false
     | _ :: s' => contains sub s'
     end.

(** [int(s)] on a run of decimal digits, which is what the parser passes to
    it (the capture of a group [(\d+)]); any other string is the
    [ValueError] (signs, blanks and underscores, which [int] also reads, are
    not modelled). A string that starts with more than
    [sys.get_int_max_str_digits()] digits is refused with a [ValueError]
    too; the program leaves the limit at the interpreter's default, 4300.
    The messages are shortened. *)
Fixpoint int_digits (s : str) (acc : Z) : res Z :=
  match s with
  | [] => Ok acc
  | c :: s' =>
    match digit_value c with
    | Some d => int_digits s' (acc * 10 + Z.of_N d)%Z
    | None => Raise (utf8 "invalid literal for int() with base 10")
    end
  end.

(** The length of the run of decimal digits at the start of a string. *)
Fixpoint digit_run (s : str) : nat :=
  match s with
  | c :: s' =>
    match digit_value c with
    | Some _ => S (digit_run s')
    | None => O
    end
  | [] => O
  end.

Definition int_max_str_digits : nat := 4300.

Definition int (s : str) : res Z :=
  match s with
  | [] => Raise (utf8 "invalid literal for int() with base 10")
  | _ =>
    if (int_max_str_digits <? digit_run s)%nat
    then Raise (utf8 ("Exceeds the limit (4300 digits) "
                      ++ "for integer string conversion"))
    else int_digits s 0%Z
  end.

(** [str(n)] for an integer. *)
Fixpoint nat_digits (fuel n : nat) (acc : str) : str :=
  match fuel with
  | O => acc
  | S fuel' =>
    let acc' := (48 + N.of_nat (n mod 10))%N :: acc in
    if (n / 10 =? 0)%nat then acc' else nat_digits fuel' (n / 10) acc'
  end.

Definition str_of_nat (n : nat) : str := nat_digits (S n) n [].

Definition str_of_Z (z : Z) : str :=
  if (z <? 0)%Z then ch "-" :: str_of_nat (Z.to_nat (- z))
  else str_of_nat (Z.to_nat z).

Definition newline : char := 10%N.

End Py.

Abbreviation py s := (Py.utf8 s%string) (only parsing).

(** [l[i]]: a negative index counts from the end, an index outside the list
    is the [IndexError]. *)
Definition getitem {A : Type} (l : list A) (i : Z) : res A :=
  let n := Z.of_nat (length l) in
  let k := if (i <? 0)%Z then (i + n)%Z else i in
  if (k <? 0)%Z then Raise (py "list index out of range")
  else
    match l !! Z.to_nat k with
    | Some a => Ok a
    | None => Raise (py "list index out of range")
    end.

(** ** Regular expressions

    The part of Python's [re] that the patterns of the pipeline use: literal
    characters, [.], the classes [\s] and [\d], bracketed sets with ranges
    and negation, capturing groups, the anchor [^], the word boundary [\b],
    and the repetitions [*], [+], [{n,}] (greedy, or lazy with a trailing
    [?]) of a one-character atom. Matching is by backtracking, alternatives
    tried in the order [re] tries them. *)

Module Re.
Import Py.

Inductive citem : Type :=
| CChar (c : char)
| CRange (lo hi : char)
| CSpace
| CDigit.

Inductive atom : Type :=
| Lit (c : char)
| Any
| Space
| Digit
| Class (negate : bool) (items : list citem).

Inductive node : Type :=
| One (a : atom)
| Repeat (a : atom) (min : nat) (greedy : bool)
| Open (g : nat)
| Close (g : nat)
| Bol
| Boundary
| Fail.

Definition regex : Type := list node.

(** *** Parsing a pattern *)

Definition escape_atom (e : char) : option atom :=
  if (e =? ch "s")%N then Some Space
  else if (e =? ch "d")%N then Some Digit
  else if (e =? ch "n")%N then Some (Lit newline)
  else if is_word e then None
  else Some (Lit e).

Definition escape_citem (e : char) : option citem :=
  if (e =? ch "s")%N then Some CSpace
  else if (e =? ch "d")%N then Some CDigit
  else if (e =? ch "n")%N then Some (CChar newline)
  else if is_word e then None
  else Some (CChar e).

(** The body of a bracketed set, up to its closing bracket. *)
Fixpoint parse_class (s : str) (acc : list citem)
  : option (list citem * str) :=
  match s with
  | [] => None
  | c :: s' =>
    if (c =? ch "]")%N then Some (rev acc, s')
    else if (c =? ch "\")%N then
      match s' with
      | e :: s'' =>
        match escape_citem e with
        | Some i => parse_class s'' (i :: acc)
        | None => None
        end
      | [] => None
      end
    else
      match s' with
      | d :: hi :: s'' =>
        if (d =? ch "-")%N && negb (hi =? ch "]")%N
        then parse_class s'' (CRange c hi :: acc)
        else parse_class s' (CChar c :: acc)
      | _ => parse_class s' (CChar c :: acc)
      end
  end.

(** The digits of a bound [{n,}]. *)
Fixpoint parse_nat (s : str) (acc : nat) : nat * str :=
  match s with
  | c :: s' =>
    if (48 <=? c)%N && (c <=? 57)%N
    then parse_nat s' (acc * 10 + N.to_nat (c - 48))
    else (acc, s)
  | [] => (acc, s)
  end.

(** The repetition that follows an atom, if any: the node and what is left of
    the pattern. [?] alone and [{n,m}] are not part of the subset. *)
Definition quantified (a : atom) (s : str) : option (node * str) :=
  let lazy_suffix (min : nat) (s1 : str) :=
    match s1 with
    | q :: s2 =>
      if (q =? ch "?")%N then Some (Repeat a min false, s2)
      else Some (Repeat a min true, s1)
    | [] => Some (Repeat a min true, s1)
    end in
  match s with
  | c :: s1 =>
    if (c =? ch "*")%N then lazy_suffix 0 s1
    else if (c =? ch "+")%N then lazy_suffix 1 s1
    else if (c =? ch "?")%N then None
    else if (c =? ch "{")%N then
      match parse_nat s1 0 with
      | (n, c1 :: c2 :: s2) =>
        if (c1 =? ch ",")%N && (c2 =? ch "}")%N
        then lazy_suffix n s2
        else None
      | _ => None
      end
    else Some (One a, s)
  | [] => Some (One a, s)
  end.

Fixpoint parse (fuel : nat) (s : str) (next_group : nat) (stack : list nat)
  : option regex :=
  match fuel with
  | O => None
  | S fuel' =>
    let continue (r : option (node * str)) :=
      match r with
      | Some (n, rest) =>
        match parse fuel' rest next_group stack with
        | Some re => Some (n :: re)
        | None => None
        end
      | None => None
      end in
    match s with
    | [] => match stack with [] => Some [] | _ :: _ => None end
    | c :: s' =>
      if (c =? ch "(")%N then
        match parse fuel' s' (S next_group) (next_group :: stack) with
        | Some re => Some (Open next_group :: re)
        | None => None
        end
      else if (c =? ch ")")%N then
        match stack with
        | g :: stack' =>
          match parse fuel' s' next_group stack' with
          | Some re => Some (Close g :: re)
          | None => None
          end
        | [] => None
        end
      else if (c =? ch "^")%N then continue (Some (Bol, s'))
      else if (c =? ch "\")%N then
        match s' with
        | e :: s'' =>
          if (e =? ch "b")%N then continue (Some (Boundary, s''))
          else
            match escape_atom e with
            | Some a => continue (quantified a s'')
            | None => None
            end
        | [] => None
        end
      else if (c =? ch "[")%N then
        match s' with
        | n :: s'' =>
          if (n =? ch "^")%N then
            match parse_class s'' [] with
            | Some (items, rest) => continue (quantified (Class true items) rest)
            | None => None
            end
          else
            match parse_class s' [] with
            | Some (items, rest) => continue (quantified (Class false items) rest)
            | None => None
            end
        | [] => None
        end
      else if (c =? ch ".")%N then continue (quantified Any s')
      else if existsb (N.eqb c) (utf8 "*+?{}|$") then None
      else continue (quantified (Lit c) s')
    end
  end.

(** [re.compile(pattern)]; groups are numbered from 1 in the order of their
    opening parentheses. A pattern outside the subset compiles to a regex
    that matches nothing. *)
Definition compile (pattern : str) : regex :=
  match parse (S (length pattern)) pattern 1 [] with
  | Some re => re
  | None => [Fail]
  end.

(** *** Matching *)

Definition lit_matches (ignorecase : bool) (x c : char) : bool :=
  if ignorecase then (lower_char c =? lower_char x)%N else (c =? x)%N.

Definition citem_matches (ignorecase : bool) (i : citem) (c : char) : bool :=
  match i with
  | CChar x => lit_matches ignorecase x c
  | CRange lo hi =>
    ((lo <=? c)%N && (c <=? hi)%N)
    || (ignorecase && (lo <=? lower_char c)%N && (lower_char c <=? hi)%N)
  | CSpace => is_space c
  | CDigit => is_digit c
  end.

Definition atom_matches (ignorecase : bool) (a : atom) (c : char) : bool :=
  match a with
  | Lit x => lit_matches ignorecase x c
  | Any => negb (c =? newline)%N
  | Space => is_space c
  | Digit => is_digit c
  | Class negate items =>
    xorb negate (existsb (fun i => citem_matches ignorecase i c) items)
  end.

(** Capture state: where each open group started, and the span of each
    closed group (the latest first). *)
Record captures : Type := {
  opened : list (nat * nat);
  closed : list (nat * (nat * nat))
}.

Definition no_captures : captures := {| opened := []; closed := [] |}.

Definition assoc {A : Type} (k : nat) (l : list (nat * A)) : option A :=
  match find (fun e => (fst e =? k)%nat) l with
  | Some e => Some (snd e)
  | None => None
  end.

Definition open_group (g pos : nat) (st : captures) : captures :=
  {| opened := (g, pos) :: opened st; closed := closed st |}.

Definition close_group (g pos : nat) (st : captures) : captures :=
  match assoc g (opened st) with
  | Some start =>
    {| opened := opened st; closed := (g, (start, pos)) :: closed st |}
  | None => st
  end.

Definition word_before (prev : option char) : bool :=
  match prev with Some c => is_word c | None => false end.

Definition word_after (rest : str) : bool :=
  match rest with c :: _ => is_word c | [] => false end.

(** A step of the matcher: from the character before the position, the
    position and the rest of the subject to the end of a match and its
    captures. *)
Definition step : Type := option char -> nat -> str -> option (nat * captures).

(** The repetition [a{need,}] followed by [next]. A greedy repetition tries
    one more character before it tries to stop, a lazy one tries to stop
    before it takes one more. *)
Fixpoint rep (ignorecase : bool) (a : atom) (greedy : bool) (next : step)
  (need : nat) (prev : option char) (pos : nat) (rest : str)
  : option (nat * captures) :=
  match need with
  | S need' =>
    match rest with
    | c :: rest' =>
      if atom_matches ignorecase a c
      then rep ignorecase a greedy next need' (Some c) (S pos) rest'
      else None
    | [] => None
    end
  | O =>
    if greedy then
      match
        match rest with
        | c :: rest' =>
          if atom_matches ignorecase a c
          then rep ignorecase a greedy next O (Some c) (S pos) rest'
          else None
        | [] => None
        end
      with
      | Some r => Some r
      | None => next prev pos rest
      end
    else
      match next prev pos rest with
      | Some r => Some r
      | None =>
        match rest with
        | c :: rest' =>
          if atom_matches ignorecase a c
          then rep ignorecase a greedy next O (Some c) (S pos) rest'
          else None
        | [] => None
        end
      end
  end.

(** [exec] runs a regex at one position of the subject: [prev] is the
    character before the position, [rest] the subject from the position on.
    It answers the end of the first match found in backtracking order, with
    the captures, or [None]. *)
Fixpoint exec (ignorecase : bool) (re : regex) (st : captures)
  (prev : option char) (pos : nat) (rest : str) : option (nat * captures) :=
  match re with
  | [] => Some (pos, st)
  | One a :: re' =>
    match rest with
    | c :: rest' =>
      if atom_matches ignorecase a c
      then exec ignorecase re' st (Some c) (S pos) rest'
      else None
    | [] => None
    end
  | Repeat a min greedy :: re' =>
    rep ignorecase a greedy (exec ignorecase re' st) min prev pos rest
  | Open g :: re' => exec ignorecase re' (open_group g pos st) prev pos rest
  | Close g :: re' => exec ignorecase re' (close_group g pos st) prev pos rest
  | Bol :: re' =>
    match pos with
    | O => exec ignorecase re' st prev pos rest
    | S _ => None
    end
  | Boundary :: re' =>
    if xorb (word_before prev) (word_after rest)
    then exec ignorecase re' st prev pos rest
    else None
  | Fail :: _ => None
  end.

(** A match object: the subject, the span of the match and of its groups. *)
Record Match : Type := {
  subject : str;
  m_start : nat;
  m_end : nat;
  spans : list (nat * (nat * nat))
}.

(** [m.group(g)], for a group that took part in the match. *)
Definition group (m : Match) (g : nat) : str :=
  match assoc g (spans m) with
  | Some (s, e) => take (e - s) (drop s (subject m))
  | None => []
  end.

(** [re.match(pattern, s, flags)]: a match at the start of [s]. *)
Definition re_match (pattern : str) (ignorecase : bool) (s : str)
  : option Match :=
  match exec ignorecase (compile pattern) no_captures None 0 s with
  | Some (e, st) =>
    Some {| subject := s; m_start := 0; m_end := e; spans := closed st |}
  | None => None
  end.

(** The scan of [findall] and [sub]: the matches of [re] in the subject from
    left to right, none overlapping another. [skip] counts the characters of
    the last match that are still to be passed over. *)
Fixpoint scan (ignorecase : bool) (re : regex) (whole : str)
  (prev : option char) (pos : nat) (rest : str) (skip : nat) : list Match :=
  match skip with
  | S skip' =>
    match rest with
    | c :: rest' => scan ignorecase re whole (Some c) (S pos) rest' skip'
    | [] => []
    end
  | O =>
    match exec ignorecase re no_captures prev pos rest with
    | Some (e, st) =>
      {| subject := whole; m_start := pos; m_end := e; spans := closed st |}
      :: match rest with
         | c :: rest' =>
           scan ignorecase re whole (Some c) (S pos) rest' (pred (e - pos))
         | [] => []
         end
    | None =>
      match rest with
      | c :: rest' => scan ignorecase re whole (Some c) (S pos) rest' O
      | [] => []
      end
    end
  end.

(** [re.findall(pattern, s)] for a pattern with one group: the text of the
    group in every match. *)
Definition findall (pattern : str) (s : str) : list str :=
  map (fun m => group m 1) (scan false (compile pattern) s None 0 s 0).

(** [re.sub(pattern, repl, s)] for a replacement without group references:
    the subject with every match replaced by [repl]. *)
Fixpoint sub_from (re : regex) (repl : str) (prev : option char) (pos : nat)
  (rest : str) (skip : nat) : str :=
  match skip with
  | S skip' =>
    match rest with
    | c :: rest' => sub_from re repl (Some c) (S pos) rest' skip'
    | [] => []
    end
  | O =>
    match exec false re no_captures prev pos rest with
    | Some (e, _) =>
      repl ++
      match rest with
      | c :: rest' =>
        match (e - pos)%nat with
        | O => c :: sub_from re repl (Some c) (S pos) rest' O
        | S k => sub_from re repl (Some c) (S pos) rest' k
        end
      | [] => []
      end
    | None =>
      match rest with
      | c :: rest' => c :: sub_from re repl (Some c) (S pos) rest' O
      | [] => []
      end
    end
  end.

Definition sub (pattern repl s : str) : str :=
  sub_from (compile pattern) repl None 0 s 0.

End Re.

(** ** The PDF document

    What the parser uses of a [pymupdf] document: [len(doc)], the text of the
    page [doc[i]] ([Raise] when the library refuses the index) and the
    outline the file embeds, [doc.get_toc()]. *)

Record PdfDoc : Type := {
  page_count : nat;
  page_text : Z -> res Py.str;
  get_toc : list (Z * Py.str * Z)
}.

(** A document given by the texts of its pages. An index below the page
    count is served, a negative one counting from the last page. *)
Definition pdf_of_pages (pages : list Py.str) (outline : list (Z * Py.str * Z))
  : PdfDoc :=
  {| page_count := length pages;
     page_text := fun i =>
       match pages !! Z.to_nat (i mod Z.of_nat (length pages)) with
       | Some t => if (i <? Z.of_nat (length pages))%Z then Ok t
                   else Raise (py "page not in document")
       | None => Raise (py "page not in document")
       end;
     get_toc := outline |}.

(** ** pdf_parser.py *)

Module PDFParser.
Import Py Re.

(** An entry of [self.toc]: [(level, title, page)]. *)
Definition toc_entry : Type := Z * str * Z.

(** The parser object: the open document and [self.toc]. *)
Record t : Type := {
  doc : PdfDoc;
  toc : list toc_entry
}.

(** An entry of the structured outline that [extract_toc] returns. *)
Record OutlineEntry : Type := {
  oe_level : Z;
  oe_title : str;
  oe_page : Z;
  oe_type : str
}.

(** The dictionary that [extract_content_by_toc] builds for a section; its
    keys are fixed, so it is a record here. *)
Record Section : Type := {
  level : Z;
  title : str;
  start_page : Z;
  end_page : Z;
  content : str;
  type : str
}.

Definition lecture_pattern : str :=
  py "^Лекция\s+(\d+)[\.\s]+(.*?)\s+\.{2,}\s*(\d+)".
Definition section_pattern : str :=
  py "^(\d+)\.(\d+)[\.\s]+(.*?)\s+\.{2,}\s*(\d+)".
Definition subsection_pattern : str :=
  py "^(\d+)\.(\d+)\.(\d+)[\.\s]+(.*?)\s+\.{2,}\s*(\d+)".

(** The body of the loop over the lines of a page in
    [_extract_toc_manually]: the entry the line appends to [toc], if any. *)
Definition scan_line (line : str) : res (option toc_entry) :=
  match re_match lecture_pattern true line with
  | Some lecture_match =>
    let title := py "Лекция " ++ group lecture_match 1 ++ py ": "
                 ++ strip (group lecture_match 2) in
    page <- int (group lecture_match 3) ;;
    Ok (Some (1%Z, title, page))
  | None =>
    match re_match section_pattern false line with
    | Some section_match =>
      let title := group section_match 1 ++ py "." ++ group section_match 2
                   ++ py " " ++ strip (group section_match 3) in
      page <- int (group section_match 4) ;;
      Ok (Some (2%Z, title, page))
    | None =>
      match re_match subsection_pattern false line with
      | Some subsection_match =>
        let title := group subsection_match 1 ++ py "."
                     ++ group subsection_match 2 ++ py "."
                     ++ group subsection_match 3 ++ py " "
                     ++ strip (group subsection_match 4) in
        page <- int (group subsection_match 5) ;;
        Ok (Some (3%Z, title, page))
      | None => Ok None
      end
    end
  end.

Definition scan_page (d : PdfDoc) (page_num : nat) : res (list toc_entry) :=
  text <- page_text d (Z.of_nat page_num) ;;
  found <- for_each scan_line (split newline text) ;;
  Ok (omap id found).

Definition _extract_toc_manually (d : PdfDoc) : res (list toc_entry) :=
  let toc_pages := Nat.min 10 (page_count d) in
  per_page <- for_each (scan_page d) (seq 0 toc_pages) ;;
  Ok (concat per_page).

Definition _classify_heading (level : Z) (title : str) : str :=
  let title_lower := lower title in
  if contains (py "лекция") title_lower || (level =? 1)%Z then py "lecture"
  else if (level =? 2)%Z
          || match re_match (py "^\d+\.") false title with
             | Some _ => true
             | None => false
             end
  then py "section"
  else if (3 <=? level)%Z then py "subsection"
  else py "unknown".

Definition extract_toc (p : t) : res (t * list OutlineEntry) :=
  let raw_toc := get_toc (doc p) in
  new_toc <- match raw_toc with
             | _ :: _ => Ok raw_toc
             | [] => _extract_toc_manually (doc p)
             end ;;
  let structured_toc :=
    map (fun e => match e with
                  | (level, title, page) =>
                    {| oe_level := level;
                       oe_title := strip title;
                       oe_page := page;
                       oe_type := _classify_heading level title |}
                  end) new_toc in
  Ok ({| doc := doc p; toc := new_toc |}, structured_toc).

Definition _clean_text (text : str) : str :=
  let text := sub (py "\s+") (py " ") text in
  let text := sub (py "\n\s*\d+\s*\n") [newline] text in
  let text := sub (py "\n\s*\n") [newline; newline] text in
  strip text.

Definition _extract_text_from_pages (d : PdfDoc) (start_page end_page : Z)
  : res str :=
  text_parts <-
    for_each (fun page_num =>
                text <- page_text d page_num ;;
                Ok (_clean_text text))
             (range start_page (Z.min end_page (Z.of_nat (page_count d)))) ;;
  Ok (join [newline; newline] text_parts).

(** The inner loop of [extract_content_by_toc]: the first entry after
    position [i] whose level is at most [level] ends the section on the page
    before its own; without one the section runs to [len(self.doc)]. *)
Definition find_end_page (d : PdfDoc) (entries : list toc_entry) (i : nat)
  (level : Z) : Z :=
  match
    find (fun e => match e with
                   | (next_level, _, _) => (next_level <=? level)%Z
                   end) (drop (S i) entries)
  with
  | Some (_, _, next_page) => (next_page - 1)%Z
  | None => Z.of_nat (page_count d)
  end.

Definition section_at (d : PdfDoc) (entries : list toc_entry)
  (ie : nat * toc_entry) : res Section :=
  match ie with
  | (i, (level, title, start_page)) =>
    let end_page := find_end_page d entries i level in
    content <- _extract_text_from_pages d (start_page - 1)%Z end_page ;;
    Ok {| level := level;
          title := strip title;
          start_page := start_page;
          end_page := end_page;
          content := content;
          type := _classify_heading level title |}
  end.

Definition extract_content_by_toc (p : t) : res (t * list Section) :=
  p <- match toc p with
       | [] => r <- extract_toc p ;; Ok (fst r)
       | _ :: _ => Ok p
       end ;;
  sections_content <-
    for_each (section_at (doc p) (toc p)) (enumerate (toc p)) ;;
  Ok (p, sections_content).

End PDFParser.

(** ** text_splitter.py *)

Module SmartTextSplitter.
Import Py Re.

(** The values a metadata dictionary holds: strings, integers, and lists of
    strings. *)
Inductive pyval : Type :=
| PStr (s : str)
| PInt (z : Z)
| PList (l : list str).

(** A [langchain_core] document: a text and its metadata dictionary. *)
Record Document : Type := {
  page_content : str;
  metadata : gmap string pyval
}.

(** The configuration [__init__] hands to the library's
    [RecursiveCharacterTextSplitter]. *)
Record t : Type := {
  chunk_size : Z;
  chunk_overlap : Z;
  separators : list str
}.

Definition default_separators : list str :=
  [[newline; newline; newline]; [newline; newline]; [newline];
   py ". "; py ", "; py " "; []].

Definition init (chunk_size chunk_overlap : Z) (separators : option (list str))
  : t :=
  {| chunk_size := chunk_size;
     chunk_overlap := chunk_overlap;
     separators := match separators with
                   | None => default_separators
                   | Some l => l
                   end |}.

Definition concept_patterns : list str :=
  [py "\b(алгоритм[а-я]*)\b";
   py "\b(сложност[ьи])\b";
   py "\b(O\([^\)]+\))";
   py "\b(дерев[ао])\b";
   py "\b(граф[а-я]*)\b";
   py "\b(массив[а-я]*)\b";
   py "\b(список[а-я]*)\b";
   py "\b(стек[а-я]*)\b";
   py "\b(очеред[ьия])\b";
   py "\b(сортиров[а-я]+)\b";
   py "\b(поиск[а-я]*)\b";
   py "\b(рекурси[яи])\b";
   py "\b(динамическ[а-я]+ программирован[а-я]+)\b";
   py "\b(жадн[а-я]+ алгоритм[а-я]*)\b";
   py "\b(хеш[а-я]*)\b";
   py "\b(куч[аи])\b";
   py "\b(обход[а-я]*)\b"].

(** The list [concepts] when the loop over the patterns ends: the matches of
    every pattern in the lower-cased text, pattern after pattern. *)
Definition concept_matches (text : str) : list str :=
  flat_map (fun pattern => findall pattern (lower text)) concept_patterns.

Section Runtime.

(** [self.splitter.split_text] of the library, for a configuration. *)
Variable split_text : t -> str -> list str.

(** [list(set(l))]: the elements of [l] without repetition, in the order
    the interpreter's hash table gives them. *)
Variable set_order : list str -> list str.

Definition _extract_concepts (text : str) : list str :=
  take 10 (set_order (concept_matches text)).

(** [section_data] is a dictionary built by [extract_content_by_toc], where
    every key that [split_section] reads with [.get] is present. *)
Definition split_section (self : t) (section_data : PDFParser.Section)
  (parent_hierarchy : option (list str)) : list Document :=
  let content := PDFParser.content section_data in
  let title := PDFParser.title section_data in
  let level := PDFParser.level section_data in
  let section_type := PDFParser.type section_data in
  let start_page := PDFParser.start_page section_data in
  match content with
  | [] => []
  | _ :: _ =>
    let chunks := split_text self content in
    let hierarchy :=
      match parent_hierarchy with
      | Some (a :: l) => a :: l
      | _ => []
      end ++ [title] in
    map (fun ic =>
           let concepts := _extract_concepts (snd ic) in
           let metadata : gmap string pyval :=
             list_to_map
               [("source"%string, PStr (py "algobook.pdf"));
                ("title"%string, PStr title);
                ("level"%string, PInt level);
                ("type"%string, PStr section_type);
                ("page"%string, PInt start_page);
                ("chunk_index"%string, PInt (Z.of_nat (fst ic)));
                ("total_chunks"%string, PInt (Z.of_nat (length chunks)));
                ("hierarchy"%string, PStr (join (py " > ") hierarchy));
                ("concepts"%string, PStr (join (py ", ") concepts))] in
           {| page_content := snd ic; metadata := metadata |})
        (enumerate chunks)
  end.

End Runtime.

End SmartTextSplitter.

(** ** vector_store.py *)

Module VectorStoreManager.
Import Py SmartTextSplitter.

(** A store object: its identity, and what the Chroma client and collection
    behind it answer when they are called. *)
Record t : Type := {
  vs_id : nat;
  client_delete_collection : res unit;
  vectorstore_add_documents : list Document -> res (list str)
}.

Definition _clean_metadata (metadata : gmap string pyval) : gmap string pyval :=
  (fun value => match value with
                | PList l => PStr (join (py ", ") l)
                | PStr _ | PInt _ => value
                end) <$> metadata.

Definition add_documents (self : t) (documents : list Document)
  : res (list str) :=
  let filtered_documents :=
    map (fun doc => {| page_content := page_content doc;
                       metadata := _clean_metadata (metadata doc) |})
        documents in
  vectorstore_add_documents self filtered_documents.

Definition delete_collection (self : t) : res unit :=
  client_delete_collection self.

End VectorStoreManager.

(** ** db_populator.py *)

Module DatabasePopulator.
Import Py SmartTextSplitter.

Record t : Type := {
  pdf_path : str;
  vector_store : VectorStoreManager.t;
  text_splitter : SmartTextSplitter.t
}.

(** The loop of [_build_hierarchy] over [sections[current_index - 1]],
    ..., [sections[0]], given as the list [before] in that order. *)
Fixpoint walk_back (before : list PDFParser.Section) (current_level : Z)
  (hierarchy : list str) : list str :=
  match before with
  | [] => hierarchy
  | section :: before' =>
    if (PDFParser.level section <? current_level)%Z then
      let hierarchy := PDFParser.title section :: hierarchy in
      let current_level := PDFParser.level section in
      if (current_level =? 1)%Z then hierarchy
      else walk_back before' current_level hierarchy
    else walk_back before' current_level hierarchy
  end.

Definition _build_hierarchy (sections : list PDFParser.Section)
  (current_index : Z) : res (list str) :=
  current_section <- getitem sections current_index ;;
  let current_level := PDFParser.level current_section in
  Ok (walk_back (rev (take (Z.to_nat current_index) sections))
                current_level []).

(** What a run writes to the logger and which calls it makes on a store. *)
Inductive log_level : Type := INFO | WARNING | ERROR.

Inductive event : Type :=
| Log (lv : log_level) (message : str)
| DeleteCollection (store : nat)
| NewVectorStore
| AddDocuments (store : nat) (documents : list Document).

(** The dictionary [populate] returns, by its ["status"]. *)
Inductive populate_result : Type :=
| Success (total_sections total_documents : nat) (document_ids : list str)
| Error (error : str) (total_sections total_documents : nat).

Definition status (r : populate_result) : str :=
  match r with
  | Success _ _ _ => py "success"
  | Error _ _ _ => py "error"
  end.

(** A step of [populate]: it reads and updates the populator object, adds
    to the trace of events, and returns or raises. *)
Definition M (A : Type) : Type := t * list event -> res A * (t * list event).

Definition ret {A : Type} (a : A) : M A := fun s => (Ok a, s).

Definition mbind' {A B : Type} (m : M A) (k : A -> M B) : M B :=
  fun s => match m s with
           | (Ok a, s') => k a s'
           | (Raise e, s') => (Raise e, s')
           end.

Notation "x <~ m ;; k" := (mbind' m (fun x => k))
  (at level 100, m at next level, right associativity).
Notation "m >> k" := (mbind' m (fun _ => k))
  (at level 100, right associativity).

Definition lift {A : Type} (r : res A) : M A := fun s => (r, s).

Definition emit (e : event) : M unit :=
  fun s => (Ok tt, (fst s, snd s ++ [e])).

Definition info (message : str) : M unit := emit (Log INFO message).

Definition get_self : M t := fun s => (Ok (fst s), s).

Definition set_vector_store (v : VectorStoreManager.t) : M unit :=
  fun s => (Ok tt, ({| pdf_path := pdf_path (fst s);
                       vector_store := v;
                       text_splitter := text_splitter (fst s) |}, snd s)).

(** [try: body except Exception as e: handler(e)] *)
Definition try_except {A : Type} (body : M A) (handler : str -> M A) : M A :=
  fun s => match body s with
           | (Ok a, s') => (Ok a, s')
           | (Raise e, s') => handler e s'
           end.

(** A [for] loop whose body updates an accumulator. *)
Fixpoint for_M {A B : Type} (body : B -> A -> M B) (l : list A) (acc : B)
  : M B :=
  match l with
  | [] => ret acc
  | a :: l' => acc' <~ body acc a ;; for_M body l' acc'
  end.

Section Runtime.

Variable split_text : SmartTextSplitter.t -> str -> list str.
Variable set_order : list str -> list str.

(** The file system: the document a path opens, if the file exists. *)
Variable files : str -> option PdfDoc.

(** [VectorStoreManager()]: the store a new manager opens. *)
Variable new_vector_store : res VectorStoreManager.t.

(** [filter_complex_metadata] of the library. *)
Variable filter_complex_metadata : list Document -> list Document.

(** [PDFParser(pdf_path)] *)
Definition open_parser (path : str) : res PDFParser.t :=
  match files path with
  | Some d => Ok {| PDFParser.doc := d; PDFParser.toc := [] |}
  | None => Raise (py "PDF file not found: " ++ path)
  end.

(** The [if clear_existing:] block of [populate]. *)
Definition clear_collection : M unit :=
  info (py "Очистка существующей коллекции...") >>
  try_except
    (self <~ get_self ;;
     emit (DeleteCollection (VectorStoreManager.vs_id (vector_store self))) >>
     lift (VectorStoreManager.delete_collection (vector_store self)) >>
     emit NewVectorStore >>
     v <~ lift new_vector_store ;;
     set_vector_store v)
    (fun e =>
       emit (Log WARNING (py "Не удалось удалить коллекцию: " ++ e))).

(** The loop of [populate] over the sections. *)
Definition chunk_sections (self : t) (sections : list PDFParser.Section)
  : M (list Document) :=
  for_M (fun all_documents isec =>
           let i := fst isec in
           let section := snd isec in
           info (py "Обработка раздела " ++ str_of_nat (i + 1) ++ py "/"
                 ++ str_of_nat (length sections) ++ py ": "
                 ++ PDFParser.title section ++ py " (страница "
                 ++ str_of_Z (PDFParser.start_page section) ++ py ")") >>
           hierarchy <~ lift (_build_hierarchy sections (Z.of_nat i)) ;;
           let documents :=
             split_section split_text set_order (text_splitter self)
                           section (Some hierarchy) in
           info (py "  Создано чанков: "
                 ++ str_of_nat (length documents)) >>
           ret (all_documents ++ documents))
        (enumerate sections) [].

(** [populate] from the parsing of the PDF to the filtering of the
    metadata: the sections and the documents to store. *)
Definition ingest : M (list PDFParser.Section * list Document) :=
  self <~ get_self ;;
  info (py "Начало обработки PDF: " ++ pdf_path self) >>
  parser <~ lift (open_parser (pdf_path self)) ;;
  info (py "Извлечение оглавления...") >>
  r <~ lift (PDFParser.extract_toc parser) ;;
  let parser := fst r in
  let toc := snd r in
  info (py "Найдено разделов: " ++ str_of_nat (length toc)) >>
  info (py "Извлечение содержимого по разделам...") >>
  r <~ lift (PDFParser.extract_content_by_toc parser) ;;
  let sections := snd r in
  info (py "Извлечено разделов с содержимым: "
        ++ str_of_nat (length sections)) >>
  info (py "Разбиение на чанки...") >>
  all_documents <~ chunk_sections self sections ;;
  info (py "Всего создано документов: "
        ++ str_of_nat (length all_documents)) >>
  info (py "Фильтрация сложных метаданных...") >>
  let filtered_documents := filter_complex_metadata all_documents in
  info (py "Документов после фильтрации: "
        ++ str_of_nat (length filtered_documents)) >>
  ret (sections, filtered_documents).

(** The last [try] of [populate]: the write to the store. *)
Definition store (sections : list PDFParser.Section)
  (filtered_documents : list Document) : M populate_result :=
  info (py "Добавление документов в ChromaDB...") >>
  try_except
    (self <~ get_self ;;
     emit (AddDocuments (VectorStoreManager.vs_id (vector_store self))
                        filtered_documents) >>
     doc_ids <~ lift (VectorStoreManager.add_documents (vector_store self)
                                                       filtered_documents) ;;
     info (py "Успешно добавлено документов: "
           ++ str_of_nat (length doc_ids)) >>
     ret (Success (length sections) (length filtered_documents) doc_ids))
    (fun e =>
       emit (Log ERROR (py "Ошибка при добавлении документов: " ++ e)) >>
       ret (Error e (length sections) (length filtered_documents))).

Definition populate (clear_existing : bool) : M populate_result :=
  (if clear_existing then clear_collection else ret tt) >>
  r <~ ingest ;;
  store (fst r) (snd r).

End Runtime.

End DatabasePopulator.

(** ** populate_from_pdf and scripts/populate_db.py *)

Module PopulateDb.
Import Py SmartTextSplitter DatabasePopulator.

(** The arguments of the command line: [--pdf], [--clear], [--chunk-size]
    and [--chunk-overlap]. *)
Record args : Type := {
  arg_pdf : str;
  arg_clear : bool;
  arg_chunk_size : Z;
  arg_chunk_overlap : Z
}.

(** What [parser.parse_args()] does with the command line: it returns the
    arguments, or ends the process itself, with status 0 after [--help] and
    2 after a command line it refuses. *)
Inductive parsed : Type :=
| Parsed (a : args)
| Exited (status : Z).

Section Runtime.

Variable split_text : SmartTextSplitter.t -> str -> list str.
Variable set_order : list str -> list str.
Variable files : str -> option PdfDoc.
Variable new_vector_store : res VectorStoreManager.t.
Variable filter_complex_metadata : list Document -> list Document.

(** The global instance [vector_store_manager] of [vector_store.py]. *)
Variable vector_store_manager : VectorStoreManager.t.

(** [str(Path(s))]: a path as [pathlib] writes it. *)
Variable path_str : str -> str.

(** The constructor of the library's [RecursiveCharacterTextSplitter], which
    [SmartTextSplitter.__init__] calls: it raises for a configuration it
    refuses. *)
Variable check_splitter : SmartTextSplitter.t -> res unit.

(** [parser.parse_args()] on the command line of the process. *)
Variable parse_args : parsed.

(** [DatabasePopulator.__init__] *)
Definition init (pdf_path : str) (vector_store_manager : VectorStoreManager.t)
  (chunk_size chunk_overlap : Z) : res DatabasePopulator.t :=
  let splitter := SmartTextSplitter.init chunk_size chunk_overlap None in
  _ <- check_splitter splitter ;;
  Ok {| pdf_path := path_str pdf_path;
        vector_store := vector_store_manager;
        text_splitter := splitter |}.

Definition populate_from_pdf (pdf_path : str) (chunk_size chunk_overlap : Z)
  (clear_existing : bool) (trace : list event)
  : res populate_result * list event :=
  match init pdf_path vector_store_manager chunk_size chunk_overlap with
  | Ok populator =>
    let r := populate split_text set_order files new_vector_store
                      filter_complex_metadata clear_existing
                      (populator, trace) in
    (fst r, snd (snd r))
  | Raise e => (Raise e, trace)
  end.

(** [main]: the exit status of the script (0 when [main] returns, 1 where it
    calls [sys.exit(1)], the status of [argparse] where that ends the
    process) and the events of the run. What the script prints is left out:
    the standard output is taken to accept it. *)
Definition main (trace : list event) : Z * list event :=
  match parse_args with
  | Exited status => (status, trace)
  | Parsed a =>
    let pdf_path := path_str (arg_pdf a) in
    match files pdf_path with
    | None => (1%Z, trace)
    | Some _ =>
      match populate_from_pdf pdf_path (arg_chunk_size a)
                              (arg_chunk_overlap a) (arg_clear a) trace with
      | (Ok (Success _ _ _), trace') => (0%Z, trace')
      | (Ok (Error _ _ _), trace') => (1%Z, trace')
      | (Raise _, trace') => (1%Z, trace')
      end
    end
  end.

End Runtime.

End PopulateDb.

(** * Specifications and sample inputs *)

Import Py Re.

(** The character before the position, once the characters [taken] have
    been passed. *)
Definition prev_after (prev : option char) (taken : str) : option char :=
  match last taken with
  | Some c => Some c
  | None => prev
  end.

Module Spec.
Import PDFParser.

(** The ancestor walk in the words of section 4.3 of the specification:
    visit [sections[index-1]] down to [sections[0]] with a [currentLevel]
    that starts at the level of [sections[index]]; a visited section with a
    smaller level has its title prepended and gives the new [currentLevel];
    the scan stops once [currentLevel] is 1 or the start is reached. *)
Fixpoint resolve (visited : list Section) (currentLevel : Z)
  (result : list str) : list str :=
  if (currentLevel =? 1)%Z then result
  else
    match visited with
    | [] => result
    | s :: visited' =>
      if (level s <? currentLevel)%Z
      then resolve visited' (level s) (title s :: result)
      else resolve visited' currentLevel result
    end.

Definition resolveAncestors (sections : list Section) (index : nat)
  : list str :=
  match sections !! index with
  | Some s => resolve (rev (take index sections)) (level s) []
  | None => []
  end.

End Spec.

(** The nested outline of the specification's example. *)
Definition nested_sections : list PDFParser.Section :=
  [ {| PDFParser.level := 1; PDFParser.title := py "Лекция 1";
       PDFParser.start_page := 1; PDFParser.end_page := 9;
       PDFParser.content := py "a"; PDFParser.type := py "lecture" |};
    {| PDFParser.level := 2; PDFParser.title := py "1.1";
       PDFParser.start_page := 2; PDFParser.end_page := 9;
       PDFParser.content := py "b"; PDFParser.type := py "section" |};
    {| PDFParser.level := 3; PDFParser.title := py "1.1.1";
       PDFParser.start_page := 3; PDFParser.end_page := 9;
       PDFParser.content := py "c"; PDFParser.type := py "subsection" |} ]%Z.

(** A document whose pages can all be read: the library serves every index
    below the page count. *)
Definition readable (d : PdfDoc) : Prop :=
  forall i : Z, (i < Z.of_nat (page_count d))%Z ->
                exists text, page_text d i = Ok text.

(** A parser that has its outline: [self.toc] is set, or [extract_toc]
    returns for it. *)
Definition outline_obtained (p : PDFParser.t) : Prop :=
  PDFParser.toc p <> [] \/ exists r, PDFParser.extract_toc p = Ok r.

(** A document whose outline [extract_toc] obtains, asked by a parser that
    has just opened it. *)
Definition outline_found (d : PdfDoc) : Prop :=
  exists r,
    PDFParser.extract_toc {| PDFParser.doc := d; PDFParser.toc := [] |}
    = Ok r.

(** The pages from which the outline is read by hand, the first ten, can
    be read and hold no line of more than 4300 characters. *)
Definition short_lines (d : PdfDoc) : Prop :=
  forall i : nat,
    (i < Nat.min 10 (page_count d))%nat ->
    exists text,
      page_text d (Z.of_nat i) = Ok text
      /\ Forall (fun line => (length line <= int_max_str_digits)%nat)
                (split newline text).

Module SlicerSpec.
Import PDFParser.


End SlicerSpec.

(** An outline whose pages are out of order, over a document of ten pages. *)
Definition ten_pages : list str :=
  [py "p1"; py "p2"; py "p3"; py "p4"; py "p5";
   py "p6"; py "p7"; py "p8"; py "p9"; py "p10"].

Definition unordered_outline : list PDFParser.toc_entry :=
  [(1, py "A", 1); (1, py "B", 9); (1, py "C", 4)]%Z.

Definition unordered_parser : PDFParser.t :=
  {| PDFParser.doc := pdf_of_pages ten_pages unordered_outline;
     PDFParser.toc := unordered_outline |}.

(** [parent_hierarchy or []] *)
Definition ancestors_or_empty (parent_hierarchy : option (list str))
  : list str :=
  match parent_hierarchy with
  | Some l => l
  | None => []
  end.

(** A splitter that returns its text as one chunk, and a set order that
    keeps the first occurrence of each element in place. *)
Definition one_chunk (self : SmartTextSplitter.t) (text : str) : list str :=
  [text].

Definition first_seen (l : list str) : list str := rev (remove_dups (rev l)).

Definition section_1_1 : PDFParser.Section :=
  {| PDFParser.level := 2; PDFParser.title := py "1.1";
     PDFParser.start_page := 2; PDFParser.end_page := 9;
     PDFParser.content := py "b"; PDFParser.type := py "section" |}.

(** What [list(set(l))] may be: the elements of [l], each once, in some
    order. *)
Definition is_set_order (set_order : list str -> list str) : Prop :=
  forall l, NoDup (set_order l) /\ forall x, In x (set_order l) <-> In x l.

Definition sample_text : str := py "Массив имеет сложность O(n) при поиске".

Definition is_log (e : DatabasePopulator.event) : Prop :=
  match e with
  | DatabasePopulator.Log _ _ => True
  | _ => False
  end.

(** The stores that a trace hands documents to, in order. *)
Definition stores_written (trace : list DatabasePopulator.event) : list nat :=
  flat_map (fun e => match e with
                     | DatabasePopulator.AddDocuments store _ => [store]
                     | _ => []
                     end) trace.

(** How many times a trace opens a new store. *)
Definition stores_opened (trace : list DatabasePopulator.event) : nat :=
  length (List.filter (fun e => match e with
                                | DatabasePopulator.NewVectorStore => true
                                | _ => false
                                end) trace).

(** A step that returns, leaves the populator as it is and only logs. *)
Definition quiet_at {A : Type} (self : DatabasePopulator.t)
  (m : DatabasePopulator.M A) (Q : A -> Prop) : Prop :=
  forall trace, exists a logs,
    m (self, trace) = (Ok a, (self, trace ++ logs))
    /\ Forall is_log logs /\ Q a.

(** A small run: a store whose collection cannot be deleted, the store a new
    manager would open, and a document of two pages with an embedded
    outline. *)
Definition locked_store : VectorStoreManager.t :=
  {| VectorStoreManager.vs_id := 0;
     VectorStoreManager.client_delete_collection :=
       Raise (py "collection is locked");
     VectorStoreManager.vectorstore_add_documents :=
       fun documents => Ok (map (fun _ => py "id") documents) |}.

Definition fresh_store : VectorStoreManager.t :=
  {| VectorStoreManager.vs_id := 1;
     VectorStoreManager.client_delete_collection := Ok tt;
     VectorStoreManager.vectorstore_add_documents :=
       fun documents => Ok (map (fun _ => py "id") documents) |}.

Definition two_pages : PdfDoc :=
  pdf_of_pages [py "intro"; py "more"] [(1%Z, py "Лекция 1", 1%Z)].

Definition small_populator : DatabasePopulator.t :=
  {| DatabasePopulator.pdf_path := py "algobook.pdf";
     DatabasePopulator.vector_store := locked_store;
     DatabasePopulator.text_splitter := SmartTextSplitter.init 1000 200 None |}.

Definition small_run (clear_existing : bool)
  : res DatabasePopulator.populate_result
    * (DatabasePopulator.t * list DatabasePopulator.event) :=
  DatabasePopulator.populate one_chunk first_seen (fun _ => Some two_pages)
                             (Ok fresh_store) (fun documents => documents)
                             clear_existing (small_populator, []).

(** A position of the matcher in the subject: the character before it, its
    index, and the subject from it on. *)
Definition cursor : Type := option char * nat * str.

(** The position [n] characters further. *)
Definition consume (n : nat) (s : cursor) : cursor :=
  match s with
  | (prev, pos, rest) =>
    (prev_after prev (take n rest), (pos + n)%nat, drop n rest)
  end.

(** [steps ic re s s']: the regex [re] can match from the position [s] to
    the position [s'], whatever it captures on the way. *)
Fixpoint steps (ic : bool) (re : regex) (s s' : cursor) : Prop :=
  match re with
  | [] => s = s'
  | One a :: re' =>
    match snd s with
    | c :: _ => atom_matches ic a c = true /\ steps ic re' (consume 1 s) s'
    | [] => False
    end
  | Repeat a need _ :: re' =>
    exists n, (need <= n <= length (snd s))%nat
              /\ Forall (fun c => atom_matches ic a c = true) (take n (snd s))
              /\ steps ic re' (consume n s) s'
  | Open _ :: re' | Close _ :: re' => steps ic re' s s'
  | Bol :: re' => snd (fst s) = 0%nat /\ steps ic re' s s'
  | Boundary :: re' =>
    xorb (word_before (fst (fst s))) (word_after (snd s)) = true
    /\ steps ic re' s s'
  | Fail :: _ => False
  end.

(** A regex without its group marks. *)
Definition erase (re : regex) : regex :=
  List.filter (fun n => match n with Open _ | Close _ => false | _ => true end)
              re.

(** The part the two numeric patterns share, what each has next, and how
    each ends. *)
Definition numeric_prefix : regex :=
  [Bol; Open 1; Repeat Digit 1 true; Close 1; One (Lit 46%N);
   Open 2; Repeat Digit 1 true; Close 2].

Definition subsection_middle : regex :=
  [One (Lit 46%N); Open 3; Repeat Digit 1 true; Close 3;
   Repeat (Class false [CChar 46%N; CSpace]) 1 true;
   Open 4; Repeat Any 0 false; Close 4].

Definition section_middle : regex :=
  [Repeat (Class false [CChar 46%N; CSpace]) 1 true;
   Open 3; Repeat Any 0 false; Close 3].

Definition leaders_and_page (g : nat) : regex :=
  [Repeat Space 1 true; Repeat (Lit 46%N) 2 true; Repeat Space 0 true;
   Open g; Repeat Digit 1 true; Close g].

(** A document whose only page holds one line of the three-level shape. *)
Definition one_line_document : PdfDoc :=
  pdf_of_pages [py "1.1.1 Поиск .... 7"] [].

(** The length of the run of whitespace at the start of a string. *)
Fixpoint space_run (s : str) : nat :=
  match s with
  | c :: s' => if is_space c then S (space_run s') else 0
  | [] => 0
  end.

(** A string with every run of whitespace replaced by one space; [in_run]
    says that the character before was whitespace. *)
Fixpoint squeeze (in_run : bool) (s : str) : str :=
  match s with
  | [] => []
  | c :: s' =>
    if is_space c then
      if in_run then squeeze true s' else 32%N :: squeeze true s'
    else c :: squeeze false s'
  end.

(** A string in which no whitespace character follows another. *)
Fixpoint single_spaced (s : str) : Prop :=
  match s with
  | c :: s' =>
    (is_space c = true ->
     match s' with
     | d :: _ => is_space d = false
     | [] => True
     end)
    /\ single_spaced s'
  | [] => True
  end.

(** The characters of a string that are not whitespace, in order. *)
Definition visible (s : str) : str :=
  List.filter (fun c => negb (is_space c)) s.

(** How many times a character occurs in a string. *)
Definition occurrences (c : char) (s : str) : nat := count_occ N.eq_dec s c.

(** The four kinds of heading. *)
Definition heading_kinds : list str :=
  [py "lecture"; py "section"; py "subsection"; py "unknown"].

(** An outline whose pages do not decrease and lie in a document of [n]
    pages. *)
Definition pages_in_order (entries : list PDFParser.toc_entry) (n : nat)
  : Prop :=
  forall a b ea eb,
    (a <= b)%nat -> entries !! a = Some ea -> entries !! b = Some eb ->
    (snd ea <= snd eb)%Z /\ (snd eb <= Z.of_nat n)%Z.

Definition three_entries : list PDFParser.toc_entry :=
  [(1%Z, py "Лекция 1", 1%Z); (2%Z, py "1.1", 2%Z);
   (1%Z, py "Лекция 2", 4%Z)].

(** Sections whose levels fall from each one to the next, the first being
    below [current_level]. *)
Fixpoint descending_from (current_level : Z)
  (chain : list PDFParser.Section) : Prop :=
  match chain with
  | [] => True
  | s :: chain' =>
    (PDFParser.level s < current_level)%Z
    /\ descending_from (PDFParser.level s) chain'
  end.

(** A metadata value that the vector store accepts as it is. *)
Definition primitive (value : SmartTextSplitter.pyval) : Prop :=
  match value with
  | SmartTextSplitter.PList _ => False
  | _ => True
  end.

(** [x] occurs in [s] as a run of consecutive characters. *)
Definition substring (x s : str) : Prop := exists a b, s = a ++ x ++ b.

(** The pattern of [concept_patterns] for the asymptotic notation. *)
Definition asymptotic_pattern : str := py "\b(O\([^\)]+\))".

(** The stores whose collection a trace deletes, in order. *)
Definition stores_cleared (trace : list DatabasePopulator.event) : list nat :=
  flat_map (fun e => match e with
                     | DatabasePopulator.DeleteCollection store => [store]
                     | _ => []
                     end) trace.

(** A step that leaves the populator as it is and only logs, whether it
    returns or raises. *)
Definition logs_only {A : Type} (m : DatabasePopulator.M A) : Prop :=
  forall self trace, exists r logs,
    m (self, trace) = (r, (self, trace ++ logs)) /\ Forall is_log logs.

(** A store that refuses every batch. *)
Definition full_store : VectorStoreManager.t :=
  {| VectorStoreManager.vs_id := 2;
     VectorStoreManager.client_delete_collection := Ok tt;
     VectorStoreManager.vectorstore_add_documents :=
       fun _ => Raise (py "disk full") |}.

Definition populator_of (store : VectorStoreManager.t) : DatabasePopulator.t :=
  {| DatabasePopulator.pdf_path := py "algobook.pdf";
     DatabasePopulator.vector_store := store;
     DatabasePopulator.text_splitter := SmartTextSplitter.init 1000 200 None |}.

(** The entries ["total_sections"] and ["total_documents"] of a result. *)
Definition total_sections (r : DatabasePopulator.populate_result) : nat :=
  match r with
  | DatabasePopulator.Success n _ _ | DatabasePopulator.Error _ n _ => n
  end.

Definition total_documents (r : DatabasePopulator.populate_result) : nat :=
  match r with
  | DatabasePopulator.Success _ n _ | DatabasePopulator.Error _ _ n => n
  end.

(** The documents of one section of a run: those [split_section] builds
    with the ancestors that [_build_hierarchy] finds. *)
Definition documents_at
  (split_text : SmartTextSplitter.t -> str -> list str)
  (set_order : list str -> list str) (self : DatabasePopulator.t)
  (sections : list PDFParser.Section) (isec : nat * PDFParser.Section)
  (documents : list SmartTextSplitter.Document) : Prop :=
  exists hierarchy,
    DatabasePopulator._build_hierarchy sections (Z.of_nat (fst isec))
    = Ok hierarchy
    /\ documents
       = SmartTextSplitter.split_section
           split_text set_order (DatabasePopulator.text_splitter self)
           (snd isec) (Some hierarchy).

(** An entry of the outline and a section that carry the same heading. *)
Definition same_heading (entry : PDFParser.OutlineEntry)
  (section : PDFParser.Section) : Prop :=
  PDFParser.oe_level entry = PDFParser.level section
  /\ PDFParser.oe_title entry = PDFParser.title section
  /\ PDFParser.oe_page entry = PDFParser.start_page section
  /\ PDFParser.oe_type entry = PDFParser.type section.

(** The command line [--pdf algobook.pdf --clear]. *)
Definition clear_args : PopulateDb.args :=
  {| PopulateDb.arg_pdf := py "algobook.pdf";
     PopulateDb.arg_clear := true;
     PopulateDb.arg_chunk_size := 1000;
     PopulateDb.arg_chunk_overlap := 200 |}.

(** * Properties of the pipeline *)

(** ** Loops in the exception monad *)

Lemma for_each_ok {A B : Type} (f : A -> res B) (l : list A) :
  (forall a, In a l -> exists b, f a = Ok b) ->
  exists bs, for_each f l = Ok bs /\ Forall2 (fun a b => f a = Ok b) l bs.
Proof.
  induction l as [|a l IH]; intros Hf; simpl.
  - exists []. split; [reflexivity | constructor].
  - destruct (Hf a) as [b Hb]; [now left |].
    destruct IH as [bs [Hbs Hall]]; [intros; apply Hf; now right |].
    exists (b :: bs). rewrite Hb, Hbs. simpl. split; [reflexivity |].
    now constructor.
Qed.

Lemma for_each_inv {A B : Type} (f : A -> res B) (l : list A) (bs : list B) :
  for_each f l = Ok bs -> Forall2 (fun a b => f a = Ok b) l bs.
Proof.
  revert bs. induction l as [|a l IH]; intros bs; simpl.
  - intros [= <-]. constructor.
  - destruct (f a) as [b|] eqn:Hb; simpl; [|discriminate].
    destruct (for_each f l) as [bs'|] eqn:Hbs; simpl; [|discriminate].
    intros [= <-]. constructor; [assumption | now apply IH].
Qed.

(** ** The matcher *)

Lemma prev_after_cons (prev : option char) (c : char) (l : str) :
  prev_after prev (c :: l) = prev_after (Some c) l.
Proof.
  unfold prev_after. destruct l as [|d l]; [reflexivity |].
  rewrite last_cons. destruct (last (d :: l)) eqn:E; [reflexivity |].
  apply last_None in E. discriminate.
Qed.

(** A repetition that matches took [n] characters that its atom accepts, at
    least as many as it needs, and then its continuation matched. *)
Lemma rep_inv (ic : bool) (a : atom) (g : bool) (next : step) :
  forall (rest : str) (need : nat) (prev : option char) (pos : nat) r,
    rep ic a g next need prev pos rest = Some r ->
    exists n, (need <= n <= length rest)%nat
      /\ Forall (fun c => atom_matches ic a c = true) (take n rest)
      /\ next (prev_after prev (take n rest)) (pos + n)%nat (drop n rest)
         = Some r.
Proof.
  induction rest as [|c rest IH]; intros need prev pos r H.
  - destruct need as [|need]; simpl in H; [|discriminate].
    exists 0%nat. rewrite Nat.add_0_r.
    split; [simpl; lia |]. split; [constructor |].
    change (next prev pos [] = Some r).
    destruct g; [exact H |].
    destruct (next prev pos []); [exact H | discriminate].
  - assert (Hmore : forall need', rep ic a g next need' (Some c) (S pos) rest
                                  = Some r ->
                    atom_matches ic a c = true ->
                    exists n, (S need' <= n <= length (c :: rest))%nat
      /\ Forall (fun c => atom_matches ic a c = true) (take n (c :: rest))
      /\ next (prev_after prev (take n (c :: rest))) (pos + n)%nat
              (drop n (c :: rest)) = Some r).
    { intros need' H' Hc. destruct (IH _ _ _ _ H') as (n & Hn & Hall & Hnext).
      exists (S n). simpl. split; [lia |]. split; [now constructor |].
      rewrite prev_after_cons. replace (pos + S n)%nat with (S pos + n)%nat by lia.
      exact Hnext. }
    destruct need as [|need]; simpl in H.
    + assert (Hstop : next prev pos (c :: rest) = Some r ->
                      exists n, (0 <= n <= length (c :: rest))%nat
        /\ Forall (fun c => atom_matches ic a c = true) (take n (c :: rest))
        /\ next (prev_after prev (take n (c :: rest))) (pos + n)%nat
                (drop n (c :: rest)) = Some r).
      { intros Hs. exists 0%nat. rewrite Nat.add_0_r. simpl.
        split; [lia |]. split; [constructor | exact Hs]. }
      destruct g.
      * destruct (atom_matches ic a c) eqn:Hc.
        -- destruct (rep ic a true next 0 (Some c) (S pos) rest) eqn:Hr.
           ++ inversion H; subst.
              destruct (Hmore 0%nat Hr eq_refl) as (n & Hn & Hrest).
              exists n. split; [lia | exact Hrest].
           ++ now apply Hstop.
        -- now apply Hstop.
      * destruct (next prev pos (c :: rest)) eqn:Hs.
        -- inversion H; subst. now apply Hstop.
        -- destruct (atom_matches ic a c) eqn:Hc; [|discriminate].
           destruct (Hmore 0%nat H eq_refl) as (n & Hn & Hrest).
           exists n. split; [lia | exact Hrest].
    + destruct (atom_matches ic a c) eqn:Hc; [|discriminate].
      now apply Hmore.
Qed.

(** A greedy repetition whose continuation cannot fail does not fail once
    it has what it needs. *)
Lemma rep_greedy_total (ic : bool) (a : atom) (next : step) :
  (forall prev pos rest, next prev pos rest <> None) ->
  forall rest prev pos, rep ic a true next 0 prev pos rest <> None.
Proof.
  intros Hnext. induction rest as [|c rest IH]; intros prev pos; simpl.
  - apply Hnext.
  - destruct (atom_matches ic a c).
    + destruct (rep ic a true next 0 (Some c) (S pos) rest) eqn:E;
        [discriminate | now apply IH in E].
    + apply Hnext.
Qed.

(** ** Substitution *)

(** What [sub] leaves: characters of the replacement, and characters at
    which the pattern does not match. *)
Lemma sub_from_Forall (P : char -> Prop) (re : regex) (repl : str) :
  Forall P repl ->
  (forall prev pos c rest,
      exec false re no_captures prev pos (c :: rest) = None -> P c) ->
  (forall prev pos rest e st,
      exec false re no_captures prev pos rest = Some (e, st) ->
      (pos < e)%nat) ->
  forall rest prev pos skip, Forall P (sub_from re repl prev pos rest skip).
Proof.
  intros Hrepl Hfail Hprog.
  induction rest as [|c rest IH]; intros prev pos skip.
  - destruct skip; simpl; [|constructor].
    destruct (exec false re no_captures prev pos []) as [[e st]|];
      [|constructor].
    rewrite app_nil_r. exact Hrepl.
  - destruct skip as [|skip]; simpl; [|apply IH].
    destruct (exec false re no_captures prev pos (c :: rest))
      as [[e st]|] eqn:E.
    + apply Forall_app. split; [exact Hrepl |].
      apply Hprog in E. destruct (e - pos)%nat eqn:D; [lia | apply IH].
    + constructor; [now apply Hfail in E | apply IH].
Qed.

(** A subject in which the pattern matches nowhere is left as it is. *)
Lemma sub_from_id (Q : char -> Prop) (re : regex) (repl : str) :
  (forall prev pos rest,
      Forall Q rest -> exec false re no_captures prev pos rest = None) ->
  forall rest prev pos,
    Forall Q rest -> sub_from re repl prev pos rest 0 = rest.
Proof.
  intros Hnone. induction rest as [|c rest IH]; intros prev pos HQ; simpl.
  - now rewrite Hnone.
  - rewrite (Hnone _ _ _ HQ). f_equal. apply IH. now inversion HQ.
Qed.

Lemma exec_newline_first (re : regex) (prev : option char) (pos : nat)
  (rest : str) :
  Forall (fun c => c <> newline) rest ->
  exec false (One (Lit newline) :: re) no_captures prev pos rest = None.
Proof.
  intros H. destruct rest as [|c rest]; simpl; [reflexivity |].
  inversion H as [|? ? Hc _]; subst. unfold lit_matches.
  destruct (N.eqb_spec c newline); [contradiction | reflexivity].
Qed.

Lemma lstrip_Forall (P : char -> Prop) (s : str) :
  Forall P s -> Forall P (lstrip s).
Proof.
  induction 1 as [|c s Hc Hs IH]; simpl; [constructor |].
  destruct (is_space c); [exact IH | now constructor].
Qed.

Lemma strip_Forall (P : char -> Prop) (s : str) :
  Forall P s -> Forall P (strip s).
Proof.
  intros H. unfold strip, rstrip.
  apply List.Forall_rev, lstrip_Forall, List.Forall_rev, lstrip_Forall, H.
Qed.

(** The first substitution of [_clean_text] leaves no whitespace but the
    plain space it puts in. *)
Lemma collapse_whitespace (text : str) :
  Forall (fun c => is_space c = true -> c = 32%N)
         (sub (py "\s+") (py " ") text).
Proof.
  unfold sub.
  replace (compile (py "\s+")) with [Repeat Space 1 true]
    by (vm_compute; reflexivity).
  apply sub_from_Forall.
  - repeat constructor.
  - intros prev pos c rest H Hc. exfalso. simpl in H. rewrite Hc in H.
    revert H. apply rep_greedy_total. intros; discriminate.
  - intros prev pos rest e st H. simpl in H.
    apply rep_inv in H as (n & Hn & _ & H). simpl in H.
    inversion H; subst. lia.
Qed.

Lemma collapsed_has_no_newline (text : str) :
  Forall (fun c => c <> newline) (sub (py "\s+") (py " ") text).
Proof.
  eapply Forall_impl; [apply collapse_whitespace |].
  intros c Hc ->. specialize (Hc eq_refl). discriminate.
Qed.

Lemma sub_newline_first_id (pattern repl s : str) (re : regex) :
  compile pattern = One (Lit newline) :: re ->
  Forall (fun c => c <> newline) s ->
  sub pattern repl s = s.
Proof.
  intros Hre Hs. unfold sub. rewrite Hre.
  apply (sub_from_id (fun c => c <> newline)); [|exact Hs].
  intros. now apply exec_newline_first.
Qed.

(** ** Cleaning the text of a page *)

Lemma rep_spaces (next : step) (st : captures) :
  (forall prev pos rest, next prev pos rest = Some (pos, st)) ->
  forall (rest : str) (prev : option char) (pos : nat),
    rep false Space true next 0 prev pos rest
    = Some ((pos + space_run rest)%nat, st).
Proof.
  intros Hnext. induction rest as [|c rest IH]; intros prev pos;
    cbn [rep space_run atom_matches].
  - now rewrite Hnext, Nat.add_0_r.
  - destruct (is_space c).
    + rewrite IH. now replace (S pos + space_run rest)%nat
        with (pos + S (space_run rest))%nat by lia.
    + now rewrite Hnext, Nat.add_0_r.
Qed.

(** [\s+] matches at a position the whole run of whitespace that starts
    there, when there is one. *)
Lemma exec_spaces (prev : option char) (pos : nat) (rest : str) :
  exec false [Repeat Space 1 true] no_captures prev pos rest
  = match space_run rest with
    | O => None
    | S k => Some ((pos + S k)%nat, no_captures)
    end.
Proof.
  change (exec false [Repeat Space 1 true] no_captures prev pos rest)
    with (rep false Space true (exec false [] no_captures) 1 prev pos rest).
  destruct rest as [|c rest]; cbn [rep space_run atom_matches];
    [reflexivity |].
  destruct (is_space c); [|reflexivity].
  rewrite (rep_spaces _ no_captures) by reflexivity.
  now replace (S pos + space_run rest)%nat
    with (pos + S (space_run rest))%nat by lia.
Qed.

Lemma sub_spaces_squeeze (rest : str) :
  (forall prev pos,
      sub_from [Repeat Space 1 true] [32%N] prev pos rest 0
      = squeeze false rest)
  /\ (forall prev pos,
         sub_from [Repeat Space 1 true] [32%N] prev pos rest (space_run rest)
         = squeeze true rest).
Proof.
  induction rest as [|c rest [IH0 IHk]].
  - split; intros prev pos; reflexivity.
  - assert (H0 : forall prev pos,
               sub_from [Repeat Space 1 true] [32%N] prev pos (c :: rest) 0
               = squeeze false (c :: rest)).
    { intros prev pos. cbn [sub_from]. rewrite exec_spaces.
      cbn [space_run squeeze]. destruct (is_space c).
      - replace (pos + S (space_run rest) - pos)%nat
          with (S (space_run rest)) by lia.
        simpl. now rewrite IHk.
      - now rewrite IH0. }
    split; [exact H0 |]. intros prev pos.
    destruct (is_space c) eqn:Hc.
    + cbn [space_run squeeze]. rewrite Hc. cbn [sub_from]. apply IHk.
    + specialize (H0 prev pos). cbn [space_run squeeze] in H0 |- *.
      rewrite Hc in H0 |- *. exact H0.
Qed.

Lemma sub_whitespace_squeeze (text : str) :
  sub (py "\s+") (py " ") text = squeeze false text.
Proof.
  unfold sub.
  replace (compile (py "\s+")) with [Repeat Space 1 true]
    by (vm_compute; reflexivity).
  apply (sub_spaces_squeeze text).
Qed.

Lemma compile_page_number :
  compile (py "\n\s*\d+\s*\n")
  = [One (Lit newline); Repeat Space 0 true; Repeat Digit 1 true;
     Repeat Space 0 true; One (Lit newline)].
Proof. vm_compute. reflexivity. Qed.

Lemma compile_blank_lines :
  compile (py "\n\s*\n")
  = [One (Lit newline); Repeat Space 0 true; One (Lit newline)].
Proof. vm_compute. reflexivity. Qed.

(** C10. For every input string, [_clean_text] returns a string with no
    newline character: the first substitution replaces every run of
    whitespace, newlines included, by one space (it computes [squeeze]), so
    that whatever whitespace is left is a plain space; the two substitutions
    that follow, whose patterns start with a newline, leave that text as it
    is; the result is the stripped text of the first substitution. *)
Theorem clean_text_no_newline (text : str) :
  let collapsed := sub (py "\s+") (py " ") text in
  collapsed = squeeze false text
  /\ Forall (fun c => is_space c = true -> c = 32%N) collapsed
  /\ sub (py "\n\s*\d+\s*\n") [newline] collapsed = collapsed
  /\ sub (py "\n\s*\n") [newline; newline] collapsed = collapsed
  /\ PDFParser._clean_text text = strip collapsed
  /\ ~ In newline (PDFParser._clean_text text).
Proof.
  intros collapsed.
  assert (Hnl : Forall (fun c => c <> newline) collapsed)
    by apply collapsed_has_no_newline.
  assert (H2 : sub (py "\n\s*\d+\s*\n") [newline] collapsed = collapsed).
  { eapply sub_newline_first_id; [apply compile_page_number | exact Hnl]. }
  assert (H3 : sub (py "\n\s*\n") [newline; newline] collapsed = collapsed).
  { eapply sub_newline_first_id; [apply compile_blank_lines | exact Hnl]. }
  assert (H4 : PDFParser._clean_text text = strip collapsed).
  { unfold PDFParser._clean_text. fold collapsed. rewrite H2, H3.
    reflexivity. }
  split; [apply sub_whitespace_squeeze |].
  split; [apply collapse_whitespace |].
  split; [exact H2 |]. split; [exact H3 |]. split; [exact H4 |].
  rewrite H4. intros Hin.
  apply strip_Forall in Hnl. rewrite List.Forall_forall in Hnl.
  now apply (Hnl newline).
Qed.

(** ** Resolving the hierarchy *)

Lemma getitem_nat {A : Type} (l : list A) (i : nat) (a : A) :
  l !! i = Some a -> getitem l (Z.of_nat i) = Ok a.
Proof.
  intros H. unfold getitem. cbv zeta.
  assert (E : (Z.of_nat i <? 0)%Z = false) by (apply Z.ltb_ge; lia).
  rewrite !E, Nat2Z.id, H. reflexivity.
Qed.

Lemma walk_back_root (before : list PDFParser.Section) (acc : list str) :
  (forall x, In x before -> (1 <= PDFParser.level x)%Z) ->
  DatabasePopulator.walk_back before 1 acc = acc.
Proof.
  induction before as [|s before IH]; intros Hlv; simpl; [reflexivity |].
  destruct (Z.ltb_spec (PDFParser.level s) 1) as [Hlt|_].
  - specialize (Hlv s (or_introl eq_refl)). lia.
  - apply IH. intros x Hx. apply Hlv. now right.
Qed.

Lemma walk_back_resolve (before : list PDFParser.Section) :
  (forall x, In x before -> (1 <= PDFParser.level x)%Z) ->
  forall (current_level : Z) (acc : list str),
    DatabasePopulator.walk_back before current_level acc
    = Spec.resolve before current_level acc.
Proof.
  induction before as [|s before IH]; intros Hlv current_level acc.
  - simpl. now destruct (current_level =? 1)%Z.
  - assert (Hlv' : forall x, In x before -> (1 <= PDFParser.level x)%Z)
      by (intros x Hx; apply Hlv; now right).
    destruct (Z.eqb_spec current_level 1) as [->|Hne].
    + rewrite walk_back_root by exact Hlv. reflexivity.
    + simpl. destruct (Z.eqb_spec current_level 1); [contradiction |].
      destruct (PDFParser.level s <? current_level)%Z.
      * destruct (Z.eqb_spec (PDFParser.level s) 1) as [E|E].
        -- rewrite E. destruct before; reflexivity.
        -- now apply IH.
      * now apply IH.
Qed.

(** C6. Where every level is at least 1, [_build_hierarchy] returns, for
    the section at [index], what the walk of the specification gives: from
    [sections[index-1]] down to [sections[0]], the title of each section
    whose level is below the running level is prepended and its level
    becomes the running level, until that level is 1. On the nested outline
    [Лекция 1] (level 1), [1.1] (level 2), [1.1.1] (level 3) the ancestors
    of the level-3 section are [Лекция 1; 1.1] and those of the level-1
    section are none. *)
Theorem build_hierarchy_resolves_ancestors :
  (forall (sections : list PDFParser.Section) (index : nat),
      (forall x, In x sections -> (1 <= PDFParser.level x)%Z) ->
      (index < length sections)%nat ->
      DatabasePopulator._build_hierarchy sections (Z.of_nat index)
      = Ok (Spec.resolveAncestors sections index))
  /\ DatabasePopulator._build_hierarchy nested_sections 2
     = Ok [py "Лекция 1"; py "1.1"]
  /\ DatabasePopulator._build_hierarchy nested_sections 0 = Ok [].
Proof.
  split; [|split; vm_compute; reflexivity].
  intros sections index Hlv Hlt.
  destruct (lookup_lt_is_Some_2 sections index Hlt) as [s Hs].
  unfold DatabasePopulator._build_hierarchy, Spec.resolveAncestors.
  rewrite (getitem_nat _ _ _ Hs), Hs. simpl. rewrite Nat2Z.id.
  f_equal. apply walk_back_resolve.
  intros x Hx. apply Hlv. apply List.in_rev in Hx.
  rewrite <- (take_drop index sections). apply List.in_or_app. now left.
Qed.

Lemma build_hierarchy_resolves_ancestors_witness :
  DatabasePopulator._build_hierarchy nested_sections (Z.of_nat 2)
  = Ok (Spec.resolveAncestors nested_sections 2).
Proof.
  apply (proj1 build_hierarchy_resolves_ancestors nested_sections 2%nat).
  - intros x Hx. simpl in Hx.
    destruct Hx as [<-|[<-|[<-|[]]]]; simpl; lia.
  - simpl. lia.
Defined.

(** ** The captures of a match *)

(** A match of [pre ++ tail] runs [tail] from some later position. *)
Lemma exec_split (ic : bool) (tail : regex) :
  forall (pre : regex) (st : captures) (prev : option char) (pos : nat)
         (rest : str) r,
    exec ic (pre ++ tail) st prev pos rest = Some r ->
    exists st' prev' n,
      (n <= length rest)%nat
      /\ exec ic tail st' prev' (pos + n)%nat (drop n rest) = Some r.
Proof.
  induction pre as [|nd pre IH]; intros st prev pos rest r H.
  - exists st, prev, 0%nat. rewrite Nat.add_0_r.
    split; [lia | exact H].
  - destruct nd as [a|a mn g|g|g| | |]; simpl in H.
    + destruct rest as [|c rest]; [discriminate |].
      destruct (atom_matches ic a c); [|discriminate].
      apply IH in H as (st' & prev' & n & Hn & H).
      exists st', prev', (S n). simpl. split; [lia |].
      now replace (pos + S n)%nat with (S pos + n)%nat by lia.
    + apply rep_inv in H as (n1 & Hn1 & _ & H).
      apply IH in H as (st' & prev' & n2 & Hn2 & H).
      rewrite length_drop in Hn2.
      exists st', prev', (n1 + n2)%nat. split; [lia |].
      rewrite drop_drop in H.
      now replace (pos + (n1 + n2))%nat with (pos + n1 + n2)%nat by lia.
    + now apply IH in H.
    + now apply IH in H.
    + destruct pos; [now apply IH in H | discriminate].
    + destruct (xorb (word_before prev) (word_after rest)); [|discriminate].
      now apply IH in H.
    + discriminate.
Qed.

(** A pattern that ends with a group [(\d+)] captures in it a non-empty run
    of digits. *)
Lemma last_group_digits (ic : bool) (pre : regex) (g : nat) (s : str)
  (e : nat) (st : captures) :
  exec ic (pre ++ [Open g; Repeat Digit 1 true; Close g]) no_captures None 0 s
  = Some (e, st) ->
  exists digits,
    group {| subject := s; m_start := 0; m_end := e; spans := closed st |} g
    = digits
    /\ digits <> []
    /\ Forall (fun c => is_digit c = true) digits
    /\ (length digits <= length s)%nat.
Proof.
  intros H. apply exec_split in H as (st' & prev' & p & Hp & H).
  simpl in H. apply rep_inv in H as (n & Hn & Hall & H).
  simpl in H. unfold close_group, open_group, assoc in H. simpl in H.
  rewrite Nat.eqb_refl in H. simpl in H. inversion H; subst e st; clear H.
  unfold group, assoc. simpl. rewrite Nat.eqb_refl. simpl.
  replace (p + n - p)%nat with n by lia.
  exists (take n (drop p s)). split; [reflexivity |].
  split; [|split; [exact Hall |]].
  - intros E. apply (f_equal length) in E. rewrite length_take in E.
    simpl in E. lia.
  - rewrite length_take, length_drop. lia.
Qed.

Lemma int_digits_ok (digits : str) :
  Forall (fun c => is_digit c = true) digits ->
  forall acc, exists z, int_digits digits acc = Ok z.
Proof.
  induction 1 as [|c digits Hc _ IH]; intros acc; simpl.
  - now exists acc.
  - unfold is_digit in Hc. destruct (digit_value c); [apply IH | discriminate].
Qed.

Lemma digit_run_le (s : str) : (digit_run s <= length s)%nat.
Proof.
  induction s as [|c s IH]; simpl; [lia |].
  destruct (digit_value c); lia.
Qed.

(** [int] reads a run of at most 4300 digits. *)
Lemma int_ok (digits : str) :
  digits <> [] -> Forall (fun c => is_digit c = true) digits ->
  (length digits <= int_max_str_digits)%nat ->
  exists z, int digits = Ok z.
Proof.
  intros Hne H Hlen. destruct digits as [|c digits]; [contradiction |].
  unfold int.
  destruct (Nat.ltb_spec int_max_str_digits (digit_run (c :: digits)))
    as [Hlt|_].
  - pose proof (digit_run_le (c :: digits)). lia.
  - now apply int_digits_ok.
Qed.

(** [int] refuses a run of more than 4300 digits. *)
Lemma int_limit (digits : str) :
  Forall (fun c => is_digit c = true) digits ->
  (int_max_str_digits < length digits)%nat ->
  exists e, int digits = Raise e.
Proof.
  intros Hall Hlen.
  assert (Hrun : digit_run digits = length digits).
  { clear Hlen. induction Hall as [|c digits Hc _ IH]; [reflexivity |].
    simpl. unfold is_digit in Hc.
    destruct (digit_value c); [now rewrite IH | discriminate]. }
  destruct digits as [|c digits]; [simpl in Hlen; lia |].
  unfold int. rewrite Hrun.
  destruct (Nat.ltb_spec int_max_str_digits (length (c :: digits)));
    [eauto | lia].
Qed.

(** ** Reading the outline from the pages *)

Lemma compile_lecture_pattern :
  compile PDFParser.lecture_pattern
  = [Bol; One (Lit 1051%N); One (Lit 1077%N); One (Lit 1082%N);
     One (Lit 1094%N); One (Lit 1080%N); One (Lit 1103%N);
     Repeat Space 1 true; Open 1; Repeat Digit 1 true; Close 1;
     Repeat (Class false [CChar 46%N; CSpace]) 1 true;
     Open 2; Repeat Any 0 false; Close 2;
     Repeat Space 1 true; Repeat (Lit 46%N) 2 true; Repeat Space 0 true]
    ++ [Open 3; Repeat Digit 1 true; Close 3].
Proof. vm_compute. reflexivity. Qed.

Lemma compile_section_pattern :
  compile PDFParser.section_pattern
  = [Bol; Open 1; Repeat Digit 1 true; Close 1; One (Lit 46%N);
     Open 2; Repeat Digit 1 true; Close 2;
     Repeat (Class false [CChar 46%N; CSpace]) 1 true;
     Open 3; Repeat Any 0 false; Close 3;
     Repeat Space 1 true; Repeat (Lit 46%N) 2 true; Repeat Space 0 true]
    ++ [Open 4; Repeat Digit 1 true; Close 4].
Proof. vm_compute. reflexivity. Qed.

Lemma compile_subsection_pattern :
  compile PDFParser.subsection_pattern
  = [Bol; Open 1; Repeat Digit 1 true; Close 1; One (Lit 46%N);
     Open 2; Repeat Digit 1 true; Close 2; One (Lit 46%N);
     Open 3; Repeat Digit 1 true; Close 3;
     Repeat (Class false [CChar 46%N; CSpace]) 1 true;
     Open 4; Repeat Any 0 false; Close 4;
     Repeat Space 1 true; Repeat (Lit 46%N) 2 true; Repeat Space 0 true]
    ++ [Open 5; Repeat Digit 1 true; Close 5].
Proof. vm_compute. reflexivity. Qed.

Lemma match_page_number (pattern : str) (ic : bool) (pre : regex) (g : nat)
  (line : str) (m : Match) :
  compile pattern = pre ++ [Open g; Repeat Digit 1 true; Close g] ->
  (length line <= int_max_str_digits)%nat ->
  re_match pattern ic line = Some m ->
  exists page, int (group m g) = Ok page.
Proof.
  intros Hre Hlen H. unfold re_match in H. rewrite Hre in H.
  destruct (exec ic _ no_captures None 0 line) as [[e st]|] eqn:E;
    [|discriminate].
  inversion H; subst m; clear H.
  apply last_group_digits in E as (digits & -> & Hne & Hall & Hle).
  apply int_ok; [exact Hne | exact Hall | lia].
Qed.

(** A line of at most 4300 characters does not make the scan of the outline
    pages raise. *)
Lemma scan_line_ok (line : str) :
  (length line <= int_max_str_digits)%nat ->
  exists r, PDFParser.scan_line line = Ok r.
Proof.
  intros Hlen. unfold PDFParser.scan_line.
  destruct (re_match PDFParser.lecture_pattern true line) as [m|] eqn:E1.
  { destruct (match_page_number _ _ _ _ _ _ compile_lecture_pattern Hlen E1)
      as [page ->]. simpl. eauto. }
  destruct (re_match PDFParser.section_pattern false line) as [m|] eqn:E2.
  { destruct (match_page_number _ _ _ _ _ _ compile_section_pattern Hlen E2)
      as [page ->]. simpl. eauto. }
  destruct (re_match PDFParser.subsection_pattern false line) as [m|] eqn:E3.
  { destruct (match_page_number _ _ _ _ _ _ compile_subsection_pattern
                                Hlen E3)
      as [page ->]. simpl. eauto. }
  eauto.
Qed.

(** ** Slicing the document into sections *)

Lemma pdf_of_pages_readable (pages : list str)
  (outline : list PDFParser.toc_entry) :
  pages <> [] -> readable (pdf_of_pages pages outline).
Proof.
  intros Hne i Hi. simpl in *.
  assert (Hlen : (0 < Z.of_nat (length pages))%Z).
  { destruct pages; [contradiction | simpl; lia]. }
  pose proof (Z.mod_pos_bound i _ Hlen) as Hm.
  destruct (lookup_lt_is_Some_2 pages
              (Z.to_nat (i mod Z.of_nat (length pages)))) as [t Ht]; [lia |].
  rewrite Ht. destruct (Z.ltb_spec i (Z.of_nat (length pages))); [|lia].
  eauto.
Qed.

Lemma range_bound (a b x : Z) : In x (range a b) -> (x < b)%Z.
Proof.
  unfold range. rewrite List.in_map_iff. intros (k & <- & Hk).
  apply List.in_seq in Hk. lia.
Qed.

Lemma range_empty (a b : Z) : (b <= a)%Z -> range a b = [].
Proof.
  intros H. unfold range. now replace (Z.to_nat (b - a)) with 0%nat by lia.
Qed.

Lemma extract_text_ok (d : PdfDoc) (start_page end_page : Z) :
  readable d ->
  exists text, PDFParser._extract_text_from_pages d start_page end_page
               = Ok text.
Proof.
  intros Hd. unfold PDFParser._extract_text_from_pages.
  edestruct (for_each_ok
               (fun page_num => text <- page_text d page_num ;;
                                Ok (PDFParser._clean_text text)))
    as (parts & -> & _).
  - intros i Hi. apply range_bound in Hi.
    destruct (Hd i) as [t ->]; [lia |]. simpl. eauto.
  - simpl. eauto.
Qed.

(** The manual extraction returns when the first pages can be read and
    hold no line of more than 4300 characters. *)
Lemma extract_toc_manually_ok (d : PdfDoc) :
  short_lines d -> exists l, PDFParser._extract_toc_manually d = Ok l.
Proof.
  intros Hd. unfold PDFParser._extract_toc_manually. cbv zeta.
  edestruct (for_each_ok (PDFParser.scan_page d)) as (per_page & -> & _).
  - intros n Hn. apply List.in_seq in Hn. unfold PDFParser.scan_page.
    destruct (Hd n) as (t & -> & Hlines); [lia |]. cbn [bind].
    edestruct (for_each_ok PDFParser.scan_line) as (found & -> & _).
    + intros line Hline. apply scan_line_ok.
      rewrite List.Forall_forall in Hlines. now apply Hlines.
    + cbn [bind]. eauto.
  - cbn [bind]. eauto.
Qed.

(** What [extract_toc] returns, when it returns: the parser on the same
    document, with an outline of as many entries as its [toc]. *)
Lemma extract_toc_ok (p : PDFParser.t)
  (r : PDFParser.t * list PDFParser.OutlineEntry) :
  PDFParser.extract_toc p = Ok r ->
  PDFParser.doc (fst r) = PDFParser.doc p
  /\ length (snd r) = length (PDFParser.toc (fst r)).
Proof.
  unfold PDFParser.extract_toc. cbv zeta.
  destruct (match get_toc (PDFParser.doc p) with
            | [] => PDFParser._extract_toc_manually (PDFParser.doc p)
            | _ :: _ => Ok (get_toc (PDFParser.doc p))
            end) as [new_toc|]; cbn [bind]; [|discriminate].
  intros [= <-]. cbn [fst snd PDFParser.doc PDFParser.toc].
  split; [reflexivity | apply length_map].
Qed.

(** An outline that the file embeds is obtained without a page being
    read. *)
Lemma extract_toc_embedded (p : PDFParser.t) :
  get_toc (PDFParser.doc p) <> [] -> exists r, PDFParser.extract_toc p = Ok r.
Proof.
  intros Hne. unfold PDFParser.extract_toc. cbv zeta.
  destruct (get_toc (PDFParser.doc p)); [contradiction |].
  cbn [bind]. eauto.
Qed.

(** [extract_toc] looks at the document only. *)
Lemma extract_toc_doc (p q : PDFParser.t) :
  PDFParser.doc p = PDFParser.doc q ->
  PDFParser.extract_toc p = PDFParser.extract_toc q.
Proof. intros E. unfold PDFParser.extract_toc. now rewrite E. Qed.

Lemma enumerate_lookup_from {A : Type} (l : list A) :
  forall (start i : nat),
    combine (seq start (length l)) l !! i
    = match l !! i with
      | Some a => Some ((start + i)%nat, a)
      | None => None
      end.
Proof.
  induction l as [|a l IH]; intros start i; simpl; [reflexivity |].
  destruct i as [|i]; simpl.
  - now rewrite Nat.add_0_r.
  - rewrite IH. destruct (l !! i); [|reflexivity].
    now replace (S start + i)%nat with (start + S i)%nat by lia.
Qed.

Lemma enumerate_lookup {A : Type} (l : list A) (i : nat) (a : A) :
  l !! i = Some a -> enumerate l !! i = Some (i, a).
Proof.
  intros H. unfold enumerate. now rewrite enumerate_lookup_from, H.
Qed.

Lemma enumerate_length {A : Type} (l : list A) :
  length (enumerate l) = length l.
Proof.
  unfold enumerate. rewrite length_combine, length_seq. lia.
Qed.

(** Over a readable document the slicer returns, with one section for each
    entry of the outline it works on, in the order of the outline. *)
Lemma extract_content_ok (p : PDFParser.t) :
  readable (PDFParser.doc p) ->
  outline_obtained p ->
  exists p' sections,
    PDFParser.extract_content_by_toc p = Ok (p', sections)
    /\ PDFParser.doc p' = PDFParser.doc p
    /\ (PDFParser.toc p <> [] -> PDFParser.toc p' = PDFParser.toc p)
    /\ Forall2 (fun ie s =>
                  PDFParser.section_at (PDFParser.doc p') (PDFParser.toc p')
                                       ie = Ok s)
               (enumerate (PDFParser.toc p')) sections.
Proof.
  intros Hd Ho. unfold PDFParser.extract_content_by_toc.
  assert (Hp : exists p',
             match PDFParser.toc p with
             | [] => r <- PDFParser.extract_toc p ;; Ok (fst r)
             | _ :: _ => Ok p
             end = Ok p'
             /\ PDFParser.doc p' = PDFParser.doc p
             /\ (PDFParser.toc p <> [] -> PDFParser.toc p' = PDFParser.toc p)).
  { destruct (PDFParser.toc p) eqn:Et.
    - destruct Ho as [Ho|[r Er]]; [now contradiction Ho |].
      destruct (extract_toc_ok p r Er) as [Hdoc _]. rewrite Er.
      simpl. exists (fst r). split; [reflexivity |].
      split; [exact Hdoc | intros H; now contradiction H].
    - exists p. split; [reflexivity |]. split; [reflexivity |].
      intros _. exact Et. }
  destruct Hp as (p' & -> & Hdoc & Htoc). simpl.
  edestruct (for_each_ok
               (PDFParser.section_at (PDFParser.doc p') (PDFParser.toc p')))
    as (secs & -> & Hall).
  - intros [i [[lv ti] pg]] _. unfold PDFParser.section_at.
    rewrite Hdoc.
    edestruct (extract_text_ok (PDFParser.doc p)) as [text ->];
      [exact Hd |].
    simpl. eauto.
  - simpl. exists p', secs. repeat split; assumption.
Qed.

Lemma section_at_fields (d : PdfDoc) (entries : list PDFParser.toc_entry)
  (i : nat) (lv : Z) (ti : str) (pg : Z) (s : PDFParser.Section) :
  PDFParser.section_at d entries (i, (lv, ti, pg)) = Ok s ->
  PDFParser.level s = lv /\ PDFParser.title s = strip ti
  /\ PDFParser.start_page s = pg
  /\ PDFParser.end_page s = PDFParser.find_end_page d entries i lv
  /\ PDFParser._extract_text_from_pages
       d (pg - 1) (PDFParser.find_end_page d entries i lv)
     = Ok (PDFParser.content s).
Proof.
  unfold PDFParser.section_at.
  destruct (PDFParser._extract_text_from_pages _ _ _) as [text|];
    simpl; [|discriminate].
  intros [= <-]. simpl. repeat split.
Qed.

(** C8. Over a readable document, and for a parser that has its outline
    ([self.toc] is set, or it is empty and [extract_toc] returns), the
    slicer returns exactly one section for each entry of the outline, in
    the order of the outline: the section at position [i] carries the
    level, the stripped title and the page of the entry at position [i],
    whatever its content. The outline is [self.toc], or what [extract_toc]
    finds when [self.toc] is empty. *)
Theorem one_section_per_entry (p : PDFParser.t) :
  readable (PDFParser.doc p) ->
  outline_obtained p ->
  exists p' sections,
    PDFParser.extract_content_by_toc p = Ok (p', sections)
    /\ (PDFParser.toc p <> [] -> PDFParser.toc p' = PDFParser.toc p)
    /\ length sections = length (PDFParser.toc p')
    /\ forall (i : nat) (lv : Z) (ti : str) (pg : Z),
         PDFParser.toc p' !! i = Some (lv, ti, pg) ->
         exists s, sections !! i = Some s
                   /\ PDFParser.level s = lv
                   /\ PDFParser.title s = strip ti
                   /\ PDFParser.start_page s = pg.
Proof.
  intros Hd Ho.
  destruct (extract_content_ok p Hd Ho)
    as (p' & secs & He & _ & Htoc & Hall).
  exists p', secs. split; [exact He |]. split; [exact Htoc |]. split.
  - apply Forall2_length in Hall. now rewrite enumerate_length in Hall.
  - intros i lv ti pg Hi. apply enumerate_lookup in Hi.
    destruct (Forall2_lookup_l _ _ _ _ _ Hall Hi) as (s & Hs & Hsec).
    exists s. split; [exact Hs |].
    apply section_at_fields in Hsec. tauto.
Qed.

Lemma one_section_per_entry_witness :
  readable (PDFParser.doc unordered_parser)
  /\ outline_obtained unordered_parser
  /\ exists p' sections,
    PDFParser.extract_content_by_toc unordered_parser = Ok (p', sections)
    /\ (PDFParser.toc unordered_parser <> [] ->
        PDFParser.toc p' = PDFParser.toc unordered_parser)
    /\ length sections = length (PDFParser.toc p')
    /\ forall (i : nat) (lv : Z) (ti : str) (pg : Z),
         PDFParser.toc p' !! i = Some (lv, ti, pg) ->
         exists s, sections !! i = Some s
                   /\ PDFParser.level s = lv
                   /\ PDFParser.title s = strip ti
                   /\ PDFParser.start_page s = pg.
Proof.
  assert (H : readable (PDFParser.doc unordered_parser))
    by (apply pdf_of_pages_readable; discriminate).
  assert (Ho : outline_obtained unordered_parser) by (left; discriminate).
  split; [exact H |]. split; [exact Ho |].
  exact (one_section_per_entry unordered_parser H Ho).
Defined.

(** The first element a search accepts, by position. *)
Lemma find_first {A : Type} (f : A -> bool) (l : list A) :
  match find f l with
  | Some x => exists j, l !! j = Some x /\ f x = true
                        /\ forall k y, (k < j)%nat -> l !! k = Some y ->
                                       f y = false
  | None => forall k y, l !! k = Some y -> f y = false
  end.
Proof.
  induction l as [|a l IH]; simpl.
  - intros k y H. discriminate.
  - destruct (f a) eqn:Ha.
    + exists 0%nat. repeat split; [exact Ha |]. intros; lia.
    + destruct (find f l) as [x|].
      * destruct IH as (j & Hj & Hx & Hbefore). exists (S j).
        repeat split; [exact Hj | exact Hx |].
        intros [|k] y Hk Hy; simpl in Hy; [now inversion Hy; subst |].
        apply (Hbefore k); [lia | exact Hy].
      * intros [|k] y Hy; simpl in Hy; [now inversion Hy; subst |].
        now apply (IH k).
Qed.



(** The end page the slicer computes for entry [i], by position. *)
Lemma find_end_page_first (d : PdfDoc) (entries : list PDFParser.toc_entry)
  (i : nat) (lv : Z) :
  (exists j lvj tij pgj,
      (i < j)%nat /\ entries !! j = Some (lvj, tij, pgj) /\ (lvj <= lv)%Z
      /\ (forall k lvk tik pgk, (i < k < j)%nat ->
                                entries !! k = Some (lvk, tik, pgk) ->
                                (lv < lvk)%Z)
      /\ PDFParser.find_end_page d entries i lv = (pgj - 1)%Z)
  \/ ((forall j lvj tij pgj, (i < j)%nat ->
                             entries !! j = Some (lvj, tij, pgj) ->
                             (lv < lvj)%Z)
      /\ PDFParser.find_end_page d entries i lv = Z.of_nat (page_count d)).
Proof.
  unfold PDFParser.find_end_page.
  match goal with
  | |- context [find ?f ?l] =>
    pose proof (find_first f l) as H;
    destruct (find f l) as [[[lvj tij] pgj]|]
  end.
  - left. destruct H as (j & Hj & Hle & Hbefore).
    rewrite lookup_drop in Hj.
    exists (S i + j)%nat, lvj, tij, pgj.
    split; [lia |]. split; [exact Hj |]. split; [lia |].
    split; [|reflexivity].
    intros k lvk tik pgk Hk Hek.
    specialize (Hbefore (k - S i)%nat (lvk, tik, pgk)).
    rewrite lookup_drop in Hbefore.
    replace (S i + (k - S i))%nat with k in Hbefore by lia.
    specialize (Hbefore ltac:(lia) Hek). simpl in Hbefore. lia.
  - right. split; [|reflexivity].
    intros j lvj tij pgj Hj Hej.
    specialize (H (j - S i)%nat (lvj, tij, pgj)).
    rewrite lookup_drop in H.
    replace (S i + (j - S i))%nat with j in H by lia.
    specialize (H Hej). simpl in H. lia.
Qed.






(** ** Empty page ranges *)

(** C9. A page range that ends before it starts raises nothing: for
    [end_page < start_page] the text extracted from the pages
    [start_page - 1] to [end_page] is the empty string, without a page being
    read; the section of such an entry is built with empty content; and a
    section with empty content gives no chunk, without the splitter being
    called. *)
Theorem malformed_range_gives_no_chunks (d : PdfDoc)
  (start_page end_page : Z) :
  (end_page < start_page)%Z ->
  PDFParser._extract_text_from_pages d (start_page - 1) end_page = Ok []
  /\ (forall entries i lv ti,
         PDFParser.find_end_page d entries i lv = end_page ->
         exists s,
           PDFParser.section_at d entries (i, (lv, ti, start_page)) = Ok s
           /\ PDFParser.content s = []
           /\ forall split_text set_order self parent,
               SmartTextSplitter.split_section split_text set_order self s
                                               parent = [])
  /\ (forall split_text set_order self s parent,
         PDFParser.content s = [] ->
         SmartTextSplitter.split_section split_text set_order self s parent
         = []).
Proof.
  intros Hlt.
  assert (He : PDFParser._extract_text_from_pages d (start_page - 1) end_page
               = Ok []).
  { unfold PDFParser._extract_text_from_pages.
    rewrite range_empty by lia. reflexivity. }
  assert (Hs : forall split_text set_order self s parent,
             PDFParser.content s = [] ->
             SmartTextSplitter.split_section split_text set_order self s
                                             parent = []).
  { intros split_text set_order self s parent Hc.
    unfold SmartTextSplitter.split_section. now rewrite Hc. }
  split; [exact He |]. split; [|exact Hs].
  intros entries i lv ti Hend. unfold PDFParser.section_at.
  rewrite Hend, He. simpl. eexists. split; [reflexivity |].
  split; [reflexivity |]. intros. now apply Hs.
Qed.

Lemma malformed_range_gives_no_chunks_witness :
  (3 < 5)%Z
  /\ PDFParser._extract_text_from_pages
       (pdf_of_pages ten_pages []) (5 - 1) 3 = Ok [].
Proof.
  split; [lia |].
  apply (malformed_range_gives_no_chunks (pdf_of_pages ten_pages []) 5 3).
  lia.
Defined.

(** ** The metadata of a chunk *)

Lemma in_take {A : Type} (n : nat) (l : list A) (x : A) :
  In x (take n l) -> In x l.
Proof.
  intros H. rewrite <- (take_drop n l). apply List.in_or_app. now left.
Qed.

(** C7, as the code has it. Every document that [split_section] builds for
    a section holds one chunk of the splitter's output, and its [hierarchy]
    field is one string: the titles of the ancestor chain followed by the
    title of the section, joined by [" > "]. *)
Theorem hierarchy_field_is_joined_titles
  (split_text : SmartTextSplitter.t -> str -> list str)
  (set_order : list str -> list str) (self : SmartTextSplitter.t)
  (section_data : PDFParser.Section) (parent_hierarchy : option (list str))
  (doc : SmartTextSplitter.Document) :
  In doc (SmartTextSplitter.split_section split_text set_order self
                                          section_data parent_hierarchy) ->
  In (SmartTextSplitter.page_content doc)
     (split_text self (PDFParser.content section_data))
  /\ SmartTextSplitter.metadata doc !! "hierarchy"%string
     = Some (SmartTextSplitter.PStr
               (join (py " > ")
                     (ancestors_or_empty parent_hierarchy
                      ++ [PDFParser.title section_data]))).
Proof.
  unfold SmartTextSplitter.split_section.
  destruct (PDFParser.content section_data) as [|c0 content] eqn:Ec;
    [intros [] |].
  intros H. apply List.in_map_iff in H as ([i chunk] & <- & Hin).
  simpl. split.
  - unfold enumerate in Hin. now apply List.in_combine_r in Hin.
  - assert (Hp : match parent_hierarchy with
                 | Some (a :: l) => a :: l
                 | _ => []
                 end = ancestors_or_empty parent_hierarchy)
      by (destruct parent_hierarchy as [[|a l]|]; reflexivity).
    rewrite Hp. now simplify_map_eq.
Qed.

Lemma hierarchy_field_is_joined_titles_witness :
  exists doc,
    In doc (SmartTextSplitter.split_section
              one_chunk first_seen (SmartTextSplitter.init 1000 200 None)
              section_1_1 (Some [py "Лекция 1"]))
    /\ SmartTextSplitter.metadata doc !! "hierarchy"%string
       = Some (SmartTextSplitter.PStr
                 (join (py " > ")
                       (ancestors_or_empty (Some [py "Лекция 1"])
                        ++ [PDFParser.title section_1_1]))).
Proof.
  eexists. split; [left; reflexivity |].
  apply (hierarchy_field_is_joined_titles
           one_chunk first_seen (SmartTextSplitter.init 1000 200 None)
           section_1_1 (Some [py "Лекция 1"])).
  left. reflexivity.
Defined.

(** C7, as the claim states it, fails: for the section [1.1] under
    [Лекция 1] the [hierarchy] field of the chunk is the string
    ["Лекция 1 > 1.1"], not the list of the two titles. *)
Lemma hierarchy_field_is_not_a_list :
  match
    SmartTextSplitter.split_section
      one_chunk first_seen (SmartTextSplitter.init 1000 200 None)
      section_1_1 (Some [py "Лекция 1"])
  with
  | [doc] =>
    SmartTextSplitter.metadata doc !! "hierarchy"%string
    = Some (SmartTextSplitter.PStr (py "Лекция 1 > 1.1"))
    /\ SmartTextSplitter.metadata doc !! "hierarchy"%string
       <> Some (SmartTextSplitter.PList [py "Лекция 1"; py "1.1"])
  | _ => False
  end.
Proof. vm_compute. split; [reflexivity | discriminate]. Qed.

(** ** Extracting concepts *)

Lemma first_seen_is_set_order : is_set_order first_seen.
Proof.
  intros l. unfold first_seen. split.
  - apply NoDup_ListNoDup, List.NoDup_rev, NoDup_ListNoDup, NoDup_remove_dups.
  - intros x. rewrite <- List.in_rev, <- !list_elem_of_In,
      elem_of_remove_dups, !list_elem_of_In, <- List.in_rev. reflexivity.
Qed.

Lemma sample_matches :
  SmartTextSplitter.concept_matches sample_text
  = [py "сложность"; py "массив"; py "поиске"].
Proof. vm_compute. reflexivity. Qed.

Lemma extract_concepts_sound (set_order : list str -> list str) (text x : str) :
  is_set_order set_order ->
  In x (SmartTextSplitter._extract_concepts set_order text) ->
  In x (SmartTextSplitter.concept_matches text).
Proof.
  intros Hs H. apply in_take in H.
  destruct (Hs (SmartTextSplitter.concept_matches text)) as [_ Hin].
  now apply Hin.
Qed.

Lemma extract_concepts_complete (set_order : list str -> list str)
  (text x : str) :
  is_set_order set_order ->
  (length (remove_dups (SmartTextSplitter.concept_matches text)) <= 10)%nat ->
  In x (SmartTextSplitter.concept_matches text) ->
  In x (SmartTextSplitter._extract_concepts set_order text).
Proof.
  intros Hs Hlen Hx. unfold SmartTextSplitter._extract_concepts.
  destruct (Hs (SmartTextSplitter.concept_matches text)) as [Hnd Hin].
  rewrite take_ge; [now apply Hin |].
  etransitivity; [|exact Hlen].
  apply submseteq_length, NoDup_submseteq; [exact Hnd |].
  intros y Hy. apply elem_of_remove_dups.
  apply list_elem_of_In. apply Hin. now apply list_elem_of_In.
Qed.

(** C2, as the code has it. Whatever the order of the set, the concepts
    returned for a text are matches of the patterns of the fixed list in the
    lower-cased text, at most ten of them, and all of them when the text has
    at most ten distinct matches; what is returned for a match is the whole
    text of the group, the stem with the ending the pattern allows. On the
    text [Массив имеет сложность O(n) при поиске] the concepts include the
    word forms [массив], [сложность] and [поиске]. *)
Theorem concepts_are_matched_word_forms (set_order : list str -> list str) :
  is_set_order set_order ->
  (forall text x,
      In x (SmartTextSplitter._extract_concepts set_order text) ->
      exists pattern,
        In pattern SmartTextSplitter.concept_patterns
        /\ In x (findall pattern (lower text)))
  /\ (forall text,
         (length (SmartTextSplitter._extract_concepts set_order text) <= 10)%nat)
  /\ (forall text pattern x,
         (length (remove_dups (SmartTextSplitter.concept_matches text)) <= 10)%nat ->
         In pattern SmartTextSplitter.concept_patterns ->
         In x (findall pattern (lower text)) ->
         In x (SmartTextSplitter._extract_concepts set_order text))
  /\ In (py "массив") (SmartTextSplitter._extract_concepts set_order sample_text)
  /\ In (py "сложность")
        (SmartTextSplitter._extract_concepts set_order sample_text)
  /\ In (py "поиске")
        (SmartTextSplitter._extract_concepts set_order sample_text).
Proof.
  intros Hs.
  assert (Hsample : forall x,
             In x [py "сложность"; py "массив"; py "поиске"] ->
             In x (SmartTextSplitter._extract_concepts set_order sample_text)).
  { intros x Hx. apply extract_concepts_complete; [exact Hs | |].
    - rewrite sample_matches. vm_compute. lia.
    - now rewrite sample_matches. }
  split; [|split; [|split; [|split; [|split]]]].
  - intros text x Hx. apply extract_concepts_sound in Hx; [|exact Hs].
    unfold SmartTextSplitter.concept_matches in Hx.
    apply List.in_flat_map in Hx as (pattern & Hp & Hx). eauto.
  - intros text. unfold SmartTextSplitter._extract_concepts.
    rewrite length_take. lia.
  - intros text pattern x Hlen Hp Hx.
    apply extract_concepts_complete; [exact Hs | exact Hlen |].
    apply List.in_flat_map. eauto.
  - apply Hsample. right. left. reflexivity.
  - apply Hsample. left. reflexivity.
  - apply Hsample. right. right. left. reflexivity.
Qed.

Lemma concepts_are_matched_word_forms_witness :
  is_set_order first_seen
  /\ In (py "сложность")
        (SmartTextSplitter._extract_concepts first_seen sample_text).
Proof.
  split; [exact first_seen_is_set_order |].
  destruct (concepts_are_matched_word_forms first_seen
                                            first_seen_is_set_order)
    as (_ & _ & _ & _ & H & _).
  exact H.
Defined.

(** C2, as the claim states it, fails: whatever the order of the set, the
    concepts of the text [Массив имеет сложность O(n) при поиске] do not
    include the four members [массив], [сложност], [o(n)] and [поиск]:
    the stems [сложност] and [поиск] are not returned (the matched words
    are), nor is [o(n)]. *)
Lemma sample_concepts_are_not_the_claimed :
  ~ exists set_order,
      is_set_order set_order
      /\ In (py "массив")
            (SmartTextSplitter._extract_concepts set_order sample_text)
      /\ In (py "сложност")
            (SmartTextSplitter._extract_concepts set_order sample_text)
      /\ In (py "o(n)")
            (SmartTextSplitter._extract_concepts set_order sample_text)
      /\ In (py "поиск")
            (SmartTextSplitter._extract_concepts set_order sample_text).
Proof.
  intros (set_order & Hs & _ & H & _).
  apply extract_concepts_sound in H; [|exact Hs].
  rewrite sample_matches in H. vm_compute in H.
  destruct H as [H|[H|[H|[]]]]; discriminate H.
Qed.

(** ** Lines of the outline *)

Lemma prev_after_app (prev : option char) (l1 l2 : str) :
  prev_after prev (l1 ++ l2) = prev_after (prev_after prev l1) l2.
Proof.
  unfold prev_after. rewrite last_app. now destruct (last l2).
Qed.

Lemma consume_consume (n m : nat) (s : cursor) :
  consume m (consume n s) = consume (n + m) s.
Proof.
  destruct s as [[prev pos] rest]. simpl.
  rewrite <- prev_after_app, take_take_drop, drop_drop.
  now rewrite Nat.add_assoc.
Qed.

(** A match found by [exec] is a run of [steps]. *)
Lemma exec_steps (ic : bool) :
  forall (re : regex) (st : captures) (prev : option char) (pos : nat)
         (rest : str) r,
    exec ic re st prev pos rest = Some r ->
    exists s', steps ic re (prev, pos, rest) s'.
Proof.
  induction re as [|nd re IH]; intros st prev pos rest r H.
  - eexists. reflexivity.
  - destruct nd as [a|a mn g|g|g| | |]; simpl in H |- *.
    + destruct rest as [|c rest]; [discriminate |].
      destruct (atom_matches ic a c) eqn:Hc; [|discriminate].
      apply IH in H as [s' H]. exists s'. split; [reflexivity |].
      unfold prev_after. simpl. rewrite drop_0.
      now replace (pos + 1)%nat with (S pos) by lia.
    + apply rep_inv in H as (n & Hn & Hall & H).
      apply IH in H as [s' H]. exists s', n. auto.
    + now apply IH in H.
    + now apply IH in H.
    + destruct pos; [|discriminate]. apply IH in H as [s' H]. eauto.
    + destruct (xorb (word_before prev) (word_after rest)) eqn:Hb;
        [|discriminate].
      apply IH in H as [s' H]. eauto.
    + discriminate.
Qed.

(** A repetition finds a match when some count of characters leads to one. *)
Lemma rep_complete (ic : bool) (a : atom) (g : bool) (next : step) :
  forall (rest : str) (need n : nat) (prev : option char) (pos : nat),
    (need <= n <= length rest)%nat ->
    Forall (fun c => atom_matches ic a c = true) (take n rest) ->
    next (prev_after prev (take n rest)) (pos + n)%nat (drop n rest) <> None ->
    rep ic a g next need prev pos rest <> None.
Proof.
  induction rest as [|c rest IH]; intros need n prev pos Hn Hall Hnext.
  - simpl in Hn. assert (n = 0%nat) by lia. assert (need = 0%nat) by lia.
    subst. unfold prev_after in Hnext. simpl in *.
    rewrite Nat.add_0_r in Hnext.
    destruct g; [exact Hnext |].
    destruct (next prev pos []); [discriminate | exact Hnext].
  - destruct n as [|n].
    + assert (need = 0%nat) by lia. subst. simpl in Hnext |- *.
      rewrite Nat.add_0_r in Hnext. unfold prev_after in Hnext.
      simpl in Hnext. rewrite ?drop_0 in Hnext.
      destruct g.
      * destruct (atom_matches ic a c);
          [destruct (rep ic a true next 0 (Some c) (S pos) rest);
           [discriminate | exact Hnext] | exact Hnext].
      * destruct (next prev pos (c :: rest)); [discriminate |].
        now contradiction Hnext.
    + simpl in Hall, Hnext, Hn. inversion Hall as [|? ? Hc Hall']; subst.
      rewrite prev_after_cons in Hnext.
      replace (pos + S n)%nat with (S pos + n)%nat in Hnext by lia.
      destruct need as [|need]; simpl; rewrite Hc.
      * assert (Hr : rep ic a g next 0 (Some c) (S pos) rest <> None)
          by (apply (IH 0%nat n); [lia | exact Hall' | exact Hnext]).
        destruct g.
        -- now destruct (rep ic a true next 0 (Some c) (S pos) rest).
        -- destruct (next prev pos (c :: rest)); [discriminate | exact Hr].
      * apply (IH need n); [lia | exact Hall' | exact Hnext].
Qed.

(** Where a run of [steps] exists, [exec] finds a match. *)
Lemma steps_exec (ic : bool) :
  forall (re : regex) (st : captures) (prev : option char) (pos : nat)
         (rest : str) s',
    steps ic re (prev, pos, rest) s' ->
    exec ic re st prev pos rest <> None.
Proof.
  induction re as [|nd re IH]; intros st prev pos rest s' H.
  - discriminate.
  - destruct nd as [a|a mn g|g|g| | |]; simpl in H |- *.
    + destruct rest as [|c rest]; [contradiction |].
      destruct H as [-> H]. unfold prev_after in H. simpl in H.
      rewrite drop_0 in H.
      replace (pos + 1)%nat with (S pos) in H by lia. eapply IH; exact H.
    + destruct H as (n & Hn & Hall & H).
      apply (rep_complete _ _ _ _ _ _ n); [exact Hn | exact Hall |].
      eapply IH; exact H.
    + eapply IH; exact H.
    + eapply IH; exact H.
    + destruct H as [-> H]. eapply IH; exact H.
    + destruct H as [-> H]. eapply IH; exact H.
    + contradiction.
Qed.

Lemma steps_app (ic : bool) (re2 : regex) :
  forall (re1 : regex) (s s'' : cursor),
    steps ic (re1 ++ re2) s s''
    <-> exists s', steps ic re1 s s' /\ steps ic re2 s' s''.
Proof.
  induction re1 as [|nd re1 IH]; intros s s''; simpl.
  - split; [eauto | now intros (s' & -> & H)].
  - destruct nd as [a|a mn g|g|g| | |].
    + destruct (snd s) as [|c l].
      * split; [contradiction | now intros (s' & [] & _)].
      * rewrite IH. split.
        -- intros (Hc & s' & H1 & H2). eauto.
        -- intros (s' & (Hc & H1) & H2). eauto.
    + split.
      * intros (n & Hn & Hall & H). apply IH in H as (s' & H1 & H2).
        exists s'. split; [exists n; auto | exact H2].
      * intros (s' & (n & Hn & Hall & H1) & H2). exists n.
        split; [exact Hn |]. split; [exact Hall |]. apply IH. eauto.
    + apply IH.
    + apply IH.
    + rewrite IH. split.
      * intros (Hp & s' & H1 & H2). eauto.
      * intros (s' & (Hp & H1) & H2). eauto.
    + rewrite IH. split.
      * intros (Hp & s' & H1 & H2). eauto.
      * intros (s' & (Hp & H1) & H2). eauto.
    + split; [contradiction | now intros (s' & [] & _)].
Qed.

Lemma steps_erase (ic : bool) :
  forall (re : regex) (s s' : cursor),
    steps ic re s s' <-> steps ic (erase re) s s'.
Proof.
  induction re as [|nd re IH]; intros s s'; [reflexivity |].
  destruct nd as [a|a mn g|g|g| | |]; simpl; try apply IH.
  - destruct (snd s); [reflexivity | now rewrite IH].
  - split; intros (n & Hn & Hall & H); exists n;
      (split; [exact Hn | split; [exact Hall | now apply IH]]).
  - now rewrite IH.
  - now rewrite IH.
  - reflexivity.
Qed.

(** A run of [steps] ends in a suffix of the subject it started in. *)
Lemma steps_suffix (ic : bool) :
  forall (re : regex) (s s' : cursor),
    steps ic re s s' -> exists n, snd s' = drop n (snd s).
Proof.
  induction re as [|nd re IH]; intros [[prev pos] rest] s' H; simpl in H.
  - subst. exists 0%nat. reflexivity.
  - destruct nd as [a|a mn g|g|g| | |]; simpl in H.
    + destruct rest as [|c rest]; [contradiction |]. destruct H as [_ H].
      apply IH in H as [n H]. exists (1 + n)%nat. simpl in *.
      now rewrite drop_0 in H.
    + destruct H as (n & _ & _ & H). apply IH in H as [m H].
      exists (n + m)%nat. simpl in *. now rewrite drop_drop in H.
    + now apply IH in H.
    + now apply IH in H.
    + destruct H as [_ H]. now apply IH in H.
    + destruct H as [_ H]. now apply IH in H.
    + contradiction.
Qed.

Lemma subsection_pattern_parts :
  compile PDFParser.subsection_pattern
  = numeric_prefix ++ subsection_middle ++ leaders_and_page 5.
Proof. vm_compute. reflexivity. Qed.

Lemma section_pattern_parts :
  compile PDFParser.section_pattern
  = numeric_prefix ++ section_middle ++ leaders_and_page 4.
Proof. vm_compute. reflexivity. Qed.

(** From the position after [N.M], what the sub-section pattern reads up to
    the leaders ([.K], separators, a title) the section pattern reads too,
    as a separator (the dot) and a title, when no newline is in the way. *)
Lemma consume_snd (n : nat) (s : cursor) :
  snd (consume n s) = drop n (snd s).
Proof. now destruct s as [[prev pos] rest]. Qed.

Lemma section_middle_covers (s1 s2 : cursor) :
  Forall (fun c => c <> newline) (snd s1) ->
  steps false subsection_middle s1 s2 ->
  steps false section_middle s1 s2.
Proof.
  intros Hnl H. unfold subsection_middle in H. unfold section_middle.
  cbn [steps] in H |- *.
  destruct (snd s1) as [|c l] eqn:Es; [contradiction |].
  destruct H as (Hc & n3 & Hn3 & _ & n4 & Hn4 & _ & n5 & Hn5 & _ & H).
  cbn [atom_matches lit_matches] in Hc. apply N.eqb_eq in Hc. subst c.
  rewrite !consume_consume in H.
  repeat rewrite consume_snd in Hn3. repeat rewrite consume_snd in Hn4.
  repeat rewrite consume_snd in Hn5. rewrite Es in Hn3, Hn4, Hn5.
  repeat rewrite length_drop in Hn3. repeat rewrite length_drop in Hn4.
  repeat rewrite length_drop in Hn5. cbn [length] in Hn3, Hn4, Hn5 |- *.
  exists 1%nat. split; [lia |]. split; [repeat constructor |].
  exists (n3 + n4 + n5)%nat. rewrite consume_snd, Es, length_drop.
  cbn [length]. split; [lia |]. split.
  - apply Forall_take, Forall_drop.
    eapply Forall_impl; [exact Hnl |]. intros c Hc. cbn [atom_matches].
    now destruct (N.eqb_spec c newline).
  - rewrite consume_consume, <- H. f_equal. lia.
Qed.

(** A line without a newline that the sub-section pattern matches is
    matched by the section pattern, which is tried first. *)
Lemma section_pattern_takes_subsection_lines (line : str) :
  Forall (fun c => c <> newline) line ->
  re_match PDFParser.subsection_pattern false line <> None ->
  re_match PDFParser.section_pattern false line <> None.
Proof.
  intros Hnl Hsub. unfold re_match in *.
  rewrite subsection_pattern_parts in Hsub. rewrite section_pattern_parts.
  destruct (exec false (numeric_prefix ++ subsection_middle
                        ++ leaders_and_page 5) no_captures None 0 line)
    as [r|] eqn:E; [clear Hsub | now contradiction Hsub].
  apply exec_steps in E as [s' E].
  apply steps_app in E as (s1 & H1 & E).
  apply steps_app in E as (s2 & H2 & H3).
  assert (Hs : steps false (numeric_prefix ++ section_middle
                            ++ leaders_and_page 4) (None, 0%nat, line) s').
  { apply steps_app. exists s1. split; [exact H1 |].
    apply steps_app. exists s2. split.
    - apply section_middle_covers; [|exact H2].
      apply steps_suffix in H1 as [n ->]. simpl. now apply Forall_drop.
    - apply steps_erase. apply steps_erase in H3. exact H3. }
  apply (steps_exec _ _ no_captures) in Hs.
  destruct (exec false _ no_captures None 0 line) as [[e st]|];
    [discriminate | now contradiction Hs].
Qed.

Lemma split_without_separator (sep : char) (s : str) :
  Forall (Forall (fun c => c <> sep)) (split sep s).
Proof.
  induction s as [|c s IH]; simpl; [repeat constructor |].
  destruct (N.eqb_spec c sep) as [->|Hne].
  - constructor; [constructor | exact IH].
  - destruct (split sep s) as [|l ls]; [repeat constructor; exact Hne |].
    inversion IH; subst. constructor; [now constructor | assumption].
Qed.

(** The level that [scan_line] gives an entry is 1 or 2, never 3, on a line
    without a newline. *)
Lemma scan_line_level (line : str) (e : PDFParser.toc_entry) :
  Forall (fun c => c <> newline) line ->
  PDFParser.scan_line line = Ok (Some e) ->
  fst (fst e) = 1%Z \/ fst (fst e) = 2%Z.
Proof.
  intros Hnl. unfold PDFParser.scan_line.
  destruct (re_match PDFParser.lecture_pattern true line) as [m|].
  { destruct (int (group m 3)); simpl; [|discriminate].
    intros [= <-]. now left. }
  destruct (re_match PDFParser.section_pattern false line) as [m|] eqn:E2.
  { destruct (int (group m 4)); simpl; [|discriminate].
    intros [= <-]. now right. }
  destruct (re_match PDFParser.subsection_pattern false line) as [m|] eqn:E3;
    [|discriminate].
  exfalso. apply (section_pattern_takes_subsection_lines line Hnl);
    [now rewrite E3 | exact E2].
Qed.

(** The manual extraction of the outline yields entries of level 1 and 2
    only. *)
Lemma manual_outline_levels (d : PdfDoc)
  (entries : list PDFParser.toc_entry) :
  PDFParser._extract_toc_manually d = Ok entries ->
  Forall (fun e : PDFParser.toc_entry =>
            fst (fst e) = 1%Z \/ fst (fst e) = 2%Z) entries.
Proof.
  unfold PDFParser._extract_toc_manually.
  destruct (for_each (PDFParser.scan_page d) _) as [per_page|] eqn:E;
    simpl; [|discriminate].
  intros [= <-]. apply for_each_inv in E.
  apply Forall_concat. clear -E.
  induction E as [|n found ns per_page Hn _ IH]; constructor; [|exact IH].
  unfold PDFParser.scan_page in Hn.
  destruct (page_text d (Z.of_nat n)) as [text|]; simpl in Hn; [|discriminate].
  destruct (for_each PDFParser.scan_line (split newline text))
    as [results|] eqn:El; simpl in Hn; [|discriminate].
  inversion Hn; subst found. apply for_each_inv in El.
  pose proof (split_without_separator newline text) as Hlines.
  clear -El Hlines.
  induction El as [|line r lines results Hr _ IH]; [constructor |].
  inversion Hlines; subst. destruct r as [e|]; simpl.
  - constructor; [now apply (scan_line_level line) | now apply IH].
  - now apply IH.
Qed.

(** C3 fails on the code: a line of the three-level shape, which the
    sub-section pattern matches, is taken by the section pattern that is
    tried before it, and the entry appended has level 2. This is so for
    every line: whatever the pages hold, the manual extraction yields
    entries of level 1 and 2 only, and the branch that appends level 3 is
    never taken. *)
Theorem three_level_line_is_read_at_level_two :
  PDFParser.scan_line (py "1.1.1 Поиск .... 7")
  = Ok (Some (2%Z, py "1.1 1 Поиск", 7%Z))
  /\ option_map (fun m => (group m 1, group m 2, group m 3, group m 4,
                           group m 5))
                (re_match PDFParser.subsection_pattern false
                          (py "1.1.1 Поиск .... 7"))
     = Some (py "1", py "1", py "1", py "Поиск", py "7")
  /\ forall (d : PdfDoc) (entries : list PDFParser.toc_entry),
      PDFParser._extract_toc_manually d = Ok entries ->
      Forall (fun e : PDFParser.toc_entry =>
                fst (fst e) = 1%Z \/ fst (fst e) = 2%Z) entries.
Proof.
  split; [vm_compute; reflexivity |].
  split; [vm_compute; reflexivity |].
  exact manual_outline_levels.
Qed.

Lemma three_level_line_is_read_at_level_two_witness :
  PDFParser._extract_toc_manually one_line_document
  = Ok [(2%Z, py "1.1 1 Поиск", 7%Z)]
  /\ Forall (fun e : PDFParser.toc_entry =>
               fst (fst e) = 1%Z \/ fst (fst e) = 2%Z)
            [(2%Z, py "1.1 1 Поиск", 7%Z)].
Proof.
  assert (H : PDFParser._extract_toc_manually one_line_document
              = Ok [(2%Z, py "1.1 1 Поиск", 7%Z)])
    by (vm_compute; reflexivity).
  split; [exact H |].
  exact (proj2 (proj2 three_level_line_is_read_at_level_two)
               one_line_document _ H).
Defined.

(** ** The run of the populator *)

Section Quiet.
Import DatabasePopulator.

Variable self : DatabasePopulator.t.

Lemma quiet_ret {A : Type} (a : A) (Q : A -> Prop) :
  Q a -> quiet_at self (ret a) Q.
Proof.
  intros HQ trace. exists a, []. rewrite app_nil_r.
  repeat split; [constructor | exact HQ].
Qed.

Lemma quiet_lift {A : Type} (r : res A) (a : A) (Q : A -> Prop) :
  r = Ok a -> Q a -> quiet_at self (lift r) Q.
Proof.
  intros -> HQ trace. exists a, []. rewrite app_nil_r.
  repeat split; [constructor | exact HQ].
Qed.

Lemma quiet_bind {A B : Type} (m : M A) (k : A -> M B) (P : A -> Prop)
  (Q : B -> Prop) :
  quiet_at self m P ->
  (forall a, P a -> quiet_at self (k a) Q) ->
  quiet_at self (mbind' m k) Q.
Proof.
  intros Hm Hk trace. destruct (Hm trace) as (a & logs & Em & Hl & HP).
  destruct (Hk a HP (trace ++ logs)) as (b & logs' & Ek & Hl' & HQ).
  exists b, (logs ++ logs'). unfold mbind'. rewrite Em, Ek, app_assoc.
  repeat split; [now apply Forall_app | exact HQ].
Qed.

Lemma quiet_for_M {A B : Type} (body : B -> A -> M B) (l : list A) :
  (forall acc a, In a l -> quiet_at self (body acc a) (fun _ => True)) ->
  forall acc, quiet_at self (for_M body l acc) (fun _ => True).
Proof.
  induction l as [|a l IH]; intros Hbody acc; simpl.
  - now apply quiet_ret.
  - eapply quiet_bind; [apply Hbody; now left |].
    intros acc' _. apply IH. intros; apply Hbody; now right.
Qed.

End Quiet.

Lemma quiet_info (self : DatabasePopulator.t) (message : str) :
  quiet_at self (DatabasePopulator.info message) (fun _ => True).
Proof.
  intros trace. exists tt, [DatabasePopulator.Log DatabasePopulator.INFO message].
  repeat split. repeat constructor.
Qed.

Lemma quiet_get_self (self : DatabasePopulator.t) :
  quiet_at self DatabasePopulator.get_self (fun a => a = self).
Proof.
  intros trace. exists self, []. rewrite app_nil_r.
  repeat split. constructor.
Qed.

Lemma enumerate_in {A : Type} (l : list A) (i : nat) (a : A) :
  In (i, a) (enumerate l) -> l !! i = Some a.
Proof.
  intros H. apply list_elem_of_In, list_elem_of_lookup in H as [k Hk].
  unfold enumerate in Hk. rewrite enumerate_lookup_from in Hk.
  destruct (l !! k) eqn:E; [|discriminate].
  inversion Hk; subst. exact E.
Qed.

Section Run.
Import DatabasePopulator.

Variable split_text : SmartTextSplitter.t -> str -> list str.
Variable set_order : list str -> list str.
Variable files : str -> option PdfDoc.
Variable new_vector_store : res VectorStoreManager.t.
Variable filter_complex_metadata :
  list SmartTextSplitter.Document -> list SmartTextSplitter.Document.

Lemma chunk_sections_quiet (self : DatabasePopulator.t)
  (sections : list PDFParser.Section) :
  quiet_at self (chunk_sections split_text set_order self sections)
           (fun _ => True).
Proof.
  unfold chunk_sections. apply quiet_for_M.
  intros acc [i section] Hin. simpl.
  apply enumerate_in in Hin.
  eapply quiet_bind; [apply quiet_info |]. intros _ _.
  eapply quiet_bind.
  - eapply quiet_lift with (Q := fun _ => True); [|exact I].
    unfold _build_hierarchy. rewrite (getitem_nat _ _ _ Hin). reflexivity.
  - intros hierarchy _.
    eapply quiet_bind; [apply quiet_info |]. intros _ _.
    now apply quiet_ret.
Qed.

(** With the file in place and readable and its outline found, the run
    from the parsing to the filtering returns and only logs. *)
Lemma ingest_quiet (self : DatabasePopulator.t) (d : PdfDoc) :
  files (pdf_path self) = Some d ->
  readable d ->
  outline_found d ->
  quiet_at self
           (ingest split_text set_order files filter_complex_metadata)
           (fun _ => True).
Proof.
  intros Hfile Hd [[p1 outline] E1]. unfold ingest.
  eapply quiet_bind; [apply quiet_get_self |]. intros ? ->.
  eapply quiet_bind; [apply quiet_info |]. intros _ _.
  eapply quiet_bind.
  { eapply quiet_lift
      with (Q := fun q => q = {| PDFParser.doc := d; PDFParser.toc := [] |}).
    - unfold open_parser. rewrite Hfile. reflexivity.
    - reflexivity. }
  intros ? ->.
  eapply quiet_bind; [apply quiet_info |]. intros _ _.
  destruct (extract_toc_ok _ _ E1) as [Hdoc1 _].
  cbn [fst PDFParser.doc] in Hdoc1.
  eapply quiet_bind.
  { eapply quiet_lift with (Q := fun r => r = (p1, outline));
      [exact E1 | reflexivity]. }
  intros ? ->. simpl.
  eapply quiet_bind; [apply quiet_info |]. intros _ _.
  eapply quiet_bind; [apply quiet_info |]. intros _ _.
  destruct (extract_content_ok p1) as (p2 & sections & E2 & _).
  { now rewrite Hdoc1. }
  { right. exists (p1, outline). rewrite <- E1.
    now apply extract_toc_doc. }
  eapply quiet_bind.
  { eapply quiet_lift with (Q := fun r => r = (p2, sections));
      [exact E2 | reflexivity]. }
  intros ? ->. simpl.
  eapply quiet_bind; [apply quiet_info |]. intros _ _.
  eapply quiet_bind; [apply quiet_info |]. intros _ _.
  eapply quiet_bind; [apply chunk_sections_quiet |]. intros all_documents _.
  eapply quiet_bind; [apply quiet_info |]. intros _ _.
  eapply quiet_bind; [apply quiet_info |]. intros _ _.
  eapply quiet_bind; [apply quiet_info |]. intros _ _.
  now apply quiet_ret.
Qed.

(** C4, as the code has it. When [clear_existing] is set and deleting the
    collection raises, the run is not aborted: the failure is logged as a
    warning, no new store is opened, and the run goes on with the store it
    had, the one whose collection could not be deleted; if the file is
    there and readable, its outline is found ([extract_toc] returns) and
    the write to that store succeeds, the run returns a result of status
    [success]. *)
Theorem clear_failure_is_not_fatal (self : DatabasePopulator.t)
  (trace : list event) (d : PdfDoc) (e : str) :
  VectorStoreManager.delete_collection (vector_store self) = Raise e ->
  files (pdf_path self) = Some d ->
  readable d ->
  outline_found d ->
  (forall documents, exists ids,
      VectorStoreManager.add_documents (vector_store self) documents
      = Ok ids) ->
  exists (sections : list PDFParser.Section)
         (documents : list SmartTextSplitter.Document)
         (ids : list str) (logs : list event),
    populate split_text set_order files new_vector_store
             filter_complex_metadata true (self, trace)
    = (Ok (Success (length sections) (length documents) ids),
       (self,
        trace
        ++ [Log INFO (py "Очистка существующей коллекции...");
            DeleteCollection (VectorStoreManager.vs_id (vector_store self));
            Log WARNING (py "Не удалось удалить коллекцию: " ++ e)]
        ++ logs
        ++ [Log INFO (py "Добавление документов в ChromaDB...");
            AddDocuments (VectorStoreManager.vs_id (vector_store self))
                         documents;
            Log INFO (py "Успешно добавлено документов: "
                      ++ str_of_nat (length ids))]))
    /\ Forall is_log logs
    /\ VectorStoreManager.add_documents (vector_store self) documents
       = Ok ids
    /\ status (Success (length sections) (length documents) ids)
       = py "success".
Proof.
  intros Hdel Hfile Hd Ho Hadd.
  set (cleared := trace
         ++ [Log INFO (py "Очистка существующей коллекции...");
             DeleteCollection (VectorStoreManager.vs_id (vector_store self));
             Log WARNING (py "Не удалось удалить коллекцию: " ++ e)]).
  destruct (ingest_quiet self d Hfile Hd Ho cleared)
    as ([sections documents] & logs & Ei & Hlogs & _).
  destruct (Hadd documents) as [ids Hids].
  exists sections, documents, ids, logs.
  split; [|split; [exact Hlogs | split; [exact Hids | reflexivity]]].
  unfold populate. unfold mbind' at 1.
  assert (Ec : clear_collection new_vector_store (self, trace)
               = (Ok tt, (self, cleared))).
  { unfold clear_collection, mbind', try_except, info, emit, get_self, lift.
    simpl. rewrite Hdel. simpl. unfold cleared.
    rewrite <- !app_assoc. reflexivity. }
  rewrite Ec. unfold mbind' at 1. rewrite Ei. simpl.
  unfold store, mbind', try_except, info, emit, get_self, lift, ret.
  simpl. rewrite Hids. simpl. unfold cleared.
  rewrite <- !app_assoc. reflexivity.
Qed.

End Run.

Lemma clear_failure_is_not_fatal_witness :
  VectorStoreManager.delete_collection
    (DatabasePopulator.vector_store small_populator)
  = Raise (py "collection is locked")
  /\ readable two_pages
  /\ outline_found two_pages
  /\ exists r s,
      small_run true = (Ok r, s)
      /\ DatabasePopulator.status r = py "success".
Proof.
  assert (Hd : readable two_pages)
    by (apply pdf_of_pages_readable; discriminate).
  assert (Ho : outline_found two_pages)
    by (apply extract_toc_embedded; discriminate).
  split; [reflexivity |]. split; [exact Hd |]. split; [exact Ho |].
  destruct (clear_failure_is_not_fatal
              one_chunk first_seen (fun _ => Some two_pages) (Ok fresh_store)
              (fun documents => documents) small_populator [] two_pages
              (py "collection is locked") eq_refl eq_refl Hd Ho)
    as (sections & documents & ids & logs & E & _ & _ & Hs).
  - intros documents. eexists. reflexivity.
  - eexists. eexists. split; [exact E | exact Hs].
Defined.

(** C4, as the claim states it, fails: in a run whose store cannot delete
    its collection, no new store is opened; the run ends with status
    [success], having written its documents to the store it started with
    (store 0), which is still the populator's store, and not to the store a
    new manager would have opened (store 1). *)
Lemma run_continues_with_the_old_store :
  match small_run true with
  | (Ok r, (self', trace)) =>
    DatabasePopulator.status r = py "success"
    /\ stores_opened trace = 0%nat
    /\ stores_written trace = [0%nat]
    /\ VectorStoreManager.vs_id (DatabasePopulator.vector_store self') = 0%nat
    /\ VectorStoreManager.vs_id (DatabasePopulator.vector_store self')
       <> VectorStoreManager.vs_id fresh_store
  | (Raise _, _) => False
  end.
Proof. vm_compute. repeat split; discriminate. Qed.

(** * Further properties of the code *)

(** ** The cleaned text of a page *)

Lemma clean_text_squeeze (text : str) :
  PDFParser._clean_text text = strip (squeeze false text).
Proof.
  unfold PDFParser._clean_text.
  rewrite (sub_newline_first_id _ _ _ _ compile_page_number)
    by apply collapsed_has_no_newline.
  rewrite (sub_newline_first_id _ _ _ _ compile_blank_lines)
    by apply collapsed_has_no_newline.
  now rewrite sub_whitespace_squeeze.
Qed.

Lemma squeeze_spaces (s : str) :
  forall in_run,
    Forall (fun c => is_space c = true -> c = 32%N) (squeeze in_run s).
Proof.
  induction s as [|c s IH]; intros in_run; simpl; [constructor |].
  destruct (is_space c) eqn:Hc.
  - destruct in_run; [apply IH |]. constructor; [reflexivity | apply IH].
  - constructor; [congruence | apply IH].
Qed.

Lemma squeeze_in_run_head (s : str) :
  match squeeze true s with
  | d :: _ => is_space d = false
  | [] => True
  end.
Proof.
  induction s as [|c s IH]; simpl; [exact I |].
  destruct (is_space c) eqn:Hc; [exact IH | exact Hc].
Qed.

Lemma squeeze_single_spaced (s : str) :
  forall in_run, single_spaced (squeeze in_run s).
Proof.
  induction s as [|c s IH]; intros in_run; simpl; [exact I |].
  destruct (is_space c) eqn:Hc.
  - destruct in_run; [apply IH |]. simpl. split; [|apply IH].
    intros _. apply squeeze_in_run_head.
  - simpl. split; [congruence | apply IH].
Qed.

(** What [strip] removes: whitespace before and after what it keeps. *)
Lemma lstrip_split (s : str) :
  exists a, s = a ++ lstrip s
            /\ Forall (fun c => is_space c = true) a
            /\ match lstrip s with
               | c :: _ => is_space c = false
               | [] => True
               end.
Proof.
  induction s as [|c s (a & Ha & Hsp & Hhd)]; simpl.
  - exists []. repeat split. constructor.
  - destruct (is_space c) eqn:Hc.
    + exists (c :: a). simpl. rewrite <- Ha.
      repeat split; [now constructor | exact Hhd].
    + exists []. repeat split; [constructor | exact Hc].
Qed.

Lemma lstrip_snoc (s : str) (c : char) :
  is_space c = false -> lstrip (s ++ [c]) = lstrip s ++ [c].
Proof.
  intros Hc. induction s as [|d s IH]; simpl; [now rewrite Hc |].
  destruct (is_space d); [exact IH | reflexivity].
Qed.

Lemma lstrip_fixed (s : str) :
  match s with c :: _ => is_space c = false | [] => True end ->
  lstrip s = s.
Proof.
  destruct s as [|c s]; simpl; [reflexivity |]. now intros ->.
Qed.

Lemma rstrip_split (s : str) :
  exists b, s = rstrip s ++ b
            /\ Forall (fun c => is_space c = true) b
            /\ match last (rstrip s) with
               | Some c => is_space c = false
               | None => True
               end.
Proof.
  unfold rstrip. destruct (lstrip_split (rev s)) as (a & Ha & Hsp & Hhd).
  exists (rev a). split; [|split].
  - rewrite <- rev_app_distr, <- Ha. now rewrite rev_involutive.
  - now apply List.Forall_rev.
  - destruct (lstrip (rev s)) as [|c l]; [exact I |].
    simpl. now rewrite last_snoc.
Qed.

Lemma rstrip_keeps_head (s : str) :
  match s with c :: _ => is_space c = false | [] => True end ->
  match rstrip s with c :: _ => is_space c = false | [] => True end.
Proof.
  destruct s as [|c s]; [intros _; exact I |]. intros Hc. unfold rstrip.
  simpl. rewrite (lstrip_snoc _ _ Hc), rev_app_distr. simpl. exact Hc.
Qed.

Lemma strip_split (s : str) :
  exists a b, s = a ++ strip s ++ b
              /\ Forall (fun c => is_space c = true) a
              /\ Forall (fun c => is_space c = true) b
              /\ match strip s with
                 | c :: _ => is_space c = false
                 | [] => True
                 end
              /\ match last (strip s) with
                 | Some c => is_space c = false
                 | None => True
                 end.
Proof.
  destruct (lstrip_split s) as (a & Ha & Hsa & Hhd).
  destruct (rstrip_split (lstrip s)) as (b & Hb & Hsb & Hlast).
  exists a, b. unfold strip.
  split; [now rewrite <- Hb |].
  split; [exact Hsa |]. split; [exact Hsb |].
  split; [now apply rstrip_keeps_head | exact Hlast].
Qed.

Lemma single_spaced_app_r (a l : str) :
  single_spaced (a ++ l) -> single_spaced l.
Proof.
  induction a as [|c a IH]; simpl; [auto |]. intros [_ H]. now apply IH.
Qed.

Lemma single_spaced_app_l (l b : str) :
  single_spaced (l ++ b) -> single_spaced l.
Proof.
  induction l as [|c l IH]; simpl; [auto |]. intros [Hc H].
  split; [|now apply IH]. intros Hsp. specialize (Hc Hsp).
  destruct l; [exact I | exact Hc].
Qed.

(** X1. The text that [_clean_text] returns is normalized: its only
    whitespace character is the plain space, no two spaces follow one
    another, and it neither starts nor ends with a space. *)
Theorem clean_text_is_normalized (text : str) :
  Forall (fun c => is_space c = true -> c = 32%N)
         (PDFParser._clean_text text)
  /\ single_spaced (PDFParser._clean_text text)
  /\ match PDFParser._clean_text text with
     | c :: _ => is_space c = false
     | [] => True
     end
  /\ match last (PDFParser._clean_text text) with
     | Some c => is_space c = false
     | None => True
     end.
Proof.
  rewrite clean_text_squeeze.
  destruct (strip_split (squeeze false text))
    as (a & b & He & _ & _ & Hhd & Hlast).
  split; [apply strip_Forall, squeeze_spaces |].
  split; [|split; [exact Hhd | exact Hlast]].
  pose proof (squeeze_single_spaced text false) as H.
  rewrite He in H. now apply single_spaced_app_r, single_spaced_app_l in H.
Qed.

Lemma squeeze_fixed (s : str) :
  Forall (fun c => is_space c = true -> c = 32%N) s ->
  single_spaced s ->
  squeeze false s = s
  /\ (match s with c :: _ => is_space c = false | [] => True end ->
      squeeze true s = s).
Proof.
  induction s as [|c s IH]; intros Hsp Hss; [split; reflexivity |].
  inversion Hsp as [|? ? Hc Hsp']; subst. destruct Hss as [Hnext Hss].
  destruct (IH Hsp' Hss) as [IH0 IH1]. simpl.
  destruct (is_space c) eqn:E.
  - split; [|discriminate].
    rewrite (Hc eq_refl). f_equal. apply IH1.
    specialize (Hnext eq_refl). now destruct s.
  - split; [|intros _]; now rewrite IH0.
Qed.

Lemma rev_head_last (s : str) :
  match last s with Some c => is_space c = false | None => True end ->
  match rev s with c :: _ => is_space c = false | [] => True end.
Proof.
  destruct (rev s) as [|c r] eqn:E; [intros _; exact I |].
  apply (f_equal (@rev char)) in E. rewrite rev_involutive in E. subst s.
  simpl. now rewrite last_snoc.
Qed.

Lemma strip_fixed (s : str) :
  match s with c :: _ => is_space c = false | [] => True end ->
  match last s with Some c => is_space c = false | None => True end ->
  strip s = s.
Proof.
  intros Hhd Hlast. unfold strip, rstrip.
  rewrite (lstrip_fixed s Hhd), (lstrip_fixed (rev s)).
  - apply rev_involutive.
  - now apply rev_head_last.
Qed.

(** X2. [_clean_text] is idempotent: cleaning a text that was cleaned
    already gives it back unchanged. *)
Theorem clean_text_idempotent (text : str) :
  PDFParser._clean_text (PDFParser._clean_text text)
  = PDFParser._clean_text text.
Proof.
  rewrite !clean_text_squeeze.
  destruct (strip_split (squeeze false text))
    as (a & b & He & _ & _ & Hhd & Hlast).
  assert (Hss : single_spaced (strip (squeeze false text))).
  { pose proof (squeeze_single_spaced text false) as H. rewrite He in H.
    now apply single_spaced_app_r, single_spaced_app_l in H. }
  assert (Hsp : Forall (fun c => is_space c = true -> c = 32%N)
                       (strip (squeeze false text)))
    by apply strip_Forall, squeeze_spaces.
  destruct (squeeze_fixed _ Hsp Hss) as [-> _].
  now apply strip_fixed.
Qed.

Lemma visible_squeeze (s : str) :
  forall in_run, visible (squeeze in_run s) = visible s.
Proof.
  unfold visible. induction s as [|c s IH]; intros in_run; simpl;
    [reflexivity |].
  destruct (is_space c) eqn:Hc; simpl.
  - destruct in_run; [apply IH |]. simpl. apply IH.
  - rewrite Hc. simpl. f_equal. apply IH.
Qed.

Lemma visible_spaces (a : str) :
  Forall (fun c => is_space c = true) a -> visible a = [].
Proof.
  unfold visible. induction 1 as [|c a Hc _ IH]; simpl; [reflexivity |].
  now rewrite Hc.
Qed.

(** X3. [_clean_text] removes and changes whitespace only: the characters
    of the text that are not whitespace are all kept, in their order (so
    the digits of a page number that stands on a line of its own stay in the
    text). *)
Theorem clean_text_keeps_visible_characters (text : str) :
  visible (PDFParser._clean_text text) = visible text.
Proof.
  rewrite clean_text_squeeze, <- (visible_squeeze text false).
  destruct (strip_split (squeeze false text))
    as (a & b & He & Ha & Hb & _).
  remember (strip (squeeze false text)) as m eqn:Em. clear Em.
  rewrite He. unfold visible. rewrite !List.filter_app.
  fold (visible a) (visible b). rewrite (visible_spaces a Ha),
    (visible_spaces b Hb), app_nil_r. reflexivity.
Qed.

(** ** The text of a range of pages *)

Lemma occurrences_absent (c : char) (s : str) :
  Forall (fun x => x <> c) s -> occurrences c s = 0%nat.
Proof.
  intros H. apply count_occ_not_In. rewrite List.Forall_forall in H.
  intros Hin. now apply (H c).
Qed.

Lemma occurrences_app (c : char) (a b : str) :
  occurrences c (a ++ b) = (occurrences c a + occurrences c b)%nat.
Proof. apply count_occ_app. Qed.

Lemma join_occurrences (c : char) (sep : str) (parts : list str) :
  Forall (fun p => occurrences c p = 0%nat) parts ->
  occurrences c (join sep parts)
  = (occurrences c sep * (length parts - 1))%nat.
Proof.
  induction 1 as [|p ps Hp Hps IH]; [simpl; lia |].
  destruct ps as [|q ps].
  - simpl. rewrite Hp. lia.
  - change (join sep (p :: q :: ps)) with (p ++ sep ++ join sep (q :: ps)).
    rewrite !occurrences_app, IH, Hp. simpl. lia.
Qed.

Lemma clean_text_one_line (text : str) :
  Forall (fun c => c <> newline) (PDFParser._clean_text text).
Proof.
  rewrite clean_text_squeeze. apply strip_Forall.
  eapply Forall_impl; [apply (squeeze_spaces text false) |].
  intros c Hc ->. specialize (Hc eq_refl). discriminate.
Qed.

(** X4. Over a readable document [_extract_text_from_pages] returns, and
    the newlines of the text it returns are exactly the two between one
    page and the next: with [n] pages in the range, clipped at the end of
    the document, the text holds [2 * (n - 1)] newlines. *)
Theorem page_range_text_newlines (d : PdfDoc) (start_page end_page : Z) :
  readable d ->
  exists text,
    PDFParser._extract_text_from_pages d start_page end_page = Ok text
    /\ occurrences newline text
       = (2 * (Z.to_nat (Z.min end_page (Z.of_nat (page_count d))
                         - start_page) - 1))%nat.
Proof.
  intros Hd. unfold PDFParser._extract_text_from_pages.
  edestruct (for_each_ok
               (fun page_num => text <- page_text d page_num ;;
                                Ok (PDFParser._clean_text text)))
    as (parts & -> & Hparts).
  - intros i Hi. apply range_bound in Hi.
    destruct (Hd i) as [t ->]; [lia |]. simpl. eauto.
  - simpl. eexists. split; [reflexivity |].
    rewrite join_occurrences.
    + apply Forall2_length in Hparts. rewrite <- Hparts.
      unfold range. rewrite length_map, length_seq. reflexivity.
    + clear -Hparts.
      induction Hparts as [|i part rest parts Hi _ IH]; constructor;
        [|exact IH].
      destruct (page_text d i) as [t|]; simpl in Hi; [|discriminate].
      injection Hi as <-. apply occurrences_absent, clean_text_one_line.
Qed.

Lemma page_range_text_newlines_witness :
  readable two_pages
  /\ exists text,
      PDFParser._extract_text_from_pages two_pages 0 2 = Ok text
      /\ occurrences newline text = 2%nat.
Proof.
  assert (Hd : readable two_pages)
    by (apply pdf_of_pages_readable; discriminate).
  split; [exact Hd |].
  exact (page_range_text_newlines two_pages 0 2 Hd).
Defined.

(** ** The outline read from the pages *)

Lemma for_each_ext {A B : Type} (f g : A -> res B) (l : list A) :
  (forall a, In a l -> f a = g a) -> for_each f l = for_each g l.
Proof.
  induction l as [|a l IH]; intros H; simpl; [reflexivity |].
  rewrite (H a) by now left. rewrite IH; [reflexivity |].
  intros; apply H; now right.
Qed.

Lemma int_digits_nonneg (s : str) :
  forall acc z, (0 <= acc)%Z -> int_digits s acc = Ok z -> (0 <= z)%Z.
Proof.
  induction s as [|c s IH]; intros acc z Hacc; simpl.
  - intros [= <-]. exact Hacc.
  - destruct (digit_value c) as [v|]; [|discriminate].
    apply IH. lia.
Qed.

Lemma int_nonneg (s : str) (z : Z) : int s = Ok z -> (0 <= z)%Z.
Proof.
  destruct s as [|c s]; [discriminate |]. unfold int.
  destruct (int_max_str_digits <? digit_run (c :: s))%nat; [discriminate |].
  apply int_digits_nonneg. lia.
Qed.

Lemma scan_line_page (line : str) (e : PDFParser.toc_entry) :
  PDFParser.scan_line line = Ok (Some e) -> (0 <= snd e)%Z.
Proof.
  unfold PDFParser.scan_line.
  destruct (re_match PDFParser.lecture_pattern true line) as [m|].
  { destruct (int (group m 3)) eqn:E; simpl; [|discriminate].
    intros [= <-]. simpl. now apply int_nonneg in E. }
  destruct (re_match PDFParser.section_pattern false line) as [m|].
  { destruct (int (group m 4)) eqn:E; simpl; [|discriminate].
    intros [= <-]. simpl. now apply int_nonneg in E. }
  destruct (re_match PDFParser.subsection_pattern false line) as [m|];
    [|discriminate].
  destruct (int (group m 5)) eqn:E; simpl; [|discriminate].
  intros [= <-]. simpl. now apply int_nonneg in E.
Qed.

Lemma scan_page_pages (d : PdfDoc) (n : nat)
  (entries : list PDFParser.toc_entry) :
  PDFParser.scan_page d n = Ok entries ->
  Forall (fun e : PDFParser.toc_entry => (0 <= snd e)%Z) entries.
Proof.
  unfold PDFParser.scan_page.
  destruct (page_text d (Z.of_nat n)) as [text|]; cbn [bind];
    [|discriminate].
  destruct (for_each PDFParser.scan_line (split newline text))
    as [found|] eqn:E; cbn [bind]; [|discriminate].
  intros [= <-]. apply for_each_inv in E.
  induction E as [|line r lines found Hr _ IH]; [constructor |].
  destruct r as [e|]; simpl; [|exact IH].
  constructor; [now apply (scan_line_page line) | exact IH].
Qed.

(** X5. [_extract_toc_manually] reads the first ten pages only (all of
    them in a shorter document): a document that agrees with this one on
    these pages gives the same outcome, the same entries or the same
    exception, whatever its other pages hold and whether or not they can be
    read. Every page number it returns is at least 0. It returns when
    these pages can be read and hold no line of more than 4300 characters
    (a longer line may hold a page number that [int] refuses). *)
Theorem manual_outline_reads_ten_pages (d : PdfDoc) :
  (forall d',
      Nat.min 10 (page_count d') = Nat.min 10 (page_count d) ->
      (forall i, (i < Nat.min 10 (page_count d))%nat ->
                 page_text d' (Z.of_nat i) = page_text d (Z.of_nat i)) ->
      PDFParser._extract_toc_manually d' = PDFParser._extract_toc_manually d)
  /\ (forall entries,
         PDFParser._extract_toc_manually d = Ok entries ->
         Forall (fun e : PDFParser.toc_entry => (0 <= snd e)%Z) entries)
  /\ (short_lines d ->
      exists entries, PDFParser._extract_toc_manually d = Ok entries).
Proof.
  split; [|split].
  - intros d' Hcount Hpages. unfold PDFParser._extract_toc_manually.
    cbv zeta. rewrite Hcount.
    rewrite (for_each_ext (PDFParser.scan_page d') (PDFParser.scan_page d));
      [reflexivity |].
    intros n Hn. apply List.in_seq in Hn. unfold PDFParser.scan_page.
    rewrite Hpages by lia. reflexivity.
  - intros entries. unfold PDFParser._extract_toc_manually. cbv zeta.
    destruct (for_each (PDFParser.scan_page d) _) as [per_page|] eqn:E;
      cbn [bind]; [|discriminate].
    intros [= <-]. apply for_each_inv in E. apply Forall_concat.
    induction E as [|n es ns per_page Hn _ IH]; constructor; [|exact IH].
    now apply (scan_page_pages d n).
  - apply extract_toc_manually_ok.
Qed.

Lemma manual_outline_reads_ten_pages_witness :
  short_lines one_line_document
  /\ exists entries,
      PDFParser._extract_toc_manually one_line_document = Ok entries.
Proof.
  assert (H : short_lines one_line_document).
  { intros i Hi. simpl in Hi. replace i with 0%nat by lia.
    eexists. split; [reflexivity |].
    constructor; [|constructor].
    apply Nat.leb_le. vm_compute. reflexivity. }
  split; [exact H |].
  destruct (manual_outline_reads_ten_pages one_line_document)
    as (_ & _ & Hreturns).
  exact (Hreturns H).
Defined.

(** ** Lines that give an entry *)

Lemma starts_with_app (p s : str) : starts_with p (p ++ s) = true.
Proof.
  induction p as [|c p IH]; simpl; [reflexivity |].
  now rewrite N.eqb_refl, IH.
Qed.

Lemma contains_app (sub a b : str) : contains sub (a ++ sub ++ b) = true.
Proof.
  induction a as [|c a IH].
  - simpl app. destruct (sub ++ b) eqn:E; simpl;
      rewrite <- E, starts_with_app; reflexivity.
  - simpl. rewrite IH. apply orb_true_r.
Qed.

Lemma lower_images_above_O :
  forallb (fun e => match e with
                    | (_, _, _, img) => (79 <? img)%N
                    end) lower_table = true.
Proof. vm_compute. reflexivity. Qed.

Lemma lower_char_image (c : char) :
  lower_char c = c \/ (79 < lower_char c)%N.
Proof.
  unfold lower_char.
  match goal with
  | |- context [find ?f ?l] =>
    destruct (find f l) as [[[[lo hi] stride] img]|] eqn:E
  end; [right | now left].
  apply List.find_some in E as [Hin _].
  pose proof lower_images_above_O as H.
  rewrite List.forallb_forall in H. specialize (H _ Hin). simpl in H.
  apply N.ltb_lt in H. lia.
Qed.

Lemma lit_matches_dot (ic : bool) (c : char) :
  lit_matches ic 46%N c = true -> c = 46%N.
Proof.
  unfold lit_matches. destruct ic; intros H; apply N.eqb_eq in H;
    [|exact H].
  change (lower_char 46%N) with 46%N in H.
  destruct (lower_char_image c) as [E|E]; [congruence | lia].
Qed.

Lemma leaders_need_two_dots (ic : bool) (g : nat) (s s' : cursor) :
  steps ic (leaders_and_page g) s s' -> substring (py "..") (snd s).
Proof.
  unfold leaders_and_page. cbn [steps].
  intros (n1 & _ & _ & n2 & Hn2 & Hdots & _).
  rewrite consume_snd in Hn2, Hdots.
  destruct (drop n1 (snd s)) as [|c1 [|c2 r]] eqn:Er;
    [simpl in Hn2; lia | simpl in Hn2; lia |].
  destruct n2 as [|[|n2]]; [lia | lia |].
  cbn [take] in Hdots.
  inversion Hdots as [|? ? H1 Hdots']; subst.
  inversion Hdots' as [|? ? H2 _]; subst.
  apply lit_matches_dot in H1, H2. subst c1 c2.
  exists (take n1 (snd s)), r.
  rewrite <- (take_drop n1 (snd s)) at 1. now rewrite Er.
Qed.

Lemma substring_drop (x s : str) (n : nat) :
  substring x (drop n s) -> substring x s.
Proof.
  intros (a & b & E). exists (take n s ++ a), b.
  rewrite <- (take_drop n s) at 1. now rewrite E, <- app_assoc.
Qed.

Lemma match_needs_leaders (pattern : str) (ic : bool) (pre : regex)
  (g : nat) (line : str) :
  compile pattern = pre ++ leaders_and_page g ->
  re_match pattern ic line <> None ->
  substring (py "..") line.
Proof.
  intros Hre Hm. unfold re_match in Hm. rewrite Hre in Hm.
  destruct (exec ic (pre ++ leaders_and_page g) no_captures None 0 line)
    as [r|] eqn:E; [clear Hm | now contradiction Hm].
  apply exec_steps in E as [s' E].
  apply steps_app in E as (s1 & H1 & H2).
  apply steps_suffix in H1 as [n Hn]. apply leaders_need_two_dots in H2.
  rewrite Hn in H2. simpl in H2. now apply substring_drop in H2.
Qed.

Lemma lecture_pattern_parts :
  compile PDFParser.lecture_pattern
  = [Bol; One (Lit 1051%N); One (Lit 1077%N); One (Lit 1082%N);
     One (Lit 1094%N); One (Lit 1080%N); One (Lit 1103%N);
     Repeat Space 1 true; Open 1; Repeat Digit 1 true; Close 1;
     Repeat (Class false [CChar 46%N; CSpace]) 1 true;
     Open 2; Repeat Any 0 false; Close 2]
    ++ leaders_and_page 3.
Proof. vm_compute. reflexivity. Qed.

(** X6. A line of a page gives an entry of the manual outline only if it
    holds dot leaders, two dots in a row; a line without them gives none,
    and raises nothing. So the line that the comment of the source gives as
    its example, whose leaders are dots with a space between them, gives
    no entry. *)
Theorem scan_line_needs_dot_leaders (line : str) :
  (forall e, PDFParser.scan_line line = Ok (Some e) ->
             substring (py "..") line)
  /\ (~ substring (py "..") line -> PDFParser.scan_line line = Ok None).
Proof.
  assert (H : forall e, PDFParser.scan_line line = Ok (Some e) ->
                        substring (py "..") line).
  { unfold PDFParser.scan_line. intros e H.
    destruct (re_match PDFParser.lecture_pattern true line) eqn:E1.
    { apply (match_needs_leaders _ true _ 3 line lecture_pattern_parts).
      now rewrite E1. }
    destruct (re_match PDFParser.section_pattern false line) eqn:E2.
    { apply (match_needs_leaders PDFParser.section_pattern false
                                 (numeric_prefix ++ section_middle) 4 line).
      - rewrite section_pattern_parts. now rewrite app_assoc.
      - now rewrite E2. }
    destruct (re_match PDFParser.subsection_pattern false line) eqn:E3;
      [|discriminate].
    apply (match_needs_leaders PDFParser.subsection_pattern false
                               (numeric_prefix ++ subsection_middle) 5 line).
    - rewrite subsection_pattern_parts. now rewrite app_assoc.
    - now rewrite E3. }
  split; [exact H |].
  intros Hno. unfold PDFParser.scan_line.
  destruct (re_match PDFParser.lecture_pattern true line) eqn:E1.
  { contradiction Hno.
    apply (match_needs_leaders _ true _ 3 line lecture_pattern_parts).
    now rewrite E1. }
  destruct (re_match PDFParser.section_pattern false line) eqn:E2.
  { contradiction Hno.
    apply (match_needs_leaders PDFParser.section_pattern false
                               (numeric_prefix ++ section_middle) 4 line).
    - rewrite section_pattern_parts. now rewrite app_assoc.
    - now rewrite E2. }
  destruct (re_match PDFParser.subsection_pattern false line) eqn:E3;
    [|reflexivity].
  contradiction Hno.
  apply (match_needs_leaders PDFParser.subsection_pattern false
                             (numeric_prefix ++ subsection_middle) 5 line).
  - rewrite subsection_pattern_parts. now rewrite app_assoc.
  - now rewrite E3.
Qed.

Lemma scan_line_needs_dot_leaders_witness :
  PDFParser.scan_line (py "1.1 Введение в алгоритмы . . . . . . . . 5")
  = Ok None.
Proof.
  apply (scan_line_needs_dot_leaders
           (py "1.1 Введение в алгоритмы . . . . . . . . 5")).
  intros (a & b & E).
  pose proof (contains_app (py "..") a b) as H.
  rewrite <- E in H. vm_compute in H. discriminate.
Defined.

(** ** The kind of a heading *)

Lemma compile_numbered_heading :
  compile (py "^\d+\.") = [Bol; Repeat Digit 1 true; One (Lit 46%N)].
Proof. vm_compute. reflexivity. Qed.

Lemma numbered_heading_matches (ds rest : str) :
  ds <> [] ->
  Forall (fun c => is_digit c = true) ds ->
  re_match (py "^\d+\.") false (ds ++ 46%N :: rest) <> None.
Proof.
  intros Hne Hds. unfold re_match. rewrite compile_numbered_heading.
  assert (Hs : steps false [Bol; Repeat Digit 1 true; One (Lit 46%N)]
                     (None, 0%nat, ds ++ 46%N :: rest)
                     (consume 1 (consume (length ds)
                                         (None, 0%nat, ds ++ 46%N :: rest)))).
  { cbn [steps]. split; [reflexivity |]. exists (length ds).
    split; [|split].
    - simpl. rewrite length_app. destruct ds; [contradiction | simpl; lia].
    - simpl snd. now rewrite take_app_length.
    - rewrite consume_snd. simpl snd. rewrite drop_app_length.
      split; reflexivity. }
  apply (steps_exec _ _ no_captures) in Hs.
  destruct (exec false _ no_captures None 0 _) as [[e st]|];
    [discriminate | now contradiction Hs].
Qed.

(** X7. [_classify_heading] answers one of [lecture], [section],
    [subsection] and [unknown]. A heading of level 1 is a lecture, and so
    is a heading whose title holds the word [лекция] in any letter case,
    whatever its level. A title that starts with digits and a dot is a
    lecture or a section, never a subsection, whatever its level. The
    answer [subsection] needs a level of 3 or more, the answer [unknown] a
    level of 0 or less. *)
Theorem classify_heading_cases (level : Z) (title : str) :
  In (PDFParser._classify_heading level title) heading_kinds
  /\ (level = 1%Z -> PDFParser._classify_heading level title = py "lecture")
  /\ (forall a w b,
         title = a ++ w ++ b -> lower w = py "лекция" ->
         PDFParser._classify_heading level title = py "lecture")
  /\ (forall ds rest,
         title = ds ++ 46%N :: rest -> ds <> [] ->
         Forall (fun c => is_digit c = true) ds ->
         PDFParser._classify_heading level title = py "lecture"
         \/ PDFParser._classify_heading level title = py "section")
  /\ (PDFParser._classify_heading level title = py "subsection" ->
      (3 <= level)%Z)
  /\ (PDFParser._classify_heading level title = py "unknown" ->
      (level <= 0)%Z).
Proof.
  unfold PDFParser._classify_heading, heading_kinds. cbv zeta.
  split; [|split; [|split; [|split; [|split]]]].
  - destruct (_ || _); [now left |].
    destruct (_ || _); [right; now left |].
    destruct (3 <=? level)%Z; [right; right; now left |].
    right; right; right; now left.
  - intros ->. now rewrite orb_true_r.
  - intros a w b -> Hw. unfold lower in *.
    rewrite !map_app, Hw, contains_app. reflexivity.
  - intros ds rest -> Hne Hds.
    destruct (_ || _); [now left |]. right.
    pose proof (numbered_heading_matches ds rest Hne Hds) as Hm.
    destruct (re_match _ false _); [|now contradiction Hm].
    now rewrite orb_true_r.
  - destruct (_ || _); [intros E; vm_compute in E; discriminate |].
    destruct (_ || _); [intros E; vm_compute in E; discriminate |].
    destruct (Z.leb_spec 3 level) as [Hle|Hlt]; [intros _; exact Hle |].
    intros E; vm_compute in E; discriminate.
  - destruct (contains _ _); [intros E; vm_compute in E; discriminate |].
    destruct (Z.eqb_spec level 1) as [|H1];
      [intros E; vm_compute in E; discriminate |].
    destruct (Z.eqb_spec level 2) as [|H2];
      [intros E; vm_compute in E; discriminate |].
    simpl orb.
    destruct (re_match _ false _);
      [intros E; vm_compute in E; discriminate |].
    destruct (Z.leb_spec 3 level) as [Hle|Hlt];
      [intros E; vm_compute in E; discriminate |].
    intros _. lia.
Qed.

(** ** Nested sections *)

Lemma in_range (a b x : Z) : In x (range a b) <-> (a <= x < b)%Z.
Proof.
  unfold range. rewrite List.in_map_iff. split.
  - intros (k & <- & Hk). apply List.in_seq in Hk. lia.
  - intros H. exists (Z.to_nat (x - a)). split; [lia |].
    apply List.in_seq. lia.
Qed.

(** X8. In an outline whose pages do not decrease and lie in the document,
    a section nested in another (every entry after the outer one, up to
    and including the inner one, lies deeper than the outer one) ends no
    later than the outer one, and every page read for the inner section is
    read for the outer one as well. *)
Theorem nested_section_ends_within_parent (d : PdfDoc)
  (entries : list PDFParser.toc_entry) (i j : nat)
  (lvi lvj : Z) (ti tj : str) (pgi pgj : Z) :
  (i < j)%nat ->
  entries !! i = Some (lvi, ti, pgi) ->
  entries !! j = Some (lvj, tj, pgj) ->
  (forall k lvk tk pgk, (i < k <= j)%nat ->
                        entries !! k = Some (lvk, tk, pgk) ->
                        (lvi < lvk)%Z) ->
  pages_in_order entries (page_count d) ->
  (PDFParser.find_end_page d entries j lvj
   <= PDFParser.find_end_page d entries i lvi)%Z
  /\ forall page,
      In page (range (pgj - 1)
                     (Z.min (PDFParser.find_end_page d entries j lvj)
                            (Z.of_nat (page_count d)))) ->
      In page (range (pgi - 1)
                     (Z.min (PDFParser.find_end_page d entries i lvi)
                            (Z.of_nat (page_count d)))).
Proof.
  intros Hij Hi Hj Hdeep Hord.
  assert (Hlv : (lvi < lvj)%Z)
    by (apply (Hdeep j lvj tj pgj); [lia | exact Hj]).
  assert (Hpg : (pgi <= pgj)%Z).
  { destruct (Hord i j _ _ ltac:(lia) Hi Hj) as [H _]. exact H. }
  assert (Hend : (PDFParser.find_end_page d entries j lvj
                  <= PDFParser.find_end_page d entries i lvi)%Z).
  { destruct (find_end_page_first d entries j lvj)
      as [(k' & lvk' & tk' & pgk' & Hjk' & Hk' & Hle' & Hbetween' & ->)
         | [Hnone' ->]];
      destruct (find_end_page_first d entries i lvi)
        as [(k & lvk & tk & pgk & Hik & Hk & Hle & Hbetween & ->)
           | [Hnone ->]].
    - assert (Hjk : (j < k)%nat).
      { destruct (Nat.lt_ge_cases j k) as [H|H]; [exact H |].
        specialize (Hdeep k lvk tk pgk ltac:(lia) Hk). lia. }
      assert (Hk'k : (k' <= k)%nat).
      { destruct (Nat.le_gt_cases k' k) as [H|H]; [exact H |].
        specialize (Hbetween' k lvk tk pgk ltac:(lia) Hk). lia. }
      destruct (Hord k' k _ _ Hk'k Hk' Hk) as [H _]. simpl in H. lia.
    - destruct (Hord k' k' _ _ (Nat.le_refl _) Hk' Hk') as [_ H].
      simpl in H. lia.
    - assert (Hjk : (j < k)%nat).
      { destruct (Nat.lt_ge_cases j k) as [H|H]; [exact H |].
        specialize (Hdeep k lvk tk pgk ltac:(lia) Hk). lia. }
      specialize (Hnone' k lvk tk pgk Hjk Hk). lia.
    - lia. }
  split; [exact Hend |].
  intros page. rewrite !in_range. lia.
Qed.

Lemma nested_section_ends_within_parent_witness :
  (PDFParser.find_end_page (pdf_of_pages ten_pages []) three_entries 1 2
   <= PDFParser.find_end_page (pdf_of_pages ten_pages []) three_entries 0 1)%Z.
Proof.
  apply (nested_section_ends_within_parent
           (pdf_of_pages ten_pages []) three_entries 0 1 1 2
           (py "Лекция 1") (py "1.1") 1 2).
  - lia.
  - reflexivity.
  - reflexivity.
  - intros k lvk tk pgk Hk. replace k with 1%nat by lia.
    intros [= <- _ _]. lia.
  - intros [|[|[|a]]] [|[|[|b]]] ea eb Hab; simpl;
      intros [= <-] [= <-]; simpl; lia.
Defined.

(** X9. A section whose next entry is not deeper and starts on the same
    page or an earlier one ends on the page before that entry: no page is
    read for it, its content is empty, and [split_section] gives it no
    document. *)
Theorem heading_on_the_page_of_the_next_is_empty (d : PdfDoc)
  (entries : list PDFParser.toc_entry) (i : nat)
  (lv lv' : Z) (ti ti' : str) (pg pg' : Z) :
  entries !! i = Some (lv, ti, pg) ->
  entries !! S i = Some (lv', ti', pg') ->
  (lv' <= lv)%Z ->
  (pg' <= pg)%Z ->
  exists s,
    PDFParser.section_at d entries (i, (lv, ti, pg)) = Ok s
    /\ PDFParser.end_page s = (pg' - 1)%Z
    /\ PDFParser.content s = []
    /\ forall split_text set_order self parent,
        SmartTextSplitter.split_section split_text set_order self s parent
        = [].
Proof.
  intros Hi Hnext Hlv Hpg.
  assert (Hend : PDFParser.find_end_page d entries i lv = (pg' - 1)%Z).
  { unfold PDFParser.find_end_page.
    assert (Hd : drop (S i) entries
                 = (lv', ti', pg') :: drop (S (S i)) entries)
      by (apply drop_S; exact Hnext).
    rewrite Hd. cbn [find].
    destruct (Z.leb_spec lv' lv); [reflexivity | lia]. }
  unfold PDFParser.section_at. rewrite Hend.
  unfold PDFParser._extract_text_from_pages.
  rewrite range_empty by lia. cbn [for_each bind join].
  eexists. split; [reflexivity |]. cbn [PDFParser.end_page PDFParser.content].
  split; [reflexivity |]. split; [reflexivity |]. intros.
  unfold SmartTextSplitter.split_section. reflexivity.
Qed.

Lemma heading_on_the_page_of_the_next_is_empty_witness :
  exists s,
    PDFParser.section_at (pdf_of_pages ten_pages []) unordered_outline
                         (1%nat, (1%Z, py "B", 9%Z)) = Ok s
    /\ PDFParser.content s = [].
Proof.
  destruct (heading_on_the_page_of_the_next_is_empty
              (pdf_of_pages ten_pages []) unordered_outline 1
              1 1 (py "B") (py "C") 9 4 eq_refl eq_refl)
    as (s & E & _ & Hc & _); [lia | lia |].
  exists s. split; [exact E | exact Hc].
Defined.

(** ** The ancestors of a section *)

Lemma walk_back_chain (before : list PDFParser.Section) :
  forall (current_level : Z) (acc : list str),
  exists picked,
    DatabasePopulator.walk_back before current_level acc
    = map PDFParser.title (rev picked) ++ acc
    /\ sublist picked before
    /\ descending_from current_level picked.
Proof.
  induction before as [|s before IH]; intros current_level acc; simpl.
  - exists []. repeat split. constructor.
  - destruct (Z.ltb_spec (PDFParser.level s) current_level) as [Hlt|Hge].
    + destruct (Z.eqb_spec (PDFParser.level s) 1) as [E|E].
      * exists [s]. simpl. repeat split; [|exact Hlt].
        apply sublist_skip, sublist_nil_l.
      * destruct (IH (PDFParser.level s) (PDFParser.title s :: acc))
          as (picked & -> & Hsub & Hdesc).
        exists (s :: picked). simpl. rewrite map_app, <- app_assoc.
        repeat split; [now apply sublist_skip | exact Hlt | exact Hdesc].
    + destruct (IH current_level acc) as (picked & -> & Hsub & Hdesc).
      exists picked. repeat split; [now apply sublist_cons | exact Hdesc].
Qed.

Lemma descending_depth (chain : list PDFParser.Section) :
  forall current_level,
    (1 <= current_level)%Z ->
    descending_from current_level chain ->
    Forall (fun s => (1 <= PDFParser.level s)%Z) chain ->
    (Z.of_nat (length chain) <= current_level - 1)%Z.
Proof.
  induction chain as [|s chain IH]; intros current_level Hcl; simpl.
  - intros _ H. lia.
  - intros [Hlt Hdesc] Hall. inversion Hall as [|? ? Hs Hall']; subst.
    specialize (IH _ Hs Hdesc Hall'). lia.
Qed.

Lemma sublist_rev {A : Type} (l k : list A) :
  sublist l k -> sublist (rev l) (rev k).
Proof.
  induction 1 as [|x l k _ IH|x l k _ IH]; simpl.
  - constructor.
  - now apply sublist_app.
  - now apply sublist_inserts_r.
Qed.

(** X10. The ancestors that [_build_hierarchy] returns for a section are
    the titles of a chain of sections before it, in the order of the
    document, whose levels rise strictly along the chain and stay below the
    level of the section; when no level is below 1 the chain has at most
    [level - 1] members. *)
Theorem build_hierarchy_is_a_chain (sections : list PDFParser.Section)
  (index : nat) (current : PDFParser.Section) :
  sections !! index = Some current ->
  exists chain,
    DatabasePopulator._build_hierarchy sections (Z.of_nat index)
    = Ok (map PDFParser.title chain)
    /\ sublist chain (take index sections)
    /\ descending_from (PDFParser.level current) (rev chain)
    /\ (Forall (fun s => (1 <= PDFParser.level s)%Z) sections ->
        (Z.of_nat (length chain) <= PDFParser.level current - 1)%Z).
Proof.
  intros Hcur. unfold DatabasePopulator._build_hierarchy.
  rewrite (getitem_nat _ _ _ Hcur). cbn [bind]. rewrite Nat2Z.id.
  destruct (walk_back_chain (rev (take index sections))
                            (PDFParser.level current) [])
    as (picked & -> & Hsub & Hdesc).
  exists (rev picked). rewrite app_nil_r, rev_involutive.
  split; [reflexivity |]. split; [|split; [exact Hdesc |]].
  - apply sublist_rev in Hsub. now rewrite rev_involutive in Hsub.
  - intros Hall. rewrite length_rev. rewrite Forall_forall in Hall.
    apply descending_depth; [|exact Hdesc |].
    + apply Hall. now apply list_elem_of_lookup_2 in Hcur.
    + apply Forall_forall. intros s Hs. apply Hall.
      apply (elem_of_sublist _ _ _ Hs) in Hsub.
      apply list_elem_of_In, List.in_rev, list_elem_of_In in Hsub.
      apply (elem_of_sublist _ _ _ Hsub), sublist_take.
Qed.

Lemma build_hierarchy_is_a_chain_witness :
  exists chain,
    DatabasePopulator._build_hierarchy nested_sections (Z.of_nat 2)
    = Ok (map PDFParser.title chain)
    /\ sublist chain (take 2 nested_sections).
Proof.
  destruct (build_hierarchy_is_a_chain nested_sections 2 _ eq_refl)
    as (chain & E & Hsub & _).
  exists chain. split; [exact E | exact Hsub].
Defined.

(** X11. [_build_hierarchy] at the ends of the list: an index at or past
    the length, or below minus the length, raises the [IndexError]; a
    negative index within the list, and the index 0 of a list that is not
    empty, give no ancestors. *)
Theorem build_hierarchy_index_edges (sections : list PDFParser.Section)
  (current_index : Z) :
  ((current_index < - Z.of_nat (length sections)
    \/ Z.of_nat (length sections) <= current_index)%Z ->
   DatabasePopulator._build_hierarchy sections current_index
   = Raise (py "list index out of range"))
  /\ ((- Z.of_nat (length sections) <= current_index <= 0)%Z ->
      (current_index < Z.of_nat (length sections))%Z ->
      DatabasePopulator._build_hierarchy sections current_index = Ok []).
Proof.
  unfold DatabasePopulator._build_hierarchy, getitem. cbv zeta. split.
  - intros [Hlow|Hhigh].
    + destruct (Z.ltb_spec current_index 0); [|lia].
      destruct (Z.ltb_spec (current_index + Z.of_nat (length sections)) 0);
        [reflexivity | lia].
    + destruct (Z.ltb_spec current_index 0); [lia |].
      destruct (Z.ltb_spec current_index 0); [lia |].
      rewrite lookup_ge_None_2 by lia. reflexivity.
  - intros Hrange Hlt.
    replace (Z.to_nat current_index) with 0%nat by lia.
    destruct (Z.ltb_spec current_index 0).
    + destruct (Z.ltb_spec (current_index + Z.of_nat (length sections)) 0);
        [lia |].
      destruct (lookup_lt_is_Some_2 sections
                  (Z.to_nat (current_index + Z.of_nat (length sections))))
        as [s ->]; [lia |]. reflexivity.
    + destruct (Z.ltb_spec current_index 0); [lia |].
      replace (Z.to_nat current_index) with 0%nat by lia.
      destruct (lookup_lt_is_Some_2 sections 0) as [s ->]; [lia |].
      reflexivity.
Qed.

(** ** The documents of a section *)

Lemma map_lookup {A B : Type} (f : A -> B) (l : list A) (i : nat) :
  map f l !! i = option_map f (l !! i).
Proof.
  revert i. induction l as [|a l IH]; intros [|i]; simpl; auto.
Qed.

Lemma map_snd_enumerate {A : Type} (l : list A) :
  map snd (enumerate l) = l.
Proof.
  unfold enumerate. generalize 0%nat.
  induction l as [|a l IH]; intros start; simpl; [reflexivity |].
  now rewrite IH.
Qed.

Section Chunks.
Import SmartTextSplitter.

Variable split_text : SmartTextSplitter.t -> str -> list str.
Variable set_order : list str -> list str.

(** X12. For a section with content, the documents of [split_section]
    hold the chunks of the splitter, one each and in its order; the
    document at position [i] carries [chunk_index = i], the number of
    documents as [total_chunks], the fixed source name [algobook.pdf], the
    title and the start page of the section, and the concepts of its own
    chunk joined by a comma. *)
Theorem split_section_numbers_the_chunks (self : SmartTextSplitter.t)
  (section_data : PDFParser.Section) (parent_hierarchy : option (list str)) :
  PDFParser.content section_data <> [] ->
  map page_content
      (split_section split_text set_order self section_data parent_hierarchy)
  = split_text self (PDFParser.content section_data)
  /\ forall i doc,
      split_section split_text set_order self section_data parent_hierarchy
        !! i = Some doc ->
      metadata doc !! "chunk_index"%string = Some (PInt (Z.of_nat i))
      /\ metadata doc !! "total_chunks"%string
         = Some (PInt (Z.of_nat
                         (length (split_section split_text set_order self
                                                section_data
                                                parent_hierarchy))))
      /\ metadata doc !! "source"%string = Some (PStr (py "algobook.pdf"))
      /\ metadata doc !! "title"%string
         = Some (PStr (PDFParser.title section_data))
      /\ metadata doc !! "page"%string
         = Some (PInt (PDFParser.start_page section_data))
      /\ metadata doc !! "concepts"%string
         = Some (PStr (join (py ", ")
                            (_extract_concepts set_order (page_content doc)))).
Proof.
  intros Hne. unfold split_section.
  destruct (PDFParser.content section_data) as [|c0 content] eqn:Ec;
    [contradiction |].
  cbv zeta. split.
  - rewrite List.map_map. simpl. apply map_snd_enumerate.
  - intros i doc. rewrite map_lookup, length_map, enumerate_length.
    unfold enumerate. rewrite enumerate_lookup_from.
    destruct (split_text self (c0 :: content) !! i) as [chunk|];
      [|discriminate].
    simpl. intros [= <-]. simpl. repeat split; now simplify_map_eq.
Qed.

Lemma split_section_metadata_primitive (self : SmartTextSplitter.t)
  (section_data : PDFParser.Section) (parent_hierarchy : option (list str))
  (doc : Document) :
  In doc (split_section split_text set_order self section_data
                        parent_hierarchy) ->
  map_Forall (fun _ value => primitive value) (metadata doc).
Proof.
  unfold split_section.
  destruct (PDFParser.content section_data) as [|c0 content]; [intros [] |].
  cbv zeta. intros H. apply List.in_map_iff in H as ([i chunk] & <- & _).
  cbn [metadata]. intros key value Hkv.
  apply elem_of_list_to_map_2, list_elem_of_In in Hkv. simpl in Hkv.
  repeat (destruct Hkv as [[= <- <-]|Hkv]; [exact I |]). destruct Hkv.
Qed.

End Chunks.

Lemma split_section_numbers_the_chunks_witness :
  map SmartTextSplitter.page_content
      (SmartTextSplitter.split_section
         one_chunk first_seen (SmartTextSplitter.init 1000 200 None)
         section_1_1 None)
  = one_chunk (SmartTextSplitter.init 1000 200 None)
              (PDFParser.content section_1_1).
Proof.
  apply (split_section_numbers_the_chunks
           one_chunk first_seen (SmartTextSplitter.init 1000 200 None)
           section_1_1 None).
  discriminate.
Defined.

(** ** Cleaning the metadata *)

Lemma clean_metadata_primitive
  (metadata : gmap string SmartTextSplitter.pyval) :
  map_Forall (fun _ value => primitive value) metadata ->
  VectorStoreManager._clean_metadata metadata = metadata.
Proof.
  intros H. unfold VectorStoreManager._clean_metadata.
  apply map_eq. intros key. rewrite lookup_fmap.
  destruct (metadata !! key) as [value|] eqn:E; [|reflexivity].
  simpl. f_equal. specialize (H key value E).
  destruct value; [reflexivity | reflexivity | destruct H].
Qed.

Lemma cleaned_metadata_primitive
  (metadata : gmap string SmartTextSplitter.pyval) :
  map_Forall (fun _ value => primitive value)
             (VectorStoreManager._clean_metadata metadata).
Proof.
  intros key value. unfold VectorStoreManager._clean_metadata.
  rewrite lookup_fmap.
  destruct (metadata !! key) as [v|]; [|discriminate].
  simpl. intros [= <-]. now destruct v.
Qed.

(** X13. [_clean_metadata], on a dictionary of strings, integers and lists
    of strings, keeps the keys, leaves no list behind, turns a list into
    its members joined by a comma, keeps a string or an integer as it is,
    and is idempotent. *)
Theorem clean_metadata_flattens_lists
  (metadata : gmap string SmartTextSplitter.pyval) :
  dom (VectorStoreManager._clean_metadata metadata) = dom metadata
  /\ map_Forall (fun _ value => primitive value)
                (VectorStoreManager._clean_metadata metadata)
  /\ (forall key l,
         metadata !! key = Some (SmartTextSplitter.PList l) ->
         VectorStoreManager._clean_metadata metadata !! key
         = Some (SmartTextSplitter.PStr (join (py ", ") l)))
  /\ (forall key value,
         metadata !! key = Some value -> primitive value ->
         VectorStoreManager._clean_metadata metadata !! key = Some value)
  /\ VectorStoreManager._clean_metadata
       (VectorStoreManager._clean_metadata metadata)
     = VectorStoreManager._clean_metadata metadata.
Proof.
  split; [apply dom_fmap_L |].
  split; [apply cleaned_metadata_primitive |].
  split; [|split].
  - intros key l H. unfold VectorStoreManager._clean_metadata.
    now rewrite lookup_fmap, H.
  - intros key value H Hp. unfold VectorStoreManager._clean_metadata.
    rewrite lookup_fmap, H. now destruct value.
  - apply clean_metadata_primitive, cleaned_metadata_primitive.
Qed.

(** X14. The metadata that [split_section] builds holds no list, so
    [add_documents] hands the documents of the pipeline to the collection
    exactly as they are. *)
Theorem pipeline_documents_are_stored_unchanged
  (split_text : SmartTextSplitter.t -> str -> list str)
  (set_order : list str -> list str)
  (store : VectorStoreManager.t)
  (documents : list SmartTextSplitter.Document) :
  Forall (fun doc =>
            exists self section_data parent_hierarchy,
              In doc (SmartTextSplitter.split_section
                        split_text set_order self section_data
                        parent_hierarchy)) documents ->
  VectorStoreManager.add_documents store documents
  = VectorStoreManager.vectorstore_add_documents store documents.
Proof.
  intros H. unfold VectorStoreManager.add_documents. f_equal.
  induction H as [|doc documents (self & sec & parent & Hdoc) _ IH];
    [reflexivity |].
  simpl. rewrite IH. f_equal.
  rewrite (clean_metadata_primitive (SmartTextSplitter.metadata doc)).
  - now destruct doc.
  - eapply split_section_metadata_primitive. exact Hdoc.
Qed.

Lemma pipeline_documents_are_stored_unchanged_witness :
  VectorStoreManager.add_documents
    fresh_store
    (SmartTextSplitter.split_section
       one_chunk first_seen (SmartTextSplitter.init 1000 200 None)
       section_1_1 None)
  = VectorStoreManager.vectorstore_add_documents
      fresh_store
      (SmartTextSplitter.split_section
         one_chunk first_seen (SmartTextSplitter.init 1000 200 None)
         section_1_1 None).
Proof.
  apply (pipeline_documents_are_stored_unchanged one_chunk first_seen).
  apply List.Forall_forall. intros doc Hdoc.
  exists (SmartTextSplitter.init 1000 200 None), section_1_1, None.
  exact Hdoc.
Defined.

(** ** The concepts of a chunk *)

Lemma scan_subject (ic : bool) (re : regex) (whole : str) (m : Match) :
  forall (rest : str) (prev : option char) (pos skip : nat),
    In m (scan ic re whole prev pos rest skip) -> subject m = whole.
Proof.
  induction rest as [|c rest IH]; intros prev pos skip; simpl.
  - destruct skip; [|intros []].
    destruct (exec ic re no_captures prev pos []) as [[e st]|];
      [|intros []].
    intros [<-|[]]. reflexivity.
  - destruct skip as [|skip]; [|apply IH].
    destruct (exec ic re no_captures prev pos (c :: rest)) as [[e st]|];
      [|apply IH].
    intros [<-|H]; [reflexivity | now apply IH in H].
Qed.

Lemma group_substring (m : Match) (g : nat) :
  substring (group m g) (subject m).
Proof.
  unfold group. destruct (assoc g (spans m)) as [[s e]|].
  - exists (take s (subject m)), (drop (e - s) (drop s (subject m))).
    now rewrite (take_drop (e - s)), take_drop.
  - exists [], (subject m). reflexivity.
Qed.

Lemma findall_substring (pattern s x : str) :
  In x (findall pattern s) -> substring x s.
Proof.
  unfold findall. intros H. apply List.in_map_iff in H as (m & <- & Hm).
  apply scan_subject in Hm. rewrite <- Hm. apply group_substring.
Qed.

(** X15. Whatever the order of the set, the concepts of a text are
    pairwise distinct, and each of them is a piece of the lower-cased text:
    a run of consecutive characters of it. *)
Theorem concepts_are_distinct_substrings (set_order : list str -> list str)
  (text : str) :
  is_set_order set_order ->
  NoDup (SmartTextSplitter._extract_concepts set_order text)
  /\ forall x,
      In x (SmartTextSplitter._extract_concepts set_order text) ->
      substring x (lower text).
Proof.
  intros Hs. split.
  - unfold SmartTextSplitter._extract_concepts.
    eapply sublist_NoDup; [apply Hs | apply sublist_take].
  - intros x Hx. apply extract_concepts_sound in Hx; [|exact Hs].
    unfold SmartTextSplitter.concept_matches in Hx.
    apply List.in_flat_map in Hx as (pattern & _ & Hx).
    now apply findall_substring in Hx.
Qed.

Lemma concepts_are_distinct_substrings_witness :
  NoDup (SmartTextSplitter._extract_concepts first_seen sample_text).
Proof.
  apply (concepts_are_distinct_substrings first_seen sample_text).
  exact first_seen_is_set_order.
Defined.

Lemma lower_char_not_O (c : char) : lower_char c <> 79%N.
Proof.
  unfold lower_char.
  match goal with
  | |- context [find ?f ?l] =>
    destruct (find f l) as [[[[lo hi] stride] img]|] eqn:E
  end.
  - apply List.find_some in E as [Hin _].
    pose proof lower_images_above_O as H.
    rewrite List.forallb_forall in H. specialize (H _ Hin). simpl in H.
    apply N.ltb_lt in H. lia.
  - intros ->.
    pose proof (List.find_none _ _ E (65, 90, 1, 97)%N) as E'.
    unfold lower_table in E'. specialize (E' (or_introl eq_refl)).
    vm_compute in E'. discriminate.
Qed.

Lemma compile_asymptotic_pattern :
  compile asymptotic_pattern
  = [Boundary; Open 1; One (Lit 79%N); One (Lit 40%N);
     Repeat (Class true [CChar 41%N]) 1 true; One (Lit 41%N); Close 1].
Proof. vm_compute. reflexivity. Qed.

Lemma scan_without_first_letter (x : char) (re : regex) (whole : str) :
  forall (rest : str) (prev : option char) (pos : nat),
    Forall (fun c => c <> x) rest ->
    scan false (Boundary :: Open 1 :: One (Lit x) :: re) whole prev pos rest 0
    = [].
Proof.
  induction rest as [|c rest IH]; intros prev pos Hrest.
  - simpl. now destruct (xorb _ _).
  - inversion Hrest as [|? ? Hc Hrest']; subst.
    cbn [scan exec]. cbn [atom_matches lit_matches].
    destruct (N.eqb_spec c x) as [->|_]; [contradiction |].
    destruct (xorb _ _); now apply IH.
Qed.

(** X16. The pattern of the asymptotic notation, which starts with a
    capital [O], is one of the concept patterns and finds nothing in any
    text: the text is lower-cased before the search, and lower-casing
    leaves no capital [O]. *)
Theorem asymptotic_pattern_never_matches (text : str) :
  In asymptotic_pattern SmartTextSplitter.concept_patterns
  /\ findall asymptotic_pattern (lower text) = [].
Proof.
  split; [right; right; left; reflexivity |].
  unfold findall. rewrite compile_asymptotic_pattern.
  rewrite scan_without_first_letter; [reflexivity |].
  unfold lower. apply List.Forall_map, List.Forall_forall.
  intros c _. apply lower_char_not_O.
Qed.

(** ** The outline and the sections *)

Lemma section_at_type (d : PdfDoc) (entries : list PDFParser.toc_entry)
  (i : nat) (lv : Z) (ti : str) (pg : Z) (s : PDFParser.Section) :
  PDFParser.section_at d entries (i, (lv, ti, pg)) = Ok s ->
  PDFParser.type s = PDFParser._classify_heading lv ti.
Proof.
  unfold PDFParser.section_at.
  destruct (PDFParser._extract_text_from_pages _ _ _) as [text|];
    simpl; [|discriminate].
  now intros [= <-].
Qed.

Lemma extract_then_slice (p0 : PDFParser.t) :
  readable (PDFParser.doc p0) ->
  (exists r, PDFParser.extract_toc p0 = Ok r) ->
  exists p outline sections,
    PDFParser.extract_toc p0 = Ok (p, outline)
    /\ PDFParser.doc p = PDFParser.doc p0
    /\ outline
       = map (fun e : PDFParser.toc_entry =>
                match e with
                | (level, title, page) =>
                  {| PDFParser.oe_level := level;
                     PDFParser.oe_title := strip title;
                     PDFParser.oe_page := page;
                     PDFParser.oe_type :=
                       PDFParser._classify_heading level title |}
                end) (PDFParser.toc p)
    /\ PDFParser.extract_content_by_toc p = Ok (p, sections)
    /\ Forall2 (fun ie s =>
                  PDFParser.section_at (PDFParser.doc p) (PDFParser.toc p) ie
                  = Ok s)
               (enumerate (PDFParser.toc p)) sections
    /\ length sections = length outline.
Proof.
  intros Hd [r Er].
  assert (Hn : exists new_toc,
             match get_toc (PDFParser.doc p0) with
             | _ :: _ => Ok (get_toc (PDFParser.doc p0))
             | [] => PDFParser._extract_toc_manually (PDFParser.doc p0)
             end = Ok new_toc).
  { unfold PDFParser.extract_toc in Er. cbv zeta in Er.
    destruct (get_toc (PDFParser.doc p0)); [|eauto].
    destruct (PDFParser._extract_toc_manually (PDFParser.doc p0));
      [eauto | discriminate]. }
  clear r Er.
  destruct Hn as [new_toc Hn].
  set (p := {| PDFParser.doc := PDFParser.doc p0;
               PDFParser.toc := new_toc |}).
  assert (E1 : forall q, PDFParser.doc q = PDFParser.doc p0 ->
                         exists outline,
                           PDFParser.extract_toc q = Ok (p, outline)
                           /\ outline
                              = map (fun e : PDFParser.toc_entry =>
                                       match e with
                                       | (level, title, page) =>
                                         {| PDFParser.oe_level := level;
                                            PDFParser.oe_title := strip title;
                                            PDFParser.oe_page := page;
                                            PDFParser.oe_type :=
                                              PDFParser._classify_heading
                                                level title |}
                                       end) new_toc).
  { intros q Hq. unfold PDFParser.extract_toc. cbv zeta. rewrite Hq, Hn.
    cbn [bind]. eexists. split; reflexivity. }
  destruct (E1 p0 eq_refl) as (outline & E & Ho).
  destruct (for_each_ok
              (PDFParser.section_at (PDFParser.doc p) (PDFParser.toc p))
              (enumerate (PDFParser.toc p)))
    as (sections & Es & Hall).
  { intros [i [[lv ti] pg]] _. unfold PDFParser.section_at.
    edestruct (extract_text_ok (PDFParser.doc p)) as [text ->];
      [exact Hd |].
    simpl. eauto. }
  exists p, outline, sections.
  split; [exact E |]. split; [reflexivity |]. split; [exact Ho |].
  split; [|split; [exact Hall |]].
  - unfold PDFParser.extract_content_by_toc.
    assert (Hp : match PDFParser.toc p with
                 | [] => r <- PDFParser.extract_toc p ;; Ok (fst r)
                 | _ :: _ => Ok p
                 end = Ok p).
    { destruct (PDFParser.toc p); [|reflexivity].
      destruct (E1 p eq_refl) as (outline' & -> & _). reflexivity. }
    rewrite Hp. cbn [bind]. rewrite Es. reflexivity.
  - apply Forall2_length in Hall. rewrite enumerate_length in Hall.
    rewrite Ho, length_map. symmetry. exact Hall.
Qed.

(** X17. Over a readable document, when [extract_toc] returns an outline,
    [extract_content_by_toc] on the same parser returns sections that agree
    with the outline entry by entry: the same level, stripped title, page
    and kind of heading, in the same order. *)
Theorem sections_agree_with_outline (p0 p : PDFParser.t)
  (outline : list PDFParser.OutlineEntry) :
  readable (PDFParser.doc p0) ->
  PDFParser.extract_toc p0 = Ok (p, outline) ->
  exists sections,
    PDFParser.extract_content_by_toc p = Ok (p, sections)
    /\ Forall2 same_heading outline sections.
Proof.
  intros Hd E0.
  destruct (extract_then_slice p0 Hd (ex_intro _ _ E0))
    as (p' & outline' & sections & E1 & _ & Ho & E2 & Hall & Hlen).
  rewrite E0 in E1. injection E1 as <- <-.
  exists sections. split; [exact E2 |].
  apply Forall2_same_length_lookup. split; [now symmetry |].
  intros i o s Hoi Hsi. rewrite Ho, map_lookup in Hoi.
  destruct (PDFParser.toc p !! i) as [[[lv ti] pg]|] eqn:Et;
    [|discriminate].
  injection Hoi as <-.
  apply enumerate_lookup in Et.
  destruct (Forall2_lookup_l _ _ _ _ _ Hall Et) as (s' & Hs' & Hsec).
  rewrite Hsi in Hs'. injection Hs' as <-.
  pose proof (section_at_type _ _ _ _ _ _ _ Hsec) as Hty.
  apply section_at_fields in Hsec as (Hlv & Hti & Hpg & _).
  unfold same_heading. simpl. repeat split; congruence.
Qed.

Lemma sections_agree_with_outline_witness :
  exists p outline sections,
    PDFParser.extract_toc unordered_parser = Ok (p, outline)
    /\ PDFParser.extract_content_by_toc p = Ok (p, sections)
    /\ Forall2 same_heading outline sections.
Proof.
  destruct (extract_toc_embedded unordered_parser) as [[p outline] E];
    [discriminate |].
  destruct (sections_agree_with_outline unordered_parser p outline)
    as (sections & E2 & Hall).
  - apply pdf_of_pages_readable. discriminate.
  - exact E.
  - exists p, outline, sections. split; [exact E |].
    split; [exact E2 | exact Hall].
Defined.

(** ** The outcomes of a run *)

Lemma logs_only_ret {A : Type} (a : A) : logs_only (DatabasePopulator.ret a).
Proof.
  intros self trace. exists (Ok a), []. rewrite app_nil_r.
  split; [reflexivity | constructor].
Qed.

Lemma logs_only_lift {A : Type} (r : res A) :
  logs_only (DatabasePopulator.lift r).
Proof.
  intros self trace. exists r, []. rewrite app_nil_r.
  split; [reflexivity | constructor].
Qed.

Lemma logs_only_info (message : str) :
  logs_only (DatabasePopulator.info message).
Proof.
  intros self trace.
  exists (Ok tt), [DatabasePopulator.Log DatabasePopulator.INFO message].
  split; [reflexivity | repeat constructor].
Qed.

Lemma logs_only_get_self : logs_only DatabasePopulator.get_self.
Proof.
  intros self trace. exists (Ok self), []. rewrite app_nil_r.
  split; [reflexivity | constructor].
Qed.

Lemma logs_only_bind {A B : Type} (m : DatabasePopulator.M A)
  (k : A -> DatabasePopulator.M B) :
  logs_only m -> (forall a, logs_only (k a)) ->
  logs_only (DatabasePopulator.mbind' m k).
Proof.
  intros Hm Hk self trace. destruct (Hm self trace) as (r & logs & Em & Hl).
  unfold DatabasePopulator.mbind'. rewrite Em. destruct r as [a|e].
  - destruct (Hk a self (trace ++ logs)) as (r' & logs' & Ek & Hl').
    exists r', (logs ++ logs'). rewrite Ek, app_assoc.
    split; [reflexivity | now apply Forall_app].
  - exists (Raise e), logs. split; [reflexivity | exact Hl].
Qed.

Lemma logs_only_for_M {A B : Type} (body : B -> A -> DatabasePopulator.M B)
  (l : list A) :
  (forall acc a, logs_only (body acc a)) ->
  forall acc, logs_only (DatabasePopulator.for_M body l acc).
Proof.
  intros Hbody. induction l as [|a l IH]; intros acc; simpl.
  - apply logs_only_ret.
  - apply logs_only_bind; [apply Hbody | exact IH].
Qed.

Lemma stores_written_app (a b : list DatabasePopulator.event) :
  stores_written (a ++ b) = stores_written a ++ stores_written b.
Proof. apply List.flat_map_app. Qed.

Lemma stores_cleared_app (a b : list DatabasePopulator.event) :
  stores_cleared (a ++ b) = stores_cleared a ++ stores_cleared b.
Proof. apply List.flat_map_app. Qed.

Lemma stores_opened_app (a b : list DatabasePopulator.event) :
  stores_opened (a ++ b) = (stores_opened a + stores_opened b)%nat.
Proof.
  unfold stores_opened. now rewrite List.filter_app, length_app.
Qed.

Lemma logs_touch_no_store (logs : list DatabasePopulator.event) :
  Forall is_log logs ->
  stores_written logs = [] /\ stores_cleared logs = []
  /\ stores_opened logs = 0%nat.
Proof.
  induction 1 as [|e logs He _ (IH1 & IH2 & IH3)]; [repeat split |].
  destruct e; try destruct He. repeat split; assumption.
Qed.

Section Outcomes.
Import DatabasePopulator.

Variable split_text : SmartTextSplitter.t -> str -> list str.
Variable set_order : list str -> list str.
Variable files : str -> option PdfDoc.
Variable new_vector_store : res VectorStoreManager.t.
Variable filter_complex_metadata :
  list SmartTextSplitter.Document -> list SmartTextSplitter.Document.

Lemma chunk_sections_logs_only (self : DatabasePopulator.t)
  (sections : list PDFParser.Section) :
  logs_only (chunk_sections split_text set_order self sections).
Proof.
  unfold chunk_sections. apply logs_only_for_M. intros acc [i section].
  apply logs_only_bind; [apply logs_only_info |]. intros _.
  apply logs_only_bind; [apply logs_only_lift |]. intros hierarchy.
  apply logs_only_bind; [apply logs_only_info |]. intros _.
  apply logs_only_ret.
Qed.

Lemma ingest_logs_only :
  logs_only (ingest split_text set_order files filter_complex_metadata).
Proof.
  unfold ingest.
  apply logs_only_bind; [apply logs_only_get_self |]. intros self.
  apply logs_only_bind; [apply logs_only_info |]. intros _.
  apply logs_only_bind; [apply logs_only_lift |]. intros parser.
  apply logs_only_bind; [apply logs_only_info |]. intros _.
  apply logs_only_bind; [apply logs_only_lift |]. intros r1.
  apply logs_only_bind; [apply logs_only_info |]. intros _.
  apply logs_only_bind; [apply logs_only_info |]. intros _.
  apply logs_only_bind; [apply logs_only_lift |]. intros r2.
  apply logs_only_bind; [apply logs_only_info |]. intros _.
  apply logs_only_bind; [apply logs_only_info |]. intros _.
  apply logs_only_bind; [apply chunk_sections_logs_only |].
  intros all_documents.
  apply logs_only_bind; [apply logs_only_info |]. intros _.
  apply logs_only_bind; [apply logs_only_info |]. intros _.
  apply logs_only_bind; [apply logs_only_info |]. intros _.
  apply logs_only_ret.
Qed.

Lemma store_run (sections : list PDFParser.Section)
  (documents : list SmartTextSplitter.Document) (self : DatabasePopulator.t)
  (trace : list event) :
  store sections documents (self, trace)
  = match VectorStoreManager.add_documents (vector_store self) documents with
    | Ok ids =>
      (Ok (Success (length sections) (length documents) ids),
       (self,
        trace
        ++ [Log INFO (py "Добавление документов в ChromaDB...");
            AddDocuments (VectorStoreManager.vs_id (vector_store self))
                         documents;
            Log INFO (py "Успешно добавлено документов: "
                      ++ str_of_nat (length ids))]))
    | Raise e =>
      (Ok (Error e (length sections) (length documents)),
       (self,
        trace
        ++ [Log INFO (py "Добавление документов в ChromaDB...");
            AddDocuments (VectorStoreManager.vs_id (vector_store self))
                         documents;
            Log ERROR (py "Ошибка при добавлении документов: " ++ e)]))
    end.
Proof.
  unfold store, mbind', try_except, info, emit, get_self, lift, ret.
  simpl.
  destruct (VectorStoreManager.add_documents (vector_store self) documents);
    simpl; rewrite <- !app_assoc; reflexivity.
Qed.

Lemma clear_collection_run (self : DatabasePopulator.t) (trace : list event) :
  exists self' events,
    clear_collection new_vector_store (self, trace)
    = (Ok tt, (self', trace ++ events))
    /\ pdf_path self' = pdf_path self
    /\ text_splitter self' = text_splitter self
    /\ stores_written events = []
    /\ stores_cleared events
       = [VectorStoreManager.vs_id (vector_store self)]
    /\ match VectorStoreManager.delete_collection (vector_store self),
             new_vector_store with
       | Ok _, Ok v =>
         vector_store self' = v /\ stores_opened events = 1%nat
       | Ok _, Raise e =>
         self' = self /\ stores_opened events = 1%nat
         /\ In (Log WARNING (py "Не удалось удалить коллекцию: " ++ e))
               events
       | Raise e, _ =>
         self' = self /\ stores_opened events = 0%nat
         /\ In (Log WARNING (py "Не удалось удалить коллекцию: " ++ e))
               events
       end.
Proof.
  unfold clear_collection, mbind', try_except, info, emit, get_self, lift,
    set_vector_store.
  simpl.
  destruct (VectorStoreManager.delete_collection (vector_store self))
    as [[]|e]; simpl.
  - destruct new_vector_store as [v|e]; simpl;
      rewrite <- !app_assoc; simpl; eexists; eexists;
      (split; [reflexivity |]); simpl; repeat split; auto.
  - rewrite <- !app_assoc. simpl. eexists. eexists.
    split; [reflexivity |]. simpl. repeat split; auto.
Qed.

Lemma populate_steps (clear_existing : bool) (self : DatabasePopulator.t)
  (trace : list event) :
  exists self1 events1 r logs,
    populate split_text set_order files new_vector_store
             filter_complex_metadata clear_existing (self, trace)
    = match r with
      | Ok (sections, documents) =>
        store sections documents (self1, trace ++ events1 ++ logs)
      | Raise e => (Raise e, (self1, trace ++ events1 ++ logs))
      end
    /\ ingest split_text set_order files filter_complex_metadata
              (self1, trace ++ events1)
       = (r, (self1, (trace ++ events1) ++ logs))
    /\ Forall is_log logs
    /\ pdf_path self1 = pdf_path self
    /\ text_splitter self1 = text_splitter self
    /\ stores_written events1 = []
    /\ if clear_existing
       then clear_collection new_vector_store (self, trace)
            = (Ok tt, (self1, trace ++ events1))
       else self1 = self /\ events1 = [].
Proof.
  assert (Hc : exists self1 events1,
             (if clear_existing then clear_collection new_vector_store
              else ret tt) (self, trace)
             = (Ok tt, (self1, trace ++ events1))
             /\ pdf_path self1 = pdf_path self
             /\ text_splitter self1 = text_splitter self
             /\ stores_written events1 = []
             /\ if clear_existing
                then clear_collection new_vector_store (self, trace)
                     = (Ok tt, (self1, trace ++ events1))
                else self1 = self /\ events1 = []).
  { destruct clear_existing.
    - destruct (clear_collection_run self trace)
        as (self1 & events1 & E & Hp & Ht & Hw & _).
      exists self1, events1. repeat split; assumption.
    - exists self, []. rewrite app_nil_r. repeat split. }
  destruct Hc as (self1 & events1 & Ec & Hp & Ht & Hw & Hclear).
  destruct (ingest_logs_only self1 (trace ++ events1))
    as (r & logs & Ei & Hlogs).
  exists self1, events1, r, logs.
  split; [|repeat split; assumption].
  unfold populate. unfold mbind' at 1. rewrite Ec.
  unfold mbind' at 1. rewrite Ei, <- app_assoc.
  destruct r as [[sections documents]|e]; reflexivity.
Qed.

(** X18. Whatever the file and the stores do, a run of [populate] ends in
    one of three ways. It raises, and then nothing was handed to a store.
    It returns a result of status [success]: one batch was handed to the
    store the populator holds at the end, which accepted it, and
    [total_documents] is the size of the batch. Or it returns a result of
    status [error]: one batch was handed to that store, which raised the
    error reported, and the last event is the error in the log. The path
    and the splitter of the populator are never changed, and without
    [clear_existing] nor is its store: no collection is deleted and no new
    store is opened. *)
Theorem populate_outcomes (clear_existing : bool)
  (self : DatabasePopulator.t) (trace : list event) :
  exists r self' events,
    populate split_text set_order files new_vector_store
             filter_complex_metadata clear_existing (self, trace)
    = (r, (self', trace ++ events))
    /\ pdf_path self' = pdf_path self
    /\ text_splitter self' = text_splitter self
    /\ match r with
       | Ok (Success _ total_documents ids) =>
         exists documents,
           stores_written events
           = [VectorStoreManager.vs_id (vector_store self')]
           /\ In (AddDocuments (VectorStoreManager.vs_id (vector_store self'))
                               documents) events
           /\ VectorStoreManager.add_documents (vector_store self') documents
              = Ok ids
           /\ total_documents = length documents
       | Ok (Error e _ total_documents) =>
         exists documents,
           stores_written events
           = [VectorStoreManager.vs_id (vector_store self')]
           /\ VectorStoreManager.add_documents (vector_store self') documents
              = Raise e
           /\ total_documents = length documents
           /\ last events
              = Some (Log ERROR
                          (py "Ошибка при добавлении документов: " ++ e))
       | Raise _ => stores_written events = []
       end
    /\ (clear_existing = false ->
        self' = self /\ stores_cleared events = []
        /\ stores_opened events = 0%nat).
Proof.
  destruct (populate_steps clear_existing self trace)
    as (self1 & events1 & r & logs & -> & _ & Hlogs & Hp & Ht & Hw & Hclear).
  destruct (logs_touch_no_store logs Hlogs) as (Hlw & Hlc & Hlo).
  assert (Hfalse : forall tail,
             stores_cleared tail = [] -> stores_opened tail = 0%nat ->
             clear_existing = false ->
             self1 = self /\ stores_cleared (events1 ++ logs ++ tail) = []
             /\ stores_opened (events1 ++ logs ++ tail) = 0%nat).
  { intros tail Htc Hto ->. destruct Hclear as [-> ->].
    rewrite app_nil_l, stores_cleared_app, stores_opened_app, Hlc, Hlo, Htc,
      Hto.
    repeat split. }
  destruct r as [[sections documents]|e].
  - rewrite store_run.
    destruct (VectorStoreManager.add_documents (vector_store self1)
                                               documents) as [ids|e] eqn:Ea;
      eexists; exists self1; eexists;
      (split; [rewrite <- !app_assoc; reflexivity |]);
      (split; [exact Hp |]); (split; [exact Ht |]);
      (split; [|apply Hfalse; reflexivity]);
      exists documents; rewrite !stores_written_app, Hw, Hlw.
    + split; [reflexivity |]. split; [|split; [exact Ea | reflexivity]].
      apply List.in_or_app. right. apply List.in_or_app. right.
      right. left. reflexivity.
    + split; [reflexivity |]. split; [exact Ea |].
      split; [reflexivity |]. rewrite !last_app. reflexivity.
  - eexists; exists self1; eexists.
    split; [rewrite <- (app_nil_r logs) at 1; reflexivity |].
    split; [exact Hp |]. split; [exact Ht |]. split.
    + now rewrite !stores_written_app, Hw, Hlw.
    + apply Hfalse; reflexivity.
Qed.

(** X19. When the PDF file does not exist, [populate] raises
    [PDF file not found] with the path, and nothing is handed to a store;
    with [clear_existing] the collection of the store was asked to be
    deleted before. *)
Theorem missing_file_raises_before_any_write (clear_existing : bool)
  (self : DatabasePopulator.t) (trace : list event) :
  files (pdf_path self) = None ->
  exists self' events,
    populate split_text set_order files new_vector_store
             filter_complex_metadata clear_existing (self, trace)
    = (Raise (py "PDF file not found: " ++ pdf_path self),
       (self', trace ++ events))
    /\ stores_written events = []
    /\ (clear_existing = true ->
        stores_cleared events
        = [VectorStoreManager.vs_id (vector_store self)]).
Proof.
  intros Hfile.
  destruct (populate_steps clear_existing self trace)
    as (self1 & events1 & r & logs & -> & Ei & Hlogs & Hp & _ & Hw & Hclear).
  destruct (logs_touch_no_store logs Hlogs) as (Hlw & Hlc & _).
  assert (Er : r = Raise (py "PDF file not found: " ++ pdf_path self)).
  { revert Ei. unfold ingest, mbind', get_self, info, emit, lift,
      open_parser.
    cbn [fst snd]. rewrite Hp, Hfile. now intros [= <- _]. }
  subst r. exists self1, (events1 ++ logs).
  split; [reflexivity |]. split.
  - now rewrite stores_written_app, Hw, Hlw.
  - intros ->. rewrite stores_cleared_app, Hlc, app_nil_r.
    destruct (clear_collection_run self trace)
      as (self2 & events2 & E & _ & _ & _ & Hc & _).
    rewrite E in Hclear. injection Hclear as _ Heq.
    apply app_inv_head in Heq. now subst events2.
Qed.

Lemma chunk_loop (self : DatabasePopulator.t)
  (sections : list PDFParser.Section) :
  forall (l : list (nat * PDFParser.Section))
         (acc : list SmartTextSplitter.Document) (trace : list event),
    (forall i s, In (i, s) l -> sections !! i = Some s) ->
    exists per_section logs,
      for_M (fun all_documents isec =>
               let i := fst isec in
               let section := snd isec in
               info (py "Обработка раздела " ++ str_of_nat (i + 1) ++ py "/"
                     ++ str_of_nat (length sections) ++ py ": "
                     ++ PDFParser.title section ++ py " (страница "
                     ++ str_of_Z (PDFParser.start_page section) ++ py ")") >>
               hierarchy <~ lift (_build_hierarchy sections (Z.of_nat i)) ;;
               let documents :=
                 SmartTextSplitter.split_section
                   split_text set_order (text_splitter self)
                   section (Some hierarchy) in
               info (py "  Создано чанков: "
                     ++ str_of_nat (length documents)) >>
               ret (all_documents ++ documents))
            l acc (self, trace)
      = (Ok (acc ++ concat per_section), (self, trace ++ logs))
      /\ Forall is_log logs
      /\ Forall2 (documents_at split_text set_order self sections)
                 l per_section.
Proof.
  match goal with
  | |- context [for_M ?b] => set (body := b)
  end.
  induction l as [|[i s] l IH]; intros acc trace Hl.
  - exists [], []. simpl. rewrite !app_nil_r.
    repeat split; constructor.
  - assert (Hs : sections !! i = Some s) by (apply Hl; now left).
    assert (Eh : exists hierarchy,
               _build_hierarchy sections (Z.of_nat i) = Ok hierarchy).
    { unfold _build_hierarchy. rewrite (getitem_nat _ _ _ Hs). simpl. eauto. }
    destruct Eh as [hierarchy Eh].
    set (documents := SmartTextSplitter.split_section
                        split_text set_order (text_splitter self)
                        s (Some hierarchy)).
    set (logs1 :=
           [Log INFO (py "Обработка раздела " ++ str_of_nat (i + 1) ++ py "/"
                      ++ str_of_nat (length sections) ++ py ": "
                      ++ PDFParser.title s ++ py " (страница "
                      ++ str_of_Z (PDFParser.start_page s) ++ py ")");
            Log INFO (py "  Создано чанков: "
                      ++ str_of_nat (length documents))]).
    assert (Eb : body acc (i, s) (self, trace)
                 = (Ok (acc ++ documents), (self, trace ++ logs1))).
    { unfold body, mbind', info, emit, lift, ret. cbn [fst snd].
      rewrite Eh. cbn [fst snd]. fold documents. unfold logs1.
      rewrite <- app_assoc. reflexivity. }
    destruct (IH (acc ++ documents) (trace ++ logs1))
      as (per_section & logs & E & Hlogs & Hall);
      [intros; apply Hl; now right |].
    exists (documents :: per_section), (logs1 ++ logs).
    split; [|split].
    + cbn [for_M]. unfold mbind' at 1. rewrite Eb, E. cbn [concat].
      rewrite <- !app_assoc. reflexivity.
    + apply Forall_app. split; [repeat constructor | exact Hlogs].
    + constructor; [|exact Hall]. exists hierarchy. split; [exact Eh |].
      reflexivity.
Qed.

(** X20. The loop of [populate] over the sections returns, and only logs:
    the documents it collects are those of the first section, then those of
    the second, and so on, the documents of a section being what
    [split_section] builds for it with the ancestors that
    [_build_hierarchy] finds at its index. *)
Theorem chunk_sections_concatenates (self : DatabasePopulator.t)
  (sections : list PDFParser.Section) (trace : list event) :
  exists per_section logs,
    chunk_sections split_text set_order self sections (self, trace)
    = (Ok (concat per_section), (self, trace ++ logs))
    /\ Forall is_log logs
    /\ Forall2 (documents_at split_text set_order self sections)
               (enumerate sections) per_section
    /\ length per_section = length sections.
Proof.
  destruct (chunk_loop self sections (enumerate sections) [] trace)
    as (per_section & logs & E & Hlogs & Hall).
  - intros i s. apply enumerate_in.
  - exists per_section, logs. unfold chunk_sections.
    split; [exact E |]. split; [exact Hlogs |]. split; [exact Hall |].
    apply Forall2_length in Hall. now rewrite enumerate_length in Hall.
Qed.

Lemma chunk_sections_run (self : DatabasePopulator.t)
  (sections : list PDFParser.Section) :
  quiet_at self (chunk_sections split_text set_order self sections)
           (fun documents =>
              exists per_section,
                documents = concat per_section
                /\ Forall2 (documents_at split_text set_order self sections)
                           (enumerate sections) per_section).
Proof.
  intros trace.
  destruct (chunk_loop self sections (enumerate sections) [] trace)
    as (per_section & logs & E & Hlogs & Hall).
  - intros i s. apply enumerate_in.
  - exists (concat per_section), logs. unfold chunk_sections.
    split; [exact E |]. split; [exact Hlogs |]. now exists per_section.
Qed.

Lemma ingest_run (self : DatabasePopulator.t) (d : PdfDoc) :
  files (pdf_path self) = Some d ->
  readable d ->
  outline_found d ->
  quiet_at self
           (ingest split_text set_order files filter_complex_metadata)
           (fun r =>
              exists p outline per_section,
                PDFParser.extract_toc
                  {| PDFParser.doc := d; PDFParser.toc := [] |}
                = Ok (p, outline)
                /\ PDFParser.extract_content_by_toc p = Ok (p, fst r)
                /\ length (fst r) = length outline
                /\ Forall2 (documents_at split_text set_order self (fst r))
                           (enumerate (fst r)) per_section
                /\ snd r = filter_complex_metadata (concat per_section)).
Proof.
  intros Hfile Hd Ho.
  destruct (extract_then_slice
              {| PDFParser.doc := d; PDFParser.toc := [] |} Hd Ho)
    as (p & outline & sections & E1 & _ & _ & E2 & _ & Hlen).
  unfold ingest.
  eapply quiet_bind; [apply quiet_get_self |]. intros ? ->.
  eapply quiet_bind; [apply quiet_info |]. intros _ _.
  eapply quiet_bind.
  { eapply quiet_lift
      with (Q := fun q => q = {| PDFParser.doc := d; PDFParser.toc := [] |}).
    - unfold open_parser. rewrite Hfile. reflexivity.
    - reflexivity. }
  intros ? ->.
  eapply quiet_bind; [apply quiet_info |]. intros _ _.
  eapply quiet_bind.
  { eapply quiet_lift with (Q := fun r => r = (p, outline));
      [exact E1 | reflexivity]. }
  intros ? ->. cbn [fst snd].
  eapply quiet_bind; [apply quiet_info |]. intros _ _.
  eapply quiet_bind; [apply quiet_info |]. intros _ _.
  eapply quiet_bind.
  { eapply quiet_lift with (Q := fun r => r = (p, sections));
      [exact E2 | reflexivity]. }
  intros ? ->. cbn [fst snd].
  eapply quiet_bind; [apply quiet_info |]. intros _ _.
  eapply quiet_bind; [apply quiet_info |]. intros _ _.
  eapply quiet_bind; [apply chunk_sections_run |].
  intros all_documents (per_section & -> & Hall).
  eapply quiet_bind; [apply quiet_info |]. intros _ _.
  eapply quiet_bind; [apply quiet_info |]. intros _ _.
  eapply quiet_bind; [apply quiet_info |]. intros _ _.
  apply quiet_ret. exists p, outline, per_section. cbn [fst snd].
  repeat split; assumption.
Qed.

(** X21. When the file is there and readable and [extract_toc] returns
    its outline, [populate] returns a result, with or without
    [clear_existing] and whatever the stores do; [total_sections] is the
    number of entries of that outline, and [total_documents] the number of
    documents that are left by [filter_complex_metadata] of the documents
    of all the sections. *)
Theorem populate_reports_the_counts (clear_existing : bool)
  (self : DatabasePopulator.t) (trace : list event) (d : PdfDoc)
  (p : PDFParser.t) (outline : list PDFParser.OutlineEntry) :
  files (pdf_path self) = Some d ->
  readable d ->
  PDFParser.extract_toc {| PDFParser.doc := d; PDFParser.toc := [] |}
  = Ok (p, outline) ->
  exists sections per_section result state,
    PDFParser.extract_content_by_toc p = Ok (p, sections)
    /\ Forall2 (documents_at split_text set_order self sections)
               (enumerate sections) per_section
    /\ populate split_text set_order files new_vector_store
                filter_complex_metadata clear_existing (self, trace)
       = (Ok result, state)
    /\ total_sections result = length outline
    /\ total_documents result
       = length (filter_complex_metadata (concat per_section)).
Proof.
  intros Hfile Hd E0.
  destruct (populate_steps clear_existing self trace)
    as (self1 & events1 & r & logs & -> & Ei & _ & Hp & Ht & _).
  rewrite <- Hp in Hfile.
  destruct (ingest_run self1 d Hfile Hd (ex_intro _ _ E0)
                       (trace ++ events1))
    as ([sections documents] & logs'
        & Ei' & _ & p' & outline' & per_section
        & E1 & E2 & Hlen & Hall & Hdocs).
  rewrite E0 in E1. injection E1 as <- <-.
  cbn [fst snd] in *. rewrite Ei' in Ei. injection Ei as <- _.
  exists sections, per_section.
  assert (Hall' : Forall2 (documents_at split_text set_order self sections)
                          (enumerate sections) per_section).
  { eapply Forall2_impl; [exact Hall |].
    intros isec docs (h & Eh & Edocs). exists h. split; [exact Eh |].
    now rewrite <- Ht. }
  rewrite store_run.
  destruct (VectorStoreManager.add_documents _ _);
    eexists; eexists; (split; [exact E2 |]);
    (split; [exact Hall' |]); (split; [reflexivity |]); cbn.
    all: rewrite Hdocs; split; [exact Hlen | reflexivity].
Qed.

(** X22. With [clear_existing], when the collection is deleted and a new
    store opens, and the file is there and readable and its outline is
    found ([extract_toc] returns), the run returns a result: it deletes the
    collection of the old store once, opens one store, makes it the store
    of the populator, and hands its documents to the new store only. *)
Theorem cleared_run_writes_to_the_new_store (self : DatabasePopulator.t)
  (trace : list event) (d : PdfDoc) (v : VectorStoreManager.t) :
  VectorStoreManager.delete_collection (vector_store self) = Ok tt ->
  new_vector_store = Ok v ->
  files (pdf_path self) = Some d ->
  readable d ->
  outline_found d ->
  exists result self' events,
    populate split_text set_order files new_vector_store
             filter_complex_metadata true (self, trace)
    = (Ok result, (self', trace ++ events))
    /\ vector_store self' = v
    /\ stores_cleared events
       = [VectorStoreManager.vs_id (vector_store self)]
    /\ stores_opened events = 1%nat
    /\ stores_written events = [VectorStoreManager.vs_id v].
Proof.
  intros Hdel Hnew Hfile Hd Hfound.
  destruct (populate_steps true self trace)
    as (self1 & events1 & r & logs & -> & Ei & Hlogs & Hp & _ & Hw & Hclear).
  destruct (logs_touch_no_store logs Hlogs) as (Hlw & Hlc & Hlo).
  destruct (clear_collection_run self trace)
    as (self2 & events2 & E & _ & _ & _ & Hc & Hcase).
  rewrite E in Hclear. injection Hclear as -> Heq.
  apply app_inv_head in Heq. subst events2.
  rewrite Hdel, Hnew in Hcase. destruct Hcase as [Hv Ho].
  rewrite <- Hp in Hfile.
  destruct (ingest_quiet split_text set_order files filter_complex_metadata
                         self1 d Hfile Hd Hfound (trace ++ events1))
    as ([sections documents] & logs' & Ei' & _).
  rewrite Ei' in Ei. injection Ei as <- _.
  rewrite store_run.
  destruct (VectorStoreManager.add_documents _ _);
    eexists; exists self1; eexists;
    (split; [rewrite <- !app_assoc; reflexivity |]);
    (split; [exact Hv |]);
    rewrite !stores_cleared_app, !stores_opened_app, !stores_written_app,
      Hc, Ho, Hw, Hlc, Hlo, Hlw, Hv; repeat split.
Qed.

(** X23. With [clear_existing], when the collection is deleted but the new
    store cannot be opened, the run is not aborted by it: if the file is
    there and readable and its outline is found ([extract_toc] returns),
    the run returns a result; the collection of the old store was deleted,
    the warning that the collection could not be deleted is logged with
    the error, the populator keeps the old store, and the documents are
    handed to it. *)
Theorem failed_reopening_keeps_the_old_store (self : DatabasePopulator.t)
  (trace : list event) (d : PdfDoc) (e : str) :
  VectorStoreManager.delete_collection (vector_store self) = Ok tt ->
  new_vector_store = Raise e ->
  files (pdf_path self) = Some d ->
  readable d ->
  outline_found d ->
  exists result events,
    populate split_text set_order files new_vector_store
             filter_complex_metadata true (self, trace)
    = (Ok result, (self, trace ++ events))
    /\ stores_cleared events
       = [VectorStoreManager.vs_id (vector_store self)]
    /\ In (Log WARNING (py "Не удалось удалить коллекцию: " ++ e)) events
    /\ stores_written events
       = [VectorStoreManager.vs_id (vector_store self)].
Proof.
  intros Hdel Hnew Hfile Hd Hfound.
  destruct (populate_steps true self trace)
    as (self1 & events1 & r & logs & -> & Ei & Hlogs & Hp & _ & Hw & Hclear).
  destruct (logs_touch_no_store logs Hlogs) as (Hlw & Hlc & Hlo).
  destruct (clear_collection_run self trace)
    as (self2 & events2 & E & _ & _ & _ & Hc & Hcase).
  rewrite E in Hclear. injection Hclear as -> Heq.
  apply app_inv_head in Heq. subst events2.
  rewrite Hdel, Hnew in Hcase. destruct Hcase as (-> & _ & Hwarn).
  destruct (ingest_quiet split_text set_order files filter_complex_metadata
                         self d Hfile Hd Hfound (trace ++ events1))
    as ([sections documents] & logs' & Ei' & _).
  rewrite Ei' in Ei. injection Ei as <- _.
  rewrite store_run.
  destruct (VectorStoreManager.add_documents _ _);
    eexists; eexists;
    (split; [rewrite <- !app_assoc; reflexivity |]);
    rewrite !stores_cleared_app, !stores_written_app, Hc, Hw, Hlc, Hlw;
    (split; [reflexivity |]);
    (split; [apply List.in_or_app; now left | reflexivity]).
Qed.

(** X24. When the file is there and readable, its outline is found
    ([extract_toc] returns) and the store refuses the documents,
    [populate] raises nothing: it returns a result of status [error] that
    carries the error of the store, the populator is unchanged, one batch
    was handed to the store, and the last event is the error in the
    log. *)
Theorem write_failure_gives_error_status (self : DatabasePopulator.t)
  (trace : list event) (d : PdfDoc) (e : str) :
  files (pdf_path self) = Some d ->
  readable d ->
  outline_found d ->
  (forall documents,
      VectorStoreManager.add_documents (vector_store self) documents
      = Raise e) ->
  exists total_sections total_documents events,
    populate split_text set_order files new_vector_store
             filter_complex_metadata false (self, trace)
    = (Ok (Error e total_sections total_documents),
       (self, trace ++ events))
    /\ status (Error e total_sections total_documents) = py "error"
    /\ stores_written events
       = [VectorStoreManager.vs_id (vector_store self)]
    /\ last events
       = Some (Log ERROR (py "Ошибка при добавлении документов: " ++ e)).
Proof.
  intros Hfile Hd Hfound Hadd.
  destruct (populate_steps false self trace)
    as (self1 & events1 & r & logs & -> & Ei & Hlogs & _ & _ & _ & Hclear).
  destruct Hclear as [-> ->].
  destruct (logs_touch_no_store logs Hlogs) as (Hlw & _).
  destruct (ingest_quiet split_text set_order files filter_complex_metadata
                         self d Hfile Hd Hfound (trace ++ []))
    as ([sections documents] & logs' & Ei' & _).
  rewrite Ei' in Ei. injection Ei as <- _.
  rewrite store_run, Hadd, app_nil_l.
  eexists; eexists; eexists.
  split; [rewrite <- !app_assoc; reflexivity |].
  split; [reflexivity |].
  rewrite stores_written_app, Hlw, last_app. split; reflexivity.
Qed.

End Outcomes.

Lemma missing_file_raises_before_any_write_witness :
  exists self' events,
    DatabasePopulator.populate
      one_chunk first_seen (fun _ : str => @None PdfDoc) (Ok fresh_store)
      (fun documents => documents) true (small_populator, [])
    = (Raise (py "PDF file not found: "
              ++ DatabasePopulator.pdf_path small_populator),
       (self', [] ++ events))
    /\ stores_written events = [].
Proof.
  destruct (missing_file_raises_before_any_write
              one_chunk first_seen (fun _ : str => @None PdfDoc)
              (Ok fresh_store) (fun documents => documents) true
              small_populator [] eq_refl)
    as (self' & events & E & Hw & _).
  exists self', events. split; [exact E | exact Hw].
Defined.

Lemma populate_reports_the_counts_witness :
  exists outline result state,
    small_run false = (Ok result, state)
    /\ total_sections result = length (A := PDFParser.OutlineEntry) outline.
Proof.
  destruct (extract_toc_embedded
              {| PDFParser.doc := two_pages; PDFParser.toc := [] |})
    as [[p outline] E0]; [discriminate |].
  destruct (populate_reports_the_counts
              one_chunk first_seen (fun _ => Some two_pages) (Ok fresh_store)
              (fun documents => documents) false small_populator []
              two_pages p outline eq_refl)
    as (sections & per_section & result & state & _ & _ & E & Hs & _).
  - apply pdf_of_pages_readable. discriminate.
  - exact E0.
  - exists outline, result, state. split; [exact E | exact Hs].
Defined.

Lemma cleared_run_writes_to_the_new_store_witness :
  exists result self' events,
    DatabasePopulator.populate
      one_chunk first_seen (fun _ => Some two_pages) (Ok locked_store)
      (fun documents => documents) true (populator_of fresh_store, [])
    = (Ok result, (self', [] ++ events))
    /\ DatabasePopulator.vector_store self' = locked_store.
Proof.
  destruct (cleared_run_writes_to_the_new_store
              one_chunk first_seen (fun _ => Some two_pages) (Ok locked_store)
              (fun documents => documents) (populator_of fresh_store) []
              two_pages locked_store eq_refl eq_refl eq_refl)
    as (result & self' & events & E & Hv & _).
  - apply pdf_of_pages_readable. discriminate.
  - apply extract_toc_embedded. discriminate.
  - exists result, self', events. split; [exact E | exact Hv].
Defined.

Lemma failed_reopening_keeps_the_old_store_witness :
  exists result events,
    DatabasePopulator.populate
      one_chunk first_seen (fun _ => Some two_pages)
      (Raise (py "no embeddings")) (fun documents => documents) true
      (populator_of fresh_store, [])
    = (Ok result, (populator_of fresh_store, [] ++ events))
    /\ stores_written events = [1%nat].
Proof.
  destruct (failed_reopening_keeps_the_old_store
              one_chunk first_seen (fun _ => Some two_pages)
              (Raise (py "no embeddings")) (fun documents => documents)
              (populator_of fresh_store) [] two_pages (py "no embeddings")
              eq_refl eq_refl eq_refl)
    as (result & events & E & _ & _ & Hw).
  - apply pdf_of_pages_readable. discriminate.
  - apply extract_toc_embedded. discriminate.
  - exists result, events. split; [exact E | exact Hw].
Defined.

Lemma write_failure_gives_error_status_witness :
  exists total_sections total_documents events,
    DatabasePopulator.populate
      one_chunk first_seen (fun _ => Some two_pages) (Ok fresh_store)
      (fun documents => documents) false (populator_of full_store, [])
    = (Ok (DatabasePopulator.Error (py "disk full") total_sections
                                   total_documents),
       (populator_of full_store, [] ++ events)).
Proof.
  destruct (write_failure_gives_error_status
              one_chunk first_seen (fun _ => Some two_pages) (Ok fresh_store)
              (fun documents => documents) (populator_of full_store) []
              two_pages (py "disk full") eq_refl)
    as (n & m & events & E & _).
  - apply pdf_of_pages_readable. discriminate.
  - apply extract_toc_embedded. discriminate.
  - intros documents. reflexivity.
  - exists n, m, events. exact E.
Defined.

(** ** The script *)

Section Script.
Import DatabasePopulator.

Variable split_text : SmartTextSplitter.t -> str -> list str.
Variable set_order : list str -> list str.
Variable files : str -> option PdfDoc.
Variable new_vector_store : res VectorStoreManager.t.
Variable filter_complex_metadata :
  list SmartTextSplitter.Document -> list SmartTextSplitter.Document.
Variable vector_store_manager : VectorStoreManager.t.
Variable path_str : str -> str.
Variable check_splitter : SmartTextSplitter.t -> res unit.

(** X25. Where [argparse] ends the process (on [--help], or on a command
    line it refuses), the script [populate_db.py] ends with the status of
    [argparse] and nothing is done. Where it returns the arguments, the
    script ends with status 0 or 1 and lets no exception of the run escape.
    When the file does not exist it ends with status 1 before anything is
    done: even with [--clear] no collection is deleted. Status 0 means that
    one batch of documents was handed to a store and accepted. When the
    splitter is built, the file is there and readable and its outline is
    found ([extract_toc] returns), status 1 means that the store raised:
    one batch was handed to a store and the last event is the error in
    the log. *)
Theorem main_exit_status (parse_args : PopulateDb.parsed)
  (trace : list event) :
  match parse_args with
  | PopulateDb.Exited status =>
    PopulateDb.main split_text set_order files new_vector_store
                    filter_complex_metadata vector_store_manager path_str
                    check_splitter parse_args trace
    = (status, trace)
  | PopulateDb.Parsed a =>
    exists code events,
      PopulateDb.main split_text set_order files new_vector_store
                      filter_complex_metadata vector_store_manager path_str
                      check_splitter parse_args trace
      = (code, trace ++ events)
      /\ (code = 0%Z \/ code = 1%Z)
      /\ (files (path_str (PopulateDb.arg_pdf a)) = None ->
          code = 1%Z /\ events = [])
      /\ (code = 0%Z ->
          exists store documents ids,
            stores_written events = [VectorStoreManager.vs_id store]
            /\ In (AddDocuments (VectorStoreManager.vs_id store) documents)
                  events
            /\ VectorStoreManager.add_documents store documents = Ok ids)
      /\ (forall d,
             (forall x, path_str (path_str x) = path_str x) ->
             check_splitter
               (SmartTextSplitter.init (PopulateDb.arg_chunk_size a)
                                       (PopulateDb.arg_chunk_overlap a) None)
             = Ok tt ->
             files (path_str (PopulateDb.arg_pdf a)) = Some d ->
             readable d ->
             outline_found d ->
             code = 1%Z ->
             exists store e,
               stores_written events = [VectorStoreManager.vs_id store]
               /\ last events
                  = Some (Log ERROR
                              (py "Ошибка при добавлении документов: "
                               ++ e)))
  end.
Proof.
  destruct parse_args as [a|status]; [|reflexivity].
  unfold PopulateDb.main. cbv zeta.
  destruct (files (path_str (PopulateDb.arg_pdf a))) as [d|] eqn:Hfile.
  2:{ exists 1%Z, []. rewrite app_nil_r.
      split; [reflexivity |]. split; [now right |].
      split; [now split |]. split; [discriminate | discriminate]. }
  unfold PopulateDb.populate_from_pdf, PopulateDb.init. cbv zeta.
  destruct (check_splitter _) as [[]|e0] eqn:Hcheck; cbn [bind].
  2:{ exists 1%Z, []. rewrite app_nil_r.
      split; [reflexivity |]. split; [now right |].
      split; [discriminate |]. split; [discriminate |].
      intros d' _ Hok. rewrite Hok in Hcheck. discriminate. }
  match goal with
  | |- context [populate _ _ _ _ _ _ (?x, trace)] => set (populator := x)
  end.
  destruct (populate_steps split_text set_order files new_vector_store
                           filter_complex_metadata
                           (PopulateDb.arg_clear a) populator trace)
    as (self1 & events1 & r & logs & -> & Ei & Hlogs & Hp & _ & Hw & _).
  destruct (logs_touch_no_store logs Hlogs) as (Hlw & _).
  destruct r as [[sections documents]|e].
  - rewrite store_run.
    destruct (VectorStoreManager.add_documents (vector_store self1)
                                               documents) as [ids|e] eqn:Ea;
      cbn [fst snd]; eexists; eexists;
      (split; [rewrite <- !app_assoc; reflexivity |]).
    + split; [now left |]. split; [discriminate |]. split; [|discriminate].
      intros _. exists (vector_store self1), documents, ids.
      rewrite !stores_written_app, Hw, Hlw.
      split; [reflexivity |]. split; [|exact Ea].
      apply List.in_or_app. right. apply List.in_or_app. right.
      right. left. reflexivity.
    + split; [now right |]. split; [discriminate |]. split; [discriminate |].
      intros d' _ _ _ _ _ _. exists (vector_store self1), e.
      rewrite !stores_written_app, Hw, Hlw, !last_app.
      split; reflexivity.
  - cbn [fst snd]. exists 1%Z, (events1 ++ logs).
    split; [reflexivity |]. split; [now right |]. split; [discriminate |].
    split; [discriminate |].
    intros d' Hidem _ Hd' Hread Hfound _. exfalso.
    assert (Hfile1 : files (pdf_path self1) = Some d').
    { rewrite Hp. unfold populator. cbn [pdf_path]. rewrite Hidem.
      injection Hd' as <-. exact Hfile. }
    destruct (ingest_quiet split_text set_order files
                           filter_complex_metadata self1 d' Hfile1 Hread
                           Hfound (trace ++ events1))
      as (r' & logs' & Ei' & _).
    rewrite Ei' in Ei. discriminate.
Qed.

End Script.

Lemma main_exit_status_witness :
  exists events,
    PopulateDb.main one_chunk first_seen (fun _ : str => @None PdfDoc)
                    (Ok fresh_store) (fun documents => documents)
                    fresh_store (fun path => path) (fun _ => Ok tt)
                    (PopulateDb.Parsed clear_args) []
    = (1%Z, [] ++ events)
    /\ stores_cleared events = [].
Proof.
  destruct (main_exit_status
              one_chunk first_seen (fun _ : str => @None PdfDoc)
              (Ok fresh_store) (fun documents => documents) fresh_store
              (fun path => path) (fun _ => Ok tt)
              (PopulateDb.Parsed clear_args) [])
    as (code & events & E & _ & Hmissing & _).
  destruct (Hmissing eq_refl) as [-> ->].
  exists []. split; [exact E | reflexivity].
Defined.
